(** * HalalVision: decision engine and blur compositor

    A shallow embedding of the content script's [HalalVisionDetector] and
    [BlurEngine] classes.  The repository holds three evolutions of the
    content script; they are kept apart in the modules [Part000] (the
    current engine, face-api based), [Part001] (its predecessor) and
    [Part002] (the first, BlazeFace based engine).

    Beside the two classes the embedding covers [processImage] and
    [removeAllBlurs] of the content script, and the whitelist and context
    menu handlers of the service worker, the options page and the popup.

    Conventions of the embedding:
    - a JavaScript number that is only compared or scaled (a probability, a
      box coordinate, a blur radius) is an exact rational [Q]; a literal
      such as [0.7], [0.005] or [0.2] stands for its decimal value, the
      rounding of binary floating point is not modelled;
    - a JavaScript number that is an accumulator over typed-array reads is
      [num = option Z], with [None] standing for NaN (what [undefined + n]
      gives once a read falls outside an array);
    - typed arrays are [list Z]; a read outside the array gives
      [undefined], a write outside the array is dropped;
    - truthiness is [bool];
    - the global [settings] object and the results of the awaited external
      calls of one analysis cycle are explicit arguments. *)

From Stdlib Require Import ZArith QArith Qround Qminmax Lia Lqa.
From stdpp Require Import base option list gmap strings.

Local Open Scope Z_scope.

(** ** Settings and detector payloads *)

(** The properties of the global [settings] object that the engine reads,
    together with the two thresholds of the specification's PolicySettings,
    which a caller may supply but which no function of the source reads.
    [performanceMode] and [detectionSensitivity] are read by the first
    engine alone, for the options of [segmentPerson]. *)
Record settings := Settings {
  blurFaces : bool;
  blurMen : bool;
  blurWomen : bool;
  blurBodies : bool;
  blurIntensity : Q;
  genderConfidenceThreshold : Q;
  bodyCoverageThreshold : Q;
  performanceMode : string;
  detectionSensitivity : Q
}.

(** [detection.detection.box] of face-api. *)
Record box := Box { box_x : Q; box_y : Q; box_width : Q; box_height : Q }.

(** One element of [detectAllFaces(...).withAgeAndGender()]. *)
Record detection := Detection {
  gender : string;
  genderProbability : Q;
  detection_box : box
}.

(** The engine's own face format: [{ topLeft: [x, y], bottomRight: [x, y] }]. *)
Record face := Face { topLeft : Q * Q; bottomRight : Q * Q }.

(** A BodyPix segmentation; [data] may be missing. *)
Record segmentation := Segmentation { data : option (list Z) }.

Record results := Results {
  faces : list face;
  bodySegmentation : option segmentation;
  shouldBlur : bool;
  isFallback : bool
}.

Definition set_faces (fs : list face) (r : results) : results :=
  Results fs (bodySegmentation r) (shouldBlur r) (isFallback r).
Definition set_bodySegmentation (s : option segmentation) (r : results) : results :=
  Results (faces r) s (shouldBlur r) (isFallback r).
Definition set_shouldBlur (b : bool) (r : results) : results :=
  Results (faces r) (bodySegmentation r) b (isFallback r).
Definition set_isFallback (b : bool) (r : results) : results :=
  Results (faces r) (bodySegmentation r) (shouldBlur r) b.

(** ** Exceptions

    An awaited external call either yields a value or throws.  A block of
    statements that mutates [results] either runs to its end or is left by
    an exception; in both cases the mutations made so far stay. *)
Inductive outcome (A : Type) : Type :=
  | Yields (a : A)
  | Throws.
Arguments Yields {A} a.
Arguments Throws {A}.

Inductive completion (A : Type) : Type :=
  | Completed (a : A)
  | Raised (a : A).
Arguments Completed {A} a.
Arguments Raised {A} a.

Definition andThen {A} (c : completion A) (k : A -> completion A) : completion A :=
  match c with
  | Completed a => k a
  | Raised a => Raised a
  end.

Notation "c >>> k" := (andThen c k) (at level 61, left associativity).

Definition threw {A} (c : completion A) : bool :=
  match c with Completed _ => false | Raised _ => true end.

(** [a < b] on JavaScript numbers that are not NaN. *)
Definition Qltb (a b : Q) : bool := negb (Qle_bool b a).

(** ** Body coverage test

    [segmentation.data.filter(val => val > 0).length] against
    [segmentation.data.length * coverage], where [coverage] is the literal
    of the engine at hand. *)
Section Coverage.
Variable coverage : Q.

Definition personPixelCount (d : list Z) : nat :=
  length (filter (fun val => 0 < val) d).

Definition hasPersonInSegmentation (seg : option segmentation) : bool :=
  match seg with
  | None => false
  | Some s =>
      match data s with
      | None => false
      | Some d =>
          let threshold := (inject_Z (Z.of_nat (length d)) * coverage)%Q in
          Qltb threshold (inject_Z (Z.of_nat (personPixelCount d)))
      end
  end.
End Coverage.

(** ** The face-api engines ([Part000], [Part001])

    The two files differ in the confidence below which a gender label is
    dropped ([0.7] against [0.6]) and in the options handed to the
    detector; the statements are otherwise the same. *)

(** What the awaited calls of one [analyzeImage] cycle produce. *)
Record detector_env := DetectorEnv {
  (** [faceapi.detectAllFaces(img, opts).withAgeAndGender()] *)
  detectAllFaces_withAgeAndGender : outcome (list detection);
  (** the second [faceapi.detectAllFaces(img, opts)] ("Did we find ANY faces?") *)
  detectAllFaces : outcome (list box);
  (** [this.bodyModel] is set *)
  bodyModel : bool;
  (** [this.bodyModel.segmentPerson(img, opts)] *)
  segmentPerson : outcome segmentation
}.

Definition segmentBody (env : detector_env) : option segmentation :=
  if negb (bodyModel env) then None
  else match segmentPerson env with
       | Yields s => Some s
       | Throws => None
       end.

Definition face_of_box (b : box) : face :=
  Face (box_x b, box_y b) ((box_x b + box_width b)%Q, (box_y b + box_height b)%Q).

Section FaceApiEngine.
(** the literal in [if (genderProbability < ...)] *)
Variable lowConfidence : Q.
(** the literal in [hasPersonInSegmentation] *)
Variable coverage : Q.

Definition effectiveGender (d : detection) : string :=
  if Qltb (genderProbability d) lowConfidence then "unknown"
  else gender d.

Definition shouldBlurFace (st : settings) (d : detection) : bool :=
  if blurFaces st then true
  else
    let s := false in
    let s := if blurMen st && String.eqb (effectiveGender d) "male" then true else s in
    let s := if blurWomen st && String.eqb (effectiveGender d) "female" then true else s in
    s.

(** the [for (const detection of detections)] loop, pushing onto
    [results.faces] *)
Fixpoint pushFlagged (st : settings) (ds : list detection) (fs : list face)
  : list face :=
  match ds with
  | [] => fs
  | d :: ds' =>
      pushFlagged st ds'
        (if shouldBlurFace st d then fs ++ [face_of_box (detection_box d)] else fs)
  end.

(** step 1 of the [try] block *)
Definition detectFacesStep (st : settings) (env : detector_env) (r : results)
  : completion results :=
  if blurFaces st || blurMen st || blurWomen st then
    match detectAllFaces_withAgeAndGender env with
    | Throws => Raised r
    | Yields detections => Completed (set_faces (pushFlagged st detections (faces r)) r)
    end
  else Completed r.

(** the value of [runBodyPix], or the exception of the second detector call *)
Definition runBodyPix (env : detector_env) (r : results) : outcome bool :=
  if (0 <? length (faces r))%nat then Yields true
  else match detectAllFaces env with
       | Throws => Throws
       | Yields allFaces => Yields (length allFaces =? 0)%nat
       end.

(** step 2 of the [try] block *)
Definition bodyStep (st : settings) (env : detector_env) (r : results)
  : completion results :=
  if blurBodies st then
    match runBodyPix env r with
    | Throws => Raised r
    | Yields true => Completed (set_bodySegmentation (segmentBody env) r)
    | Yields false => Completed r
    end
  else Completed r.

(** the assignment to [results.shouldBlur] that ends the [try] block *)
Definition decideStep (r : results) : completion results :=
  Completed
    (set_shouldBlur
       ((0 <? length (faces r))%nat
        || (bool_decide (is_Some (bodySegmentation r))
            && hasPersonInSegmentation coverage (bodySegmentation r)))
       r).

Definition tryBlock (st : settings) (env : detector_env) (r : results)
  : completion results :=
  detectFacesStep st env r >>> bodyStep st env >>> decideStep.

Definition analyzeImage (isLoaded : bool) (st : settings) (env : detector_env)
  : results :=
  let results := Results [] None false (negb isLoaded) in
  if negb isLoaded then results
  else
    match tryBlock st env results with
    | Completed r => r
    | Raised r => r      (* catch (err) { } *)
    end.
End FaceApiEngine.

Module Part000.
Definition lowConfidence : Q := 0.7.
Definition coverage : Q := 0.005.
Definition hasPersonInSegmentation := hasPersonInSegmentation coverage.
Definition effectiveGender := effectiveGender lowConfidence.
Definition shouldBlurFace := shouldBlurFace lowConfidence.
Definition analyzeImage := analyzeImage lowConfidence coverage.
(** the [try] block on the freshly initialised [results] of a loaded detector *)
Definition tryBlock (st : settings) (env : detector_env) : completion results :=
  tryBlock lowConfidence coverage st env (Results [] None false false).
End Part000.

Module Part001.
Definition lowConfidence : Q := 0.6.
Definition coverage : Q := 0.005.
Definition hasPersonInSegmentation := hasPersonInSegmentation coverage.
Definition effectiveGender := effectiveGender lowConfidence.
Definition shouldBlurFace := shouldBlurFace lowConfidence.
Definition analyzeImage := analyzeImage lowConfidence coverage.
(** the [try] block on the freshly initialised [results] of a loaded detector *)
Definition tryBlock (st : settings) (env : detector_env) : completion results :=
  tryBlock lowConfidence coverage st env (Results [] None false false).
End Part001.

(** ** The BlazeFace engine ([Part002]) *)
Module Part002.
Definition coverage : Q := 0.01.
Definition hasPersonInSegmentation := hasPersonInSegmentation coverage.

Record detector_env := DetectorEnv {
  (** [this.faceModel] is set *)
  faceModel : bool;
  (** [this.faceModel.estimateFaces(img, false)]; [None] is a payload
      that is not an array ([null] or [undefined]) *)
  estimateFaces : outcome (option (list face));
  (** [this.bodyModel] is set *)
  bodyModel : bool;
  (** [this.bodyModel.segmentPerson(img, opts)], by the [internalResolution]
      and the [segmentationThreshold] of [opts] *)
  segmentPerson : string -> Q -> outcome segmentation
}.

(** [detectFaces] catches what [estimateFaces] throws. *)
Definition detectFaces (env : detector_env) : option (list face) :=
  if negb (faceModel env) then Some []
  else match estimateFaces env with
       | Yields predictions => predictions
       | Throws => Some []
       end.

(** [internalResolution: settings.performanceMode === 'fast' ? 'low' : 'medium'] *)
Definition internalResolution (st : settings) : string :=
  if String.eqb (performanceMode st) "fast" then "low" else "medium".

(** [segmentBody] catches what [segmentPerson] throws. *)
Definition segmentBody (st : settings) (env : detector_env) : option segmentation :=
  if negb (bodyModel env) then None
  else match segmentPerson env (internalResolution st) (detectionSensitivity st) with
       | Yields s => Some s
       | Throws => None
       end.

(** The [try] block.  Nothing in it throws on well-formed payloads; the
    one exception the embedding keeps is the [TypeError] of
    [results.faces.length] when [results.faces] was assigned a payload
    that is not an array (the record then keeps the previous [faces]). *)
Definition tryBlock (st : settings) (env : detector_env) (r : results)
  : completion results :=
  let predictions :=
    if blurFaces st && faceModel env then detectFaces env else Some (faces r) in
  let r := if blurBodies st && bodyModel env
           then set_bodySegmentation (segmentBody st env) r else r in
  match predictions with
  | None => Raised r
  | Some fs =>
      let r := set_faces fs r in
      Completed
        (set_shouldBlur
           ((0 <? length (faces r))%nat
            || (bool_decide (is_Some (bodySegmentation r))
                && hasPersonInSegmentation (bodySegmentation r)))
           r)
  end.

Definition analyzeImage (isLoaded : bool) (st : settings) (env : detector_env)
  : results :=
  let results := Results [] None false (negb isLoaded) in
  if negb isLoaded then set_shouldBlur true results
  else
    match tryBlock st env results with
    | Completed r => r
    | Raised r =>
        (* catch (err) { results.shouldBlur = true; results.isFallback = true; } *)
        set_isFallback true (set_shouldBlur true r)
    end.
End Part002.

(** ** Rectangle blur: the padded region of [blurRegion]

    Lines 525-535 of [blurRegion] (the same in the three files).  The
    rectangle computed here is handed as it is to [ctx.getImageData], to
    [stackBlur] and to [ctx.putImageData]; the function never looks at the
    size of the canvas. *)
Record region := Region {
  expandedX : Q;
  expandedY : Q;
  expandedWidth : Q;
  expandedHeight : Q
}.

Definition blurRegion (topLeft bottomRight : Q * Q) : region :=
  let x := fst topLeft in
  let y := snd topLeft in
  let width := (fst bottomRight - fst topLeft)%Q in
  let height := (snd bottomRight - snd topLeft)%Q in
  let padding := (Qmax width height * 0.2)%Q in
  Region (Qmax 0 (x - padding)) (Qmax 0 (y - padding))
         (width + padding * 2)%Q (height + padding * 2)%Q.

(** The right and bottom edges of a region. *)
Definition region_right (r : region) : Q := (expandedX r + expandedWidth r)%Q.
Definition region_bottom (r : region) : Q := (expandedY r + expandedHeight r)%Q.

(** The statement of the specification: the region lies in
    [[0, W) x [0, H)]. *)
Definition region_within (W H : Q) (r : region) : Prop :=
  (0 <= expandedX r /\ region_right r <= W /\
   0 <= expandedY r /\ region_bottom r <= H)%Q.

(** ** Typed arrays and accumulators *)

Definition num := option Z.

Definition nlift (f : Z -> Z -> Z) (a b : num) : num :=
  match a, b with
  | Some x, Some y => Some (f x y)
  | _, _ => None
  end.

Notation "a +? b" := (nlift Z.add a b) (at level 50, left associativity).
Notation "a -? b" := (nlift Z.sub a b) (at level 50, left associativity).
Notation "a *? b" := (nlift Z.mul a b) (at level 40, left associativity).

(** [a[i]] for an integer [i]: [undefined] outside the array. *)
Definition rd (a : list Z) (i : Z) : num :=
  if i <? 0 then None else a !! Z.to_nat i.

(** [a[p]] for a computed [p], which may be NaN. *)
Definition rdn (a : list Z) (p : num) : num :=
  match p with
  | Some i => rd a i
  | None => None
  end.

(** [Math.round(sum / div)] for [div > 0]: the nearest integer, halves
    upwards.  [div] is odd, so the quotient of two integers is never a
    half, and the floating point quotient rounds as the exact one does for
    the sums an image can produce. *)
Definition roundDiv (s d : Z) : Z := (2 * s + d) / (2 * d).

Definition nround (sum : num) (d : Z) : num :=
  match sum with
  | Some s => Some (roundDiv s d)
  | None => None
  end.

(** Conversion of a stored value by a [Uint8ClampedArray]: NaN becomes 0,
    integers are clamped to [0, 255]. *)
Definition toUint8Clamp (v : num) : Z :=
  match v with
  | Some z => Z.max 0 (Z.min 255 z)
  | None => 0
  end.

(** [a[i] = v] on a [Uint8ClampedArray]. *)
Definition wr8c (a : list Z) (i : Z) (v : num) : list Z :=
  if i <? 0 then a else <[Z.to_nat i := toUint8Clamp v]> a.

(** [a[i] = v] on a [Uint32Array], for an integer [v]. *)
Definition wr32 (a : list Z) (i : Z) (v : Z) : list Z :=
  if i <? 0 then a else <[Z.to_nat i := v mod 2 ^ 32]> a.

(** [for (i = start; ...; i++) body], run [n] times. *)
Fixpoint for_loop {St : Type} (n : nat) (i : Z) (body : Z -> St -> St) (s : St)
  : St :=
  match n with
  | O => s
  | S n' => for_loop n' (i + 1) body (body i s)
  end.

(** The three colour channels; the source repeats each statement for
    [r], [g] and [b], at byte offsets 0, 1 and 2 of a pixel. *)
Inductive channel := R | G | B.

Definition offset (c : channel) : Z :=
  match c with R => 0 | G => 1 | B => 2 end.

Record chans (A : Type) := Chans { chR : A; chG : A; chB : A }.
Arguments Chans {A} chR chG chB.
Arguments chR {A} c.
Arguments chG {A} c.
Arguments chB {A} c.

Definition chget {A} (c : channel) (t : chans A) : A :=
  match c with R => chR t | G => chG t | B => chB t end.

Definition chmap {X Y} (f : channel -> X -> Y) (t : chans X) : chans Y :=
  Chans (f R (chR t)) (f G (chG t)) (f B (chB t)).

Definition chmap2 {X Y W} (f : channel -> X -> Y -> W) (t : chans X) (u : chans Y)
  : chans W :=
  Chans (f R (chR t) (chR u)) (f G (chG t) (chG u)) (f B (chB t) (chB u)).

(** ** The two sliding-window passes of [stackBlur] (lines 604-671) *)
Section Passes.
Variables width height radius : Z.

Let wm := width - 1.
Let hm := height - 1.
Let wh := width * height.
Let div := radius + radius + 1.

(** *** Horizontal pass *)
Record hstate := HState {
  h_planes : chans (list Z);     (* r, g, b *)
  h_vmin : list Z;
  h_vmax : list Z;
  h_sums : chans num;            (* rsum, gsum, bsum *)
  h_yi : Z;
  h_yw : Z
}.

(** the loop [for (i = -radius; i <= radius; i++)] of a row *)
Definition hinit (pixels : list Z) (yi : Z) : chans num :=
  for_loop (Z.to_nat (radius + radius + 1)) (- radius)
    (fun i sums =>
       let p := (yi + Z.min wm (Z.max i 0)) * 4 in
       chmap (fun c sum => sum +? rd pixels (p + offset c)) sums)
    (Chans (Some 0) (Some 0) (Some 0)).

(** the body of [for (x = 0; x < width; x++)] *)
Definition hstep (pixels : list Z) (y x : Z) (s : hstate) : hstate :=
  let planes :=
    chmap2 (fun _ plane sum => wr8c plane (h_yi s) (nround sum div))
           (h_planes s) (h_sums s) in
  let vmin := if y =? 0 then wr32 (h_vmin s) x (Z.min (x + radius + 1) wm)
              else h_vmin s in
  let vmax := if y =? 0 then wr32 (h_vmax s) x (Z.max (x - radius) 0)
              else h_vmax s in
  let p := (Some (h_yw s) +? rd vmin x) *? Some 4 in
  let p2 := (Some (h_yw s) +? rd vmax x) *? Some 4 in
  let sums :=
    chmap (fun c sum =>
             sum +? (rdn pixels (p +? Some (offset c))
                     -? rdn pixels (p2 +? Some (offset c))))
          (h_sums s) in
  HState planes vmin vmax sums (h_yi s + 1) (h_yw s).

(** the body of [for (y = 0; y < height; y++)] *)
Definition hrow (pixels : list Z) (y : Z) (s : hstate) : hstate :=
  let s := HState (h_planes s) (h_vmin s) (h_vmax s)
                  (hinit pixels (h_yi s)) (h_yi s) (h_yw s) in
  let s := for_loop (Z.to_nat width) 0 (hstep pixels y) s in
  HState (h_planes s) (h_vmin s) (h_vmax s) (h_sums s) (h_yi s) (h_yw s + width).

Definition horizontal (pixels : list Z) (s : hstate) : hstate :=
  for_loop (Z.to_nat height) 0 (hrow pixels) s.

(** *** Vertical pass *)
Record vstate := VState {
  v_pixels : list Z;
  v_vmin : list Z;
  v_vmax : list Z;
  v_sums : chans num;
  v_yi : Z
}.

(** the loop [for (i = -radius; i <= radius; i++)] of a column; the
    state is [(yp, sums)] *)
Definition vinit (planes : chans (list Z)) (x : Z) : chans num :=
  snd
    (for_loop (Z.to_nat (radius + radius + 1)) (- radius)
       (fun i '(yp, sums) =>
          let yi := Z.max 0 yp + x in
          (yp + width, chmap2 (fun _ sum plane => sum +? rd plane yi) sums planes))
       (- radius * width, Chans (Some 0) (Some 0) (Some 0))).

(** the body of [for (y = 0; y < height; y++)] *)
Definition vstep (planes : chans (list Z)) (x y : Z) (s : vstate) : vstate :=
  let pixels := wr8c (v_pixels s) (v_yi s * 4) (nround (chR (v_sums s)) div) in
  let pixels := wr8c pixels (v_yi s * 4 + 1) (nround (chG (v_sums s)) div) in
  let pixels := wr8c pixels (v_yi s * 4 + 2) (nround (chB (v_sums s)) div) in
  let vmin := if x =? 0 then wr32 (v_vmin s) y (Z.min (y + radius + 1) hm * width)
              else v_vmin s in
  let vmax := if x =? 0 then wr32 (v_vmax s) y (Z.max (y - radius) 0 * width)
              else v_vmax s in
  let p1 := Some x +? rd vmin y in
  let p2 := Some x +? rd vmax y in
  let sums :=
    chmap2 (fun _ sum plane => sum +? (rdn plane p1 -? rdn plane p2))
           (v_sums s) planes in
  VState pixels vmin vmax sums (v_yi s + width).

(** the body of [for (x = 0; x < width; x++)] *)
Definition vcol (planes : chans (list Z)) (x : Z) (s : vstate) : vstate :=
  let s := VState (v_pixels s) (v_vmin s) (v_vmax s) (vinit planes x) x in
  for_loop (Z.to_nat height) 0 (vstep planes x) s.

Definition vertical (planes : chans (list Z)) (s : vstate) : vstate :=
  for_loop (Z.to_nat width) 0 (vcol planes) s.

(** Lines 588-599 and the two passes: the arrays [r], [g], [b] of [wh]
    zeros, the tables [vmin], [vmax] of [max(width, height)] zeros. *)
Definition stackBlur_passes (pixels : list Z) : list Z :=
  let plane := replicate (Z.to_nat wh) 0 in
  let table := replicate (Z.to_nat (Z.max width height)) 0 in
  let h := horizontal pixels
             (HState (Chans plane plane plane) table table
                     (Chans (Some 0) (Some 0) (Some 0)) 0 0) in
  let v := vertical (h_planes h)
             (VState pixels (h_vmin h) (h_vmax h) (h_sums h) (h_yi h)) in
  v_pixels v.
End Passes.

(** ** [stackBlur] as it is written

    The call mutates [pixels] in place and may throw; the result is the
    buffer after the call and how the call ended. *)
Inductive js_error := RangeError | TypeError.

Inductive ending :=
  | Returned
  | Thrown (e : js_error).

(** Line 585 floors the radius and line 586 returns when it is below 1.
    Otherwise lines 593-599 allocate the work arrays ([RangeError] on a
    negative length), and line 602, [divsum *= divsum], assigns to the
    binding that line 601 declared with [const], which throws a
    [TypeError]: the passes of lines 604-671 are not reached. *)
Definition stackBlur (pixels : list Z) (width height : Z) (radius : Q)
  : list Z * ending :=
  let radius := Qfloor radius in
  if radius <? 1 then (pixels, Returned)
  else if (width * height <? 0) || (Z.max width height <? 0)
       then (pixels, Thrown RangeError)
       else (pixels, Thrown TypeError).

(** ** Overlay bookkeeping: [blurredElements] and the page

    DOM nodes are identified by numbers.  The page keeps what
    [applyBlurredOverlay] touches: the [Map] [blurredElements], the parent
    of a node, the children of a node in document order, the class and
    background of the elements the engine created, and the blur radius in
    the [style.filter] of an element. *)
Definition node := nat.

Inductive node_kind :=
  | WrapperDiv                         (* class halal-vision-wrapper *)
  | OverlayDiv (image : option (list Z))
      (* class halal-vision-overlay; the background-image, once cssText is assigned *)
  | BadgeDiv.                          (* class halal-vision-badge *)

(** A canvas: its bytes and its origin-clean flag.  [toDataURL] throws a
    [SecurityError] on a canvas that is not origin-clean (one on which an
    image of another origin was drawn). *)
Record canvas := Canvas {
  canvas_data : list Z;
  originClean : bool
}.

Definition toDataURL (c : canvas) : outcome (list Z) :=
  if originClean c then Yields (canvas_data c) else Throws.

(** The value stored in [blurredElements]: [{ wrapper, overlay, badge }]. *)
Record record := Rec {
  rec_wrapper : node;
  rec_overlay : option node;
  rec_badge : node
}.

Record page := Page {
  blurredElements : gmap node record;
  parentElement : gmap node node;
  childNodes : gmap node (list node);
  created : gmap node node_kind;
  styleFilter : gmap node Q;
  fresh : node
}.

Definition children (pg : page) (n : node) : list node :=
  default [] (childNodes pg !! n).

(** [document.createElement('div')] with its class: a node not seen before. *)
Definition createElement (k : node_kind) (pg : page) : node * page :=
  (fresh pg,
   Page (blurredElements pg) (parentElement pg) (childNodes pg)
        (<[fresh pg := k]> (created pg)) (styleFilter pg) (S (fresh pg))).

(** [n] leaves the child list of its parent, if it has one. *)
Definition detach (n : node) (pg : page) : gmap node (list node) :=
  match parentElement pg !! n with
  | Some p => <[p := filter (fun m => m ≠ n) (children pg p)]> (childNodes pg)
  | None => childNodes pg
  end.

(** [parent.appendChild(n)] *)
Definition appendChild (parent n : node) (pg : page) : page :=
  let cs := detach n pg in
  Page (blurredElements pg) (<[n := parent]> (parentElement pg))
       (<[parent := default [] (cs !! parent) ++ [n]]> cs)
       (created pg) (styleFilter pg) (fresh pg).

Fixpoint insert_before (n ref : node) (l : list node) : list node :=
  match l with
  | [] => [n]
  | m :: l' => if bool_decide (m = ref) then n :: m :: l' else m :: insert_before n ref l'
  end.

(** [parent.insertBefore(n, ref)] *)
Definition insertBefore (parent n ref : node) (pg : page) : page :=
  let cs := detach n pg in
  Page (blurredElements pg) (<[n := parent]> (parentElement pg))
       (<[parent := insert_before n ref (default [] (cs !! parent))]> cs)
       (created pg) (styleFilter pg) (fresh pg).

Definition set_styleFilter (n : node) (px : Q) (pg : page) : page :=
  Page (blurredElements pg) (parentElement pg) (childNodes pg) (created pg)
       (<[n := px]> (styleFilter pg)) (fresh pg).

Definition set_blurredElements (n : node) (r : record) (pg : page) : page :=
  Page (<[n := r]> (blurredElements pg)) (parentElement pg) (childNodes pg)
       (created pg) (styleFilter pg) (fresh pg).

Definition is_wrapper (pg : page) (n : node) : bool :=
  match created pg !! n with
  | Some WrapperDiv => true
  | _ => false
  end.

(** lines 677-695: the wrapper of the image, created around it when its
    parent is not one already; [originalImg.parentNode.insertBefore]
    throws on an image that has no parent ([parentElement] of the page
    stands for [parentNode] as well) *)
Definition ensureWrapper (originalImg : node) (pg : page) : completion (node * page) :=
  match parentElement pg !! originalImg with
  | Some p =>
      if is_wrapper pg p then Completed (p, pg)
      else
        let '(wrapper, pg) := createElement WrapperDiv pg in
        let pg := insertBefore p wrapper originalImg pg in
        Completed (wrapper, appendChild wrapper originalImg pg)
  | None =>
      let '(wrapper, pg) := createElement WrapperDiv pg in
      Raised (wrapper, pg)
  end.

(** lines 696-717: the overlay of a canvas, or the CSS filter on the image.
    The overlay element is created first; the template of its [cssText]
    then calls [blurredCanvas.toDataURL()], and when that throws the
    function is left with the element created and not yet appended. *)
Definition makeOverlay (st : settings) (originalImg wrapper : node)
    (blurredCanvas : option canvas) (isCSSOnly : bool) (pg : page)
  : completion (option node * page) :=
  match negb isCSSOnly, blurredCanvas with
  | true, Some canvas =>
      match toDataURL canvas with
      | Yields url =>
          let '(overlay, pg) := createElement (OverlayDiv (Some url)) pg in
          Completed (Some overlay, appendChild wrapper overlay pg)
      | Throws =>
          let '(overlay, pg) := createElement (OverlayDiv None) pg in
          Raised (Some overlay, pg)
      end
  | _, _ => Completed (None, set_styleFilter originalImg (blurIntensity st) pg)
  end.

Definition applyBlurredOverlay (st : settings) (originalImg : node)
    (blurredCanvas : option canvas) (isCSSOnly : bool) (pg : page)
  : completion page :=
  if bool_decide (is_Some (blurredElements pg !! originalImg)) then Completed pg
  else
    match ensureWrapper originalImg pg with
    | Raised (_, pg) => Raised pg
    | Completed (wrapper, pg) =>
        match makeOverlay st originalImg wrapper blurredCanvas isCSSOnly pg with
        | Raised (_, pg) => Raised pg
        | Completed (overlay, pg) =>
            let '(badge, pg) := createElement BadgeDiv pg in
            let pg := appendChild wrapper badge pg in
            Completed (set_blurredElements originalImg (Rec wrapper overlay badge) pg)
        end
    end.

(** The call reaches no [toDataURL] that throws. *)
Definition encodes (blurredCanvas : option canvas) (isCSSOnly : bool) : bool :=
  match negb isCSSOnly, blurredCanvas with
  | true, Some canvas => originClean canvas
  | _, _ => true
  end.

Definition applyCSSBlur (st : settings) (element : node) (pg : page) : completion page :=
  if bool_decide (is_Some (blurredElements pg !! element)) then Completed pg
  else applyBlurredOverlay st element None true
         (set_styleFilter element (blurIntensity st) pg).

Definition is_overlay (pg : page) (n : node) : bool :=
  match created pg !! n with
  | Some (OverlayDiv _) => true
  | _ => false
  end.

(** The overlays among the children of a node. *)
Definition overlaysOf (pg : page) (n : node) : list node :=
  filter (fun m => is_overlay pg m = true) (children pg n).

(** ** The box average of the specification

    Written from the words of the specification, to be compared with the
    passes above: the window of width [2 * radius + 1] centred at a
    position, indices clamped to the valid columns (rows), the sum divided
    by the window width and rounded to the nearest integer; horizontally
    first, then vertically on the intermediate result. *)
Definition clampTo (last i : Z) : Z := Z.min last (Z.max i 0).

Fixpoint zsum (f : Z -> Z) (lo : Z) (n : nat) : Z :=
  match n with
  | O => 0
  | S n' => f lo + zsum f (lo + 1) n'
  end.

Definition boxAverage (f : Z -> Z) (last radius centre : Z) : Z :=
  roundDiv (zsum (fun j => f (clampTo last j)) (centre - radius)
                 (Z.to_nat (2 * radius + 1)))
           (2 * radius + 1).

(** channel [c] of the pixel in column [x] of row [y] *)
Definition channelAt (pixels : list Z) (width : Z) (c : channel) (x y : Z) : Z :=
  default 0 (pixels !! Z.to_nat ((y * width + x) * 4 + offset c)).

Definition naive_horizontal (pixels : list Z) (width radius : Z) (c : channel)
    (x y : Z) : Z :=
  boxAverage (fun j => channelAt pixels width c j y) (width - 1) radius x.

Definition naive_blur (pixels : list Z) (width height radius : Z) (c : channel)
    (x y : Z) : Z :=
  boxAverage (fun j => naive_horizontal pixels width radius c x j) (height - 1) radius y.

(** Two buffers hold the same bytes of channel [c] (at the indices
    [4 * j + offset c], inside or outside the buffers). *)
Definition agree_on (c : channel) (a b : list Z) : Prop :=
  forall j : Z, rd a (j * 4 + offset c) = rd b (j * 4 + offset c).

(** Two buffers hold the same alpha bytes (at the indices [4 * j + 3]). *)
Definition same_alpha (a b : list Z) : Prop :=
  forall j : Z, rd a (j * 4 + 3) = rd b (j * 4 + 3).

(** Two states of the horizontal (vertical) pass that differ at most in
    the sums, planes and bytes of the channels other than [c]. *)
Definition hrel (c : channel) (s s' : hstate) : Prop :=
  h_vmin s = h_vmin s' /\ h_vmax s = h_vmax s'
  /\ h_yi s = h_yi s' /\ h_yw s = h_yw s'
  /\ chget c (h_planes s) = chget c (h_planes s')
  /\ chget c (h_sums s) = chget c (h_sums s').

Definition vrel (c : channel) (s s' : vstate) : Prop :=
  v_vmin s = v_vmin s' /\ v_vmax s = v_vmax s' /\ v_yi s = v_yi s'
  /\ chget c (v_sums s) = chget c (v_sums s')
  /\ agree_on c (v_pixels s) (v_pixels s').

(** A frame buffer: four bytes for each of the [width * height] pixels. *)
Definition rgba_buffer (pixels : list Z) (width height : Z) : Prop :=
  Z.of_nat (length pixels) = width * height * 4
  /\ Forall (fun v => 0 <= v <= 255) pixels.

(** The window sum of the horizontal pass at column [x] of row [y]. *)
Definition hwindow (pixels : list Z) (width radius : Z) (c : channel) (x y : Z) : Z :=
  zsum (fun j => channelAt pixels width c (clampTo (width - 1) j) y)
       (x - radius) (Z.to_nat (2 * radius + 1)).

(** The window sum of the vertical pass at row [y] of column [x]. *)
Definition vwindow (pixels : list Z) (width height radius : Z) (c : channel)
    (x y : Z) : Z :=
  zsum (fun j => naive_horizontal pixels width radius c x (clampTo (height - 1) j))
       (y - radius) (Z.to_nat (2 * radius + 1)).

(** The first [n] entries of the tables [vmin] and [vmax] hold the index
    of the entering and of the leaving element of the window, clamped to
    [[0, last]] and scaled by [scale]. *)
Definition tables_done (vmin vmax : list Z) (radius last scale n : Z) : Prop :=
  forall k, 0 <= k < n ->
    rd vmin k = Some (Z.min (k + radius + 1) last * scale)
    /\ rd vmax k = Some (Z.max (k - radius) 0 * scale).

(** The state of the horizontal pass before column [x] of row [y]. *)
Definition hinv (pixels : list Z) (width height radius : Z) (y x : Z) (s : hstate)
  : Prop :=
  h_yi s = y * width + x
  /\ h_yw s = y * width
  /\ (forall c, length (chget c (h_planes s)) = Z.to_nat (width * height))
  /\ length (h_vmin s) = Z.to_nat (Z.max width height)
  /\ length (h_vmax s) = Z.to_nat (Z.max width height)
  /\ tables_done (h_vmin s) (h_vmax s) radius (width - 1) 1
                 (if y =? 0 then x else width)
  /\ (forall c, chget c (h_sums s) = Some (hwindow pixels width radius c x y))
  /\ (forall c x' y',
        0 <= x' < width -> 0 <= y' -> y' < y \/ (y' = y /\ x' < x) ->
        rd (chget c (h_planes s)) (y' * width + x')
        = Some (naive_horizontal pixels width radius c x' y')).

(** The state of the horizontal pass before row [y]. *)
Definition hinv_row (pixels : list Z) (width height radius : Z) (y : Z) (s : hstate)
  : Prop :=
  h_yi s = y * width
  /\ h_yw s = y * width
  /\ (forall c, length (chget c (h_planes s)) = Z.to_nat (width * height))
  /\ length (h_vmin s) = Z.to_nat (Z.max width height)
  /\ length (h_vmax s) = Z.to_nat (Z.max width height)
  /\ tables_done (h_vmin s) (h_vmax s) radius (width - 1) 1
                 (if y =? 0 then 0 else width)
  /\ (forall c x' y',
        0 <= x' < width -> 0 <= y' < y ->
        rd (chget c (h_planes s)) (y' * width + x')
        = Some (naive_horizontal pixels width radius c x' y')).

(** The planes [r], [g], [b] after the horizontal pass. *)
Definition planes_done (pixels : list Z) (width height radius : Z)
    (planes : chans (list Z)) : Prop :=
  forall c x y,
    0 <= x < width -> 0 <= y < height ->
    rd (chget c planes) (y * width + x)
    = Some (naive_horizontal pixels width radius c x y).

(** The state of the vertical pass before row [y] of column [x]: the
    pixels of the columns before [x], and of the rows before [y] in column
    [x], hold the box average. *)
Definition vinv (pixels : list Z) (width height radius : Z) (x y : Z) (s : vstate)
  : Prop :=
  v_yi s = y * width + x
  /\ length (v_pixels s) = length pixels
  /\ length (v_vmin s) = Z.to_nat (Z.max width height)
  /\ length (v_vmax s) = Z.to_nat (Z.max width height)
  /\ tables_done (v_vmin s) (v_vmax s) radius (height - 1) width
                 (if x =? 0 then y else height)
  /\ (forall c, chget c (v_sums s) = Some (vwindow pixels width height radius c x y))
  /\ (forall c x' y',
        0 <= x' < width -> 0 <= y' < height -> x' < x \/ (x' = x /\ y' < y) ->
        rd (v_pixels s) ((y' * width + x') * 4 + offset c)
        = Some (naive_blur pixels width height radius c x' y')).

(** The state of the vertical pass before column [x]. *)
Definition vinv_col (pixels : list Z) (width height radius : Z) (x : Z) (s : vstate)
  : Prop :=
  length (v_pixels s) = length pixels
  /\ length (v_vmin s) = Z.to_nat (Z.max width height)
  /\ length (v_vmax s) = Z.to_nat (Z.max width height)
  /\ tables_done (v_vmin s) (v_vmax s) radius (height - 1) width
                 (if x =? 0 then 0 else height)
  /\ (forall c x' y',
        0 <= x' < x -> 0 <= y' < height ->
        rd (v_pixels s) ((y' * width + x') * 4 + offset c)
        = Some (naive_blur pixels width height radius c x' y')).

(** The state of the vertical pass before row [y] of column [x] when the
    sums are NaN: the pixels stored so far hold 0 in their colour bytes. *)
Definition vzero (pixels : list Z) (width height : Z) (x y : Z) (s : vstate) : Prop :=
  v_yi s = y * width + x
  /\ length (v_pixels s) = length pixels
  /\ (forall c, chget c (v_sums s) = None)
  /\ (forall c x' y',
        0 <= x' < width -> 0 <= y' < height -> x' < x \/ (x' = x /\ y' < y) ->
        rd (v_pixels s) ((y' * width + x') * 4 + offset c) = Some 0).

(** ** The decision rules as the specification words them

    Written from the words of the specification, to be compared with the
    engine above: the confidence threshold is the setting
    [genderConfidenceThreshold], and the body mask is taken when a face was
    flagged or no face was detected at all. *)
Definition spec_effectiveGender (st : settings) (d : detection) : string :=
  if Qltb (genderProbability d) (genderConfidenceThreshold st) then "unknown"
  else gender d.

Definition spec_marked (st : settings) (d : detection) : bool :=
  blurFaces st
  || (blurMen st && String.eqb (spec_effectiveGender st d) "male")
  || (blurWomen st && String.eqb (spec_effectiveGender st d) "female").

(** [flagged] are the faces marked for redaction, [detected] the faces
    that were detected and judged. *)
Definition spec_body_mask_selected (flagged : list face) (detected : list detection)
  : bool :=
  (0 <? length flagged)%nat || (length detected =? 0)%nat.

(** The detector call of step 1 is made. *)
Definition judgesFaces (st : settings) : bool :=
  blurFaces st || blurMen st || blurWomen st.

(** ** Sample inputs *)

(** The defaults of the service worker: every policy switch on, radius 25. *)
Definition default_settings : settings :=
  Settings true true true true 25 0.7 0.005 "balanced" 0.7.

(** Only men are to be blurred, bodies included. *)
Definition men_only_settings : settings :=
  Settings false true false true 25 0.7 0.005 "balanced" 0.7.

Definition set_bodyCoverageThreshold (t : Q) (st : settings) : settings :=
  Settings (blurFaces st) (blurMen st) (blurWomen st) (blurBodies st)
           (blurIntensity st) (genderConfidenceThreshold st) t
           (performanceMode st) (detectionSensitivity st).

Definition set_genderConfidenceThreshold (t : Q) (st : settings) : settings :=
  Settings (blurFaces st) (blurMen st) (blurWomen st) (blurBodies st)
           (blurIntensity st) t (bodyCoverageThreshold st)
           (performanceMode st) (detectionSensitivity st).

Definition sample_box : box := Box 50 50 50 50.

Definition confident_woman : detection := Detection "female" 0.9 sample_box.
Definition confident_man : detection := Detection "male" 0.9 sample_box.
Definition doubtful_man : detection := Detection "male" 0.5 sample_box.

(** a man seen with a confidence between the two thresholds *)
Definition likely_man : detection := Detection "male" 0.6 sample_box.

(** Only men are to be blurred, and the caller asks for a gender-confidence
    threshold of one half. *)
Definition lenient_settings : settings :=
  Settings false true false false 25 0.5 0.005 "balanced" 0.7.

(** a mask of four pixels, two of them on a person *)
Definition half_mask : segmentation := Segmentation (Some [1; 0; 1; 0]).

(** a cycle in which one confident woman is seen by both detector calls *)
Definition woman_env : detector_env :=
  DetectorEnv (Yields [confident_woman]) (Yields [sample_box]) true (Yields half_mask).

(** a cycle in which the first detector call finds a confident woman and
    the second call, at its smaller input size, finds no face *)
Definition missed_face_env : detector_env :=
  DetectorEnv (Yields [confident_woman]) (Yields []) true (Yields half_mask).

(** a cycle in which a man is seen with a confidence of 0.6 *)
Definition likely_man_env : detector_env :=
  DetectorEnv (Yields [likely_man]) (Yields [sample_box]) true (Yields half_mask).

(** a cycle in which three faces are seen *)
Definition crowd_env : detector_env :=
  DetectorEnv (Yields [confident_woman; confident_man; doubtful_man])
              (Yields [sample_box; sample_box; sample_box]) true (Yields half_mask).

(** a cycle in which the body model throws *)
Definition failing_body_env : detector_env :=
  DetectorEnv (Yields [confident_man]) (Yields [sample_box]) true Throws.

(** a cycle in which the face detector throws *)
Definition failing_env : detector_env :=
  DetectorEnv Throws Throws true (Yields half_mask).

(** a cycle in which no face is found *)
Definition quiet_env : detector_env :=
  DetectorEnv (Yields []) (Yields []) true (Yields half_mask).

(** the same for the first engine *)
Definition failing_env2 : Part002.detector_env :=
  Part002.DetectorEnv true Throws true (fun _ _ => Throws).

(** a body model of the first engine that answers at the low resolution
    and throws otherwise *)
Definition low_only_env : Part002.detector_env :=
  Part002.DetectorEnv true (Yields (Some [])) true
    (fun resolution _ =>
       if String.eqb resolution "low" then Yields half_mask else Throws).

(** a page with one image (node 1) inside a container (node 0) *)
Definition sample_page : page :=
  Page ∅ {[1%nat := 0%nat]} {[0%nat := [1%nat]]} ∅ ∅ 2%nat.

(** a canvas of one opaque pixel *)
Definition sample_canvas : list Z := [10; 20; 30; 255].

(** the canvas as [toDataURL] can encode it, and tainted *)
Definition clean_canvas : canvas := Canvas sample_canvas true.
Definition tainted_canvas : canvas := Canvas sample_canvas false.

(** an image of two columns and three rows *)
Definition sample_pixels : list Z :=
  [0; 10; 20; 255;   90; 100; 110; 255;
   30; 40; 50; 255;  200; 210; 220; 255;
   7; 8; 9; 255;     100; 0; 100; 255].

(** the same red channel, other green and blue bytes *)
Definition sample_pixels_red : list Z :=
  [0; 1; 2; 255;   90; 3; 4; 255;
   30; 5; 6; 255;  200; 7; 8; 255;
   7; 9; 10; 255;  100; 11; 12; 255].

(** an image of two columns and one row *)
Definition row_pixels : list Z := [0; 0; 0; 255; 90; 90; 90; 255].

(** ** Body blur: the mask and the compositing loop

    [createMaskFromSegmentation] and the loop of [blurBodyRegions] (the same
    in the three files). *)

(** [a[i] = v] on a [Uint8Array], for an integer [v]. *)
Definition wr8 (a : list Z) (i v : Z) : list Z :=
  if i <? 0 then a else <[Z.to_nat i := v mod 256]> a.

(** [segmentation.data[i] > 0 ? 255 : 0] *)
Definition maskValue (d : list Z) (i : Z) : Z :=
  match rd d i with
  | Some v => if 0 <? v then 255 else 0
  | None => 0
  end.

(** [new Uint8Array(width * height)] throws a [RangeError] on a negative
    length; the loop runs over [segmentation.data], whatever the size of
    the mask. *)
Definition createMaskFromSegmentation (seg : segmentation) (width height : Z)
  : outcome (list Z) :=
  if width * height <? 0 then Throws
  else
    let mask := replicate (Z.to_nat (width * height)) 0 in
    Yields
      match data seg with
      | Some d => for_loop (length d) 0 (fun i mask => wr8 mask i (maskValue d i)) mask
      | None => mask
      end.

(** [mask[i] > 0] *)
Definition masked (mask : list Z) (i : Z) : bool :=
  match rd mask i with
  | Some m => 0 <? m
  | None => false
  end.

(** the body of [for (let i = 0; i < mask.length; i++)] in
    [blurBodyRegions]; [data] is [imageData.data] *)
Definition maskStep (mask blurredData : list Z) (i : Z) (data : list Z) : list Z :=
  if masked mask i then
    let idx := i * 4 in
    let data := wr8c data idx (rd blurredData idx) in
    let data := wr8c data (idx + 1) (rd blurredData (idx + 1)) in
    wr8c data (idx + 2) (rd blurredData (idx + 2))
  else data.

Definition compositeMask (mask blurredData data : list Z) : list Z :=
  for_loop (length mask) 0 (maskStep mask blurredData) data.

(** [blurBodyRegions] between its two canvas calls: [data] is the
    [imageData.data] that [ctx.getImageData(0, 0, width, height)] returned,
    the result is what is handed to [ctx.putImageData], or the exception
    that leaves the function before. *)
Definition blurBodyRegions (st : settings) (seg : segmentation) (width height : Z)
    (data : list Z) : list Z * ending :=
  match createMaskFromSegmentation seg width height with
  | Throws => (data, Thrown RangeError)
  | Yields mask =>
      let '(blurredData, e) := stackBlur data width height (blurIntensity st) in
      match e with
      | Thrown err => (data, Thrown err)
      | Returned => (compositeMask mask blurredData data, Returned)
      end
  end.

(** A buffer of bytes. *)
Definition bytes (a : list Z) : Prop := Forall (fun v => 0 <= v <= 255) a.

(** The state of the loop of [createMaskFromSegmentation] before entry
    [k] of [data]. *)
Definition mask_filled (d mask : list Z) (n : nat) (k : Z) : Prop :=
  length mask = n
  /\ forall i, 0 <= i < Z.of_nat n ->
       rd mask i = Some (if i <? k then maskValue d i else 0).

(** The state of the compositing loop before pixel [k]. *)
Definition composited (mask blurredData data0 : list Z) (k : Z) (data : list Z) : Prop :=
  length data = length data0
  /\ forall i o, 0 <= o < 4 ->
       rd data (i * 4 + o)
       = if masked mask i && (o <? 3) && (i <? k)
         then (fun _ => toUint8Clamp (rd blurredData (i * 4 + o))) <$> rd data0 (i * 4 + o)
         else rd data0 (i * 4 + o).

(** ** The callers of [applyBlurredOverlay]: [applyBlur], [blurImage],
    [removeAllBlurs], [processImage] *)

Inductive tag := IMG | VIDEO | OTHER.

(** [blurImage]: the [try] block draws the image on a new canvas, blurs
    regions of it (lines 503-514) and hands the canvas to
    [applyBlurredOverlay]; the [catch] falls back to [applyCSSBlur], also
    when it is [applyBlurredOverlay] that throws.  [canvasCode] is how
    lines 503-514 end: with the bytes of the canvas, or with an exception;
    [clean] is the origin-clean flag of the canvas. *)
Definition blurImage (st : settings) (clean : bool) (canvasCode : outcome (list Z))
    (img : node) (pg : page) : completion page :=
  match canvasCode with
  | Yields data =>
      match applyBlurredOverlay st img (Some (Canvas data clean)) false pg with
      | Completed pg => Completed pg
      | Raised pg => applyCSSBlur st img pg
      end
  | Throws => applyCSSBlur st img pg
  end.

(** [applyBlur]; the class [BlurEngine] has no method [blurVideo], so the
    call for a video throws a [TypeError]. *)
Definition applyBlur (st : settings) (tagName : tag) (clean : bool)
    (canvasCode : outcome (list Z)) (element : node) (detectionResults : results)
    (pg : page) : completion page :=
  if isFallback detectionResults then applyCSSBlur st element pg
  else
    match tagName with
    | IMG => blurImage st clean canvasCode element pg
    | VIDEO => Raised pg
    | OTHER => Completed pg
    end.

(** [n.remove()] *)
Definition removeNode (n : node) (pg : page) : page :=
  Page (blurredElements pg) (delete n (parentElement pg)) (detach n pg)
       (created pg) (styleFilter pg) (fresh pg).

(** an element of the page itself, not made by the engine *)
Definition is_native (pg : page) (n : node) : bool :=
  match created pg !! n with
  | None => true
  | Some _ => false
  end.

(** The first [img] element of a forest, in document order: each node
    before its descendants, these before its later siblings.  [is_img] tells
    which elements of the page itself are [img] elements; what the engine
    creates are [div]s.  Every step takes one unit of [fuel]. *)
Fixpoint find_img (is_img : node -> bool) (pg : page) (fuel : nat) (ns : list node)
  : option node :=
  match fuel with
  | O => None
  | S fuel' =>
      match ns with
      | [] => None
      | n :: ns' =>
          if is_native pg n && is_img n then Some n
          else
            match find_img is_img pg fuel' (children pg n) with
            | Some m => Some m
            | None => find_img is_img pg fuel' ns'
            end
      end
  end.

(** [wrapper.querySelector('img')]: the search among the descendants of
    the wrapper.  A step to a first child or to a next sibling takes one
    unit of fuel.  Where the child lists form a forest, the steps of one
    chain meet different nodes, all numbered below [fresh]: the fuel
    [fresh pg] is enough there. *)
Definition wrappedImg (is_img : node -> bool) (pg : page) (wrapper : node)
  : option node :=
  find_img is_img pg (fresh pg) (children pg wrapper).

(** the callback of the first [forEach] of [removeAllBlurs] *)
Definition unwrap (is_img : node -> bool) (wrapper : node) (pg : page)
  : completion page :=
  match wrappedImg is_img pg wrapper with
  | Some img =>
      match parentElement pg !! wrapper with
      | Some p => Completed (removeNode wrapper (insertBefore p img wrapper pg))
      | None => Raised pg
      end
  | None => Completed pg
  end.

Fixpoint forEach (f : node -> page -> completion page) (l : list node) (pg : page)
  : completion page :=
  match l with
  | [] => Completed pg
  | n :: l' =>
      match f n pg with
      | Completed pg => forEach f l' pg
      | Raised pg => Raised pg
      end
  end.

Definition clear_blurredElements (pg : page) : page :=
  Page ∅ (parentElement pg) (childNodes pg) (created pg) (styleFilter pg) (fresh pg).

(** [removeAllBlurs] of [part_001] and [part_002]; [wrappers] is the list
    that [document.querySelectorAll('.halal-vision-wrapper')] returns.
    The page of the embedding holds no video wrapper, so the second
    [forEach] has nothing to visit. *)
Definition removeAllBlurs (is_img : node -> bool) (wrappers : list node) (pg : page)
  : completion page :=
  match forEach (unwrap is_img) wrappers pg with
  | Completed pg => Completed (clear_blurredElements pg)
  | Raised pg => Raised pg
  end.

(** [processImage] of [part_000] and [part_001], on the [WeakSet]
    [processedElements] and the page.  [naturalWidth] and [naturalHeight]
    are those of the loaded image, [drawImage] is how [ctx.drawImage]
    ends, [results] is what [analyzeImage] returned.  [BlurEngine] has no
    method [removeBlur]: the call in the [else] branch throws a
    [TypeError].  The [catch] of [processImage] logs every exception, and
    [processedElements.add] is then skipped.  [updateStats] sends a message
    to the service worker and touches neither the set nor the page. *)
Definition processImage (st : settings) (clean : bool) (canvasCode : outcome (list Z))
    (naturalWidth naturalHeight : Z) (drawImage : outcome unit) (results : results)
    (img : node) (state : gset node * page) : gset node * page :=
  let '(processedElements, pg) := state in
  if (naturalWidth =? 0) || (naturalHeight =? 0) then state
  else
    match drawImage with
    | Throws => state
    | Yields _ =>
        if shouldBlur results then
          match applyBlur st IMG clean canvasCode img results pg with
          | Completed pg => ({[img]} ∪ processedElements, pg)
          | Raised pg => (processedElements, pg)
          end
        else state
    end.

(** [l] is what [document.querySelectorAll('.halal-vision-wrapper')]
    returns on a page whose attached elements are all in the document: the
    wrappers that have a parent, each once. *)
Definition selects_wrappers (pg : page) (l : list node) : Prop :=
  NoDup l
  /\ forall n, n ∈ l <-> is_wrapper pg n = true /\ is_Some (parentElement pg !! n).

(** The nodes of a page are numbered below [fresh], and what
    [createElement] will return has no parent and no children yet. *)
Definition page_numbered (pg : page) : Prop :=
  (forall n p, parentElement pg !! n = Some p -> (n < fresh pg)%nat /\ (p < fresh pg)%nat)
  /\ (forall n l, childNodes pg !! n = Some l ->
        (n < fresh pg)%nat /\ forall m, m ∈ l -> (m < fresh pg)%nat)
  /\ (forall n k, created pg !! n = Some k -> (n < fresh pg)%nat).

(** ** The canvas code of [blurImage] (lines 503-514)

    The overlay canvas is its bytes.  What the canvas calls of one
    [blurImage] do is given by the environment. *)
Record canvas_env := CanvasEnv {
  (** [overlayCtx.drawImage(img, 0, 0, overlay.width, overlay.height)]:
      the bytes of the canvas afterwards *)
  drawImage_overlay : outcome (list Z);
  (** [ctx.getImageData(x, y, w, h).data] on a canvas *)
  getImageData : list Z -> region -> outcome (list Z);
  (** [ctx.putImageData(imageData, x, y)] for the data of an [imageData]
      that was read from the rectangle, on a canvas *)
  putImageData : list Z -> region -> list Z -> list Z
}.

(** [new Uint8ClampedArray(n)] and [new Uint32Array(n)] take the integer
    part of [n] and throw a [RangeError] when it is negative, that is when
    [n <= -1]. *)
Definition negative_length (n : Q) : bool := Qceiling n <? 0.

(** [stackBlur] as [blurRegion] calls it: [expandedWidth] and
    [expandedHeight] need not be integers. *)
Definition stackBlur_region (pixels : list Z) (width height : Q) (radius : Q)
  : list Z * ending :=
  let radius := Qfloor radius in
  if radius <? 1 then (pixels, Returned)
  else if negative_length (width * height) || negative_length (Qmax width height)
       then (pixels, Thrown RangeError)
       else (pixels, Thrown TypeError).

(** [blurRegion] (lines 524-545) on the canvas *)
Definition blurRegion_canvas (st : settings) (env : canvas_env) (f : face)
    (canvas : list Z) : outcome (list Z) :=
  let r := blurRegion (topLeft f) (bottomRight f) in
  match getImageData env canvas r with
  | Throws => Throws
  | Yields imageData =>
      match stackBlur_region imageData (expandedWidth r) (expandedHeight r)
              (blurIntensity st) with
      | (imageData, Returned) => Yields (putImageData env imageData r canvas)
      | (_, Thrown _) => Throws
      end
  end.

(** [for (const face of results.faces) this.blurRegion(...)] *)
Fixpoint blurFaces_loop (st : settings) (env : canvas_env) (fs : list face)
    (canvas : list Z) : outcome (list Z) :=
  match fs with
  | [] => Yields canvas
  | f :: fs' =>
      match blurRegion_canvas st env f canvas with
      | Yields canvas => blurFaces_loop st env fs' canvas
      | Throws => Throws
      end
  end.

(** [blurBodyRegions] (lines 547-569) on the canvas *)
Definition blurBodyRegions_canvas (st : settings) (env : canvas_env)
    (seg : segmentation) (width height : Z) (canvas : list Z) : outcome (list Z) :=
  let full := Region 0 0 (inject_Z width) (inject_Z height) in
  match createMaskFromSegmentation seg width height with
  | Throws => Throws
  | Yields _ =>
      match getImageData env canvas full with
      | Throws => Throws
      | Yields imageData =>
          match blurBodyRegions st seg width height imageData with
          | (imageData, Returned) => Yields (putImageData env imageData full canvas)
          | (_, Thrown _) => Throws
          end
      end
  end.

(** Lines 503-514 of [blurImage]: the canvas that is handed to
    [applyBlurredOverlay], or the exception that the [catch] receives.
    [width] and [height] are [overlay.width] and [overlay.height]. *)
Definition blurImage_try (st : settings) (results : results) (env : canvas_env)
    (width height : Z) : outcome (list Z) :=
  match drawImage_overlay env with
  | Throws => Throws
  | Yields canvas =>
      match (if blurFaces st && (0 <? length (faces results))%nat
             then blurFaces_loop st env (faces results) canvas
             else Yields canvas) with
      | Throws => Throws
      | Yields canvas =>
          if blurBodies st then
            match bodySegmentation results with
            | Some seg => blurBodyRegions_canvas st env seg width height canvas
            | None => Yields canvas
            end
          else Yields canvas
      end
  end.

(** The environment is a canvas: what [getImageData] returns are bytes,
    and putting them back where they were read leaves the canvas as it
    was. *)
Definition canvas_faithful (env : canvas_env) : Prop :=
  forall canvas r imageData,
    getImageData env canvas r = Yields imageData ->
    bytes imageData /\ putImageData env imageData r canvas = canvas.

(** a canvas that reads and writes all its bytes, whatever the rectangle *)
Definition whole_canvas_env : canvas_env :=
  CanvasEnv (Yields sample_pixels)
            (fun canvas _ => if decide (bytes canvas) then Yields canvas else Throws)
            (fun imageData _ _ => imageData).

(** ** The whitelist: service worker, options page and popup

    [settings.whitelist] of the settings object that the three scripts
    pass around and store: an array of host names, or missing.  The
    functions below read and write no other field of the object. *)
Definition whitelist := option (list string).

(** [list.includes(s)] *)
Definition includes (l : list string) (s : string) : bool := bool_decide (s ∈ l).

(** [list.indexOf(s)]; [None] is [-1] *)
Fixpoint indexOf (l : list string) (s : string) : option nat :=
  match l with
  | [] => None
  | a :: l' => if bool_decide (a = s) then Some O else S <$> indexOf l' s
  end.

(** [addCurrentSiteToWhitelist] of the service worker (lines 117-132).
    [stored] is the [settings] that [chrome.storage.sync.get] returns,
    [None] when the storage holds none: reading [whitelist] of [undefined]
    and calling [includes] on a missing list throw a [TypeError].  The
    result is the stored settings afterwards and whether the message
    [siteWhitelisted] was sent to the tab. *)
Definition addCurrentSiteToWhitelist (domain : string) (stored : option whitelist)
  : outcome (option whitelist * bool) :=
  match stored with
  | Some (Some l) =>
      if includes l domain then Yields (stored, false)
      else Yields (Some (Some (l ++ [domain])), true)
  | _ => Throws
  end.

(** the case ['isWhitelisted'] of [handleMessage] (lines 183-187):
    [result.settings?.whitelist?.includes(message.domain) || false] *)
Definition isWhitelisted (domain : string) (stored : option whitelist) : bool :=
  match stored with
  | Some (Some l) => includes l domain
  | _ => false
  end.

(** the click handler of [addSiteBtn] in the options page (lines 152-162);
    [site] is the trimmed, lower-case text of the input.  The empty string
    is falsy; [settings.whitelist.includes] is called before the test
    [if (!settings.whitelist)]. *)
Definition addSite (site : string) (wl : whitelist) : outcome whitelist :=
  if bool_decide (site = EmptyString) then Yields wl
  else
    match wl with
    | None => Throws
    | Some l => if includes l site then Yields wl else Yields (Some (l ++ [site]))
    end.

(** the click handler of a remove button of the options page (lines
    108-113): [settings.whitelist.splice(index, 1)].  [renderWhitelist]
    makes the buttons only for a list that is there. *)
Definition removeSite (index : nat) (wl : whitelist) : outcome whitelist :=
  match wl with
  | None => Throws
  | Some l => Yields (Some (delete index l))
  end.

(** the click handler of [whitelistBtn] in the popup ([part_002], lines
    959-981), for the host name of the current tab *)
Definition whitelistBtn_click (domain : string) (wl : whitelist) : whitelist :=
  match wl ≫= (fun l => indexOf l domain) with
  | Some index => delete index <$> wl
  | None => Some (default [] wl ++ [domain])
  end.

(** A whitelist that names no site twice. *)
Definition wl_NoDup (wl : whitelist) : Prop :=
  match wl with
  | Some l => NoDup l
  | None => True
  end.

(** ** The context menu of the service worker *)

(** the items that [createContextMenus] creates (lines 41-67): identifier
    and contexts *)
Definition createContextMenus : list (string * list string) :=
  [("toggleHalalVision", ["all"]);
   ("addToWhitelist", ["all"]);
   ("blurThisImage", ["image"]);
   ("unblurThisImage", ["image"])].

(** what the [switch] of the [onClicked] listener starts; the last two
    cases of the [switch] send the message themselves *)
Inductive menu_action :=
  | CallToggleExtension
  | CallAddCurrentSiteToWhitelist
  | SendImageAction (action : string)
  | NoAction.

(** the [switch] of the [onClicked] listener (lines 70-91) *)
Definition onClicked (menuItemId : string) : menu_action :=
  if String.eqb menuItemId "toggleHalalVision" then CallToggleExtension
  else if String.eqb menuItemId "addToWhitelist" then CallAddCurrentSiteToWhitelist
  else if String.eqb menuItemId "blurSpecificImage"
       then SendImageAction "blurSpecificImage"
  else if String.eqb menuItemId "unblurSpecificImage"
       then SendImageAction "unblurSpecificImage"
  else NoAction.

(** the messages of [toggleExtension] (lines 94-114), as tab and action:
    [settingsUpdated] for every tab of [chrome.tabs.query], in order;
    writing [enabled] into settings that the storage does not hold throws
    before any message. *)
Definition toggleExtension (tabs : list nat) (stored : option whitelist)
  : list (nat * string) :=
  match stored with
  | Some _ => map (fun t => (t, "settingsUpdated")) tabs
  | None => []
  end.

(** The calls of [sendMessageToTab] that a click on a menu item leads to,
    as tab and action.  [tab] is the tab of the click, [domain] the host
    name of its URL, [tabs] what [chrome.tabs.query] returns, [stored] the
    settings in the storage. *)
Definition clickMessages (menuItemId : string) (tab : nat) (domain : string)
    (tabs : list nat) (stored : option whitelist) : list (nat * string) :=
  match onClicked menuItemId with
  | CallToggleExtension => toggleExtension tabs stored
  | CallAddCurrentSiteToWhitelist =>
      match addCurrentSiteToWhitelist domain stored with
      | Yields (_, true) => [(tab, "siteWhitelisted")]
      | _ => []
      end
  | SendImageAction action => [(tab, action)]
  | NoAction => []
  end.

(** ** More sample inputs *)

(** a mask of six pixels, the second and the fifth on a person *)
Definition sample_mask : segmentation := Segmentation (Some [0; 3; 0; 0; 1; 0]).

(** no blur radius to speak of *)
Definition faint_settings : settings :=
  Settings true true true true 0.5 0.7 0.005 "balanced" 0.7.

(** every policy switch off *)
Definition idle_settings : settings :=
  Settings false false false false 25 0.7 0.005 "balanced" 0.7.

(** the sample page after the CSS fallback on its image *)
Definition css_blurred_page : page :=
  match applyCSSBlur default_settings 1%nat sample_page with
  | Completed pg => pg
  | Raised pg => pg
  end.

(** a result that demands a blur and is no fallback *)
Definition flagged_results : results :=
  Results [face_of_box sample_box] None true false.

(** * Properties *)

(** ** Comparisons and the coverage test *)

Lemma Qltb_lt a b : Qltb a b = true <-> (a < b)%Q.
Proof.
  unfold Qltb. rewrite negb_true_iff, <- not_true_iff_false, Qle_bool_iff.
  split; [apply Qnot_le_lt | apply Qlt_not_le].
Qed.

Lemma Qltb_ge a b : Qltb a b = false <-> (b <= a)%Q.
Proof. unfold Qltb. rewrite negb_false_iff. apply Qle_bool_iff. Qed.

(** The test of the current engine in integers: more than one entry in
    two hundred is positive. *)
Lemma coverage_0_005 (len count : Z) :
  (inject_Z len * 0.005 < inject_Z count)%Q <-> len < 200 * count.
Proof.
  unfold Qlt, Qmult, inject_Z; cbn [Qnum Qden]. lia.
Qed.

Lemma coverage_0_01 (len count : Z) :
  (inject_Z len * 0.01 < inject_Z count)%Q <-> len < 100 * count.
Proof.
  unfold Qlt, Qmult, inject_Z; cbn [Qnum Qden]. lia.
Qed.

(** ** The face-api engines *)
Section FaceApiFacts.
Variable lowConfidence : Q.
Variable coverage : Q.

Lemma effectiveGender_cases (d : detection) :
  ((genderProbability d < lowConfidence)%Q
     /\ effectiveGender lowConfidence d = "unknown")
  \/ ((lowConfidence <= genderProbability d)%Q
     /\ effectiveGender lowConfidence d = gender d).
Proof.
  unfold effectiveGender.
  destruct (Qltb (genderProbability d) lowConfidence) eqn:E.
  - left. split; [by apply Qltb_lt | done].
  - right. split; [by apply Qltb_ge | done].
Qed.

Lemma shouldBlurFace_iff (st : settings) (d : detection) :
  shouldBlurFace lowConfidence st d = true <->
  blurFaces st = true
  \/ (blurMen st = true /\ effectiveGender lowConfidence d = "male")
  \/ (blurWomen st = true /\ effectiveGender lowConfidence d = "female").
Proof.
  unfold shouldBlurFace.
  destruct (blurFaces st); [tauto |].
  destruct (String.eqb_spec (effectiveGender lowConfidence d) "male") as [Hm | Hm];
    destruct (String.eqb_spec (effectiveGender lowConfidence d) "female") as [Hf | Hf];
    destruct (blurMen st), (blurWomen st); cbn;
    try rewrite Hm in *; try rewrite Hf in *; intuition congruence.
Qed.

Lemma shouldBlurFace_unknown (st : settings) (d : detection) :
  effectiveGender lowConfidence d = "unknown" ->
  shouldBlurFace lowConfidence st d = blurFaces st.
Proof.
  intros Hu. unfold shouldBlurFace. rewrite Hu. cbn.
  destruct (blurFaces st); [done |].
  by rewrite !andb_false_r.
Qed.

Lemma pushFlagged_filter (st : settings) (ds : list detection) (fs : list face) :
  pushFlagged lowConfidence st ds fs =
  fs ++ map (fun d => face_of_box (detection_box d))
            (List.filter (shouldBlurFace lowConfidence st) ds).
Proof.
  revert fs. induction ds as [| d ds IH]; intros fs; cbn.
  - by rewrite app_nil_r.
  - rewrite IH. destruct (shouldBlurFace lowConfidence st d); cbn; [| done].
    by rewrite <- app_assoc.
Qed.

(** What the [try] block leaves behind when it is left by an exception:
    only an awaited detector call throws, and each of them is awaited
    while [results] is still as it was initialised. *)
Lemma tryBlock_raised (st : settings) (env : detector_env) (r r' : results) :
  faces r = [] ->
  tryBlock lowConfidence coverage st env r = Raised r' -> r' = r.
Proof.
  intros Hf. unfold tryBlock, detectFacesStep.
  destruct (blurFaces st || blurMen st || blurWomen st).
  - destruct (detectAllFaces_withAgeAndGender env) as [ds |]; cbn.
    + unfold bodyStep, runBodyPix. destruct (blurBodies st); cbn; [| done].
      destruct (pushFlagged lowConfidence st ds (faces r)) eqn:Hp; cbn.
      * destruct (detectAllFaces env) as [all |]; cbn.
        -- destruct (length all =? 0)%nat; cbn; done.
        -- intros [= <-]. destruct r; cbn in *. by subst.
      * done.
    + by intros [= <-].
  - cbn. unfold bodyStep, runBodyPix. destruct (blurBodies st); cbn; [| done].
    rewrite Hf; cbn.
    destruct (detectAllFaces env) as [all |]; cbn.
    + destruct (length all =? 0)%nat; cbn; done.
    + by intros [= <-].
Qed.

Lemma analyzeImage_not_loaded (st : settings) (env : detector_env) :
  analyzeImage lowConfidence coverage false st env = Results [] None false true.
Proof. reflexivity. Qed.

Lemma analyzeImage_raised (st : settings) (env : detector_env) :
  threw (tryBlock lowConfidence coverage st env (Results [] None false false)) = true ->
  analyzeImage lowConfidence coverage true st env = Results [] None false false.
Proof.
  unfold analyzeImage; cbn [negb].
  destruct (tryBlock _ _ st env _) as [r | r] eqn:E; [done |].
  intros _. by apply tryBlock_raised in E.
Qed.

(** The decision on a cycle in which both detector calls answer. *)
Lemma analyzeImage_faces (st : settings) (env : detector_env)
    (ds : list detection) (allFaces : list box) :
  detectAllFaces_withAgeAndGender env = Yields ds ->
  detectAllFaces env = Yields allFaces ->
  faces (analyzeImage lowConfidence coverage true st env) =
  map (fun d => face_of_box (detection_box d))
      (List.filter (shouldBlurFace lowConfidence st)
         (if blurFaces st || blurMen st || blurWomen st then ds else [])).
Proof.
  intros H1 H2. unfold analyzeImage, tryBlock, detectFacesStep; cbn [negb].
  destruct (blurFaces st || blurMen st || blurWomen st); rewrite ?H1; cbn;
    rewrite ?pushFlagged_filter; cbn;
    unfold bodyStep, runBodyPix; destruct (blurBodies st); cbn; try done;
    rewrite ?H2;
    repeat match goal with
           | |- context [if ?b then _ else _] => destruct b; cbn
           end; done.
Qed.

Lemma analyzeImage_body (st : settings) (env : detector_env)
    (ds : list detection) (allFaces : list box) :
  blurBodies st = true ->
  detectAllFaces_withAgeAndGender env = Yields ds ->
  detectAllFaces env = Yields allFaces ->
  let r := analyzeImage lowConfidence coverage true st env in
  runBodyPix env r = Yields (bool_decide (faces r ≠ [] \/ allFaces = []))
  /\ bodySegmentation r =
     if bool_decide (faces r ≠ [] \/ allFaces = []) then segmentBody env else None.
Proof.
  intros Hb H1 H2 r.
  assert (Hrun : forall r0 : results,
             runBodyPix env r0 = Yields (bool_decide (faces r0 ≠ [] \/ allFaces = []))).
  { intros r0. unfold runBodyPix. rewrite H2.
    destruct (faces r0) as [| f fs], allFaces as [| b0 bs]; cbn; f_equal; symmetry;
      first [ done
            | apply bool_decide_eq_true_2; (by left) || (by right)
            | apply bool_decide_eq_false_2; intros [? | ?]; done ]. }
  split; [apply Hrun |].
  subst r. unfold analyzeImage, tryBlock; cbn [negb].
  destruct (detectFacesStep lowConfidence st env _) as [r1 | r1] eqn:E1.
  2: { unfold detectFacesStep in E1. rewrite H1 in E1.
       destruct (blurFaces st || blurMen st || blurWomen st); done. }
  cbn. unfold bodyStep. rewrite Hb, Hrun.
  assert (Hseg : bodySegmentation r1 = None).
  { unfold detectFacesStep in E1. rewrite H1 in E1.
    destruct (blurFaces st || blurMen st || blurWomen st);
      injection E1 as <-; done. }
  destruct (bool_decide (faces r1 ≠ [] \/ allFaces = [])) eqn:Hd; cbn;
    by rewrite Hd.
Qed.
End FaceApiFacts.

(** ** The decision engine: one cycle of a loaded detector *)
Section FaceApiCycle.
Variable lowConfidence : Q.
Variable coverage : Q.

Lemma shouldBlurFace_switches_off (st : settings) (d : detection) :
  judgesFaces st = false -> shouldBlurFace lowConfidence st d = false.
Proof.
  unfold judgesFaces, shouldBlurFace.
  destruct (blurFaces st), (blurMen st), (blurWomen st); done.
Qed.

Lemma filter_switches_off (st : settings) (ds : list detection) :
  judgesFaces st = false -> List.filter (shouldBlurFace lowConfidence st) ds = [].
Proof.
  intros H. induction ds as [| d ds IH]; [done |]. cbn.
  by rewrite shouldBlurFace_switches_off.
Qed.

(** Step 1, by the answer of the first detector call. *)
Lemma detectFacesStep_cases (st : settings) (env : detector_env) :
  detectFacesStep lowConfidence st env (Results [] None false false)
  = if judgesFaces st then
      match detectAllFaces_withAgeAndGender env with
      | Yields ds =>
          Completed (Results (map (fun d => face_of_box (detection_box d))
                                  (List.filter (shouldBlurFace lowConfidence st) ds))
                             None false false)
      | Throws => Raised (Results [] None false false)
      end
    else Completed (Results [] None false false).
Proof.
  unfold detectFacesStep, judgesFaces.
  destruct (blurFaces st || blurMen st || blurWomen st); [| done].
  destruct (detectAllFaces_withAgeAndGender env) as [ds |]; [| done].
  cbn. by rewrite pushFlagged_filter.
Qed.

(** The faces of the result are the detections of the first call that the
    policy flags, whatever the other calls do. *)
Lemma analyzeImage_flagged (st : settings) (env : detector_env) (ds : list detection) :
  detectAllFaces_withAgeAndGender env = Yields ds ->
  faces (analyzeImage lowConfidence coverage true st env)
  = map (fun d => face_of_box (detection_box d))
        (List.filter (shouldBlurFace lowConfidence st) ds).
Proof.
  intros H1. unfold analyzeImage, tryBlock; cbn [negb].
  rewrite detectFacesStep_cases, H1.
  destruct (judgesFaces st) eqn:Hj; cbn [andThen].
  - set (fs := map _ _).
    unfold bodyStep, runBodyPix. destruct (blurBodies st); [| done].
    cbn [faces]. destruct fs as [| f fs'] eqn:Hfs; cbn; [| done].
    destruct (detectAllFaces env) as [all |]; [| done].
    by destruct (length all =? 0)%nat.
  - rewrite filter_switches_off by done. cbn.
    unfold bodyStep, runBodyPix. destruct (blurBodies st); [| done]. cbn.
    destruct (detectAllFaces env) as [all |]; [| done].
    by destruct (length all =? 0)%nat.
Qed.

Lemma shouldBlurFace_ignores_threshold (t : Q) (st : settings) (d : detection) :
  shouldBlurFace lowConfidence (set_genderConfidenceThreshold t st) d
  = shouldBlurFace lowConfidence st d.
Proof. done. Qed.

Lemma pushFlagged_ignores_threshold (t : Q) (st : settings) (ds : list detection)
    (fs : list face) :
  pushFlagged lowConfidence (set_genderConfidenceThreshold t st) ds fs
  = pushFlagged lowConfidence st ds fs.
Proof. revert fs. induction ds as [| d ds IH]; intros fs; cbn; [done | by rewrite IH]. Qed.

Lemma analyzeImage_ignores_genderConfidenceThreshold (t : Q) (loaded : bool)
    (st : settings) (env : detector_env) :
  analyzeImage lowConfidence coverage loaded (set_genderConfidenceThreshold t st) env
  = analyzeImage lowConfidence coverage loaded st env.
Proof.
  unfold analyzeImage, tryBlock, detectFacesStep, bodyStep; cbn.
  destruct (negb loaded); [done |].
  destruct (blurFaces st || blurMen st || blurWomen st); [| done].
  destruct (detectAllFaces_withAgeAndGender env) as [ds |]; [| done].
  by rewrite pushFlagged_ignores_threshold.
Qed.

(** No step of the [try] block touches [isFallback]. *)
Lemma analyzeImage_never_fallback (st : settings) (env : detector_env) :
  isFallback (analyzeImage lowConfidence coverage true st env) = false.
Proof.
  unfold analyzeImage, tryBlock; cbn [negb].
  rewrite detectFacesStep_cases.
  destruct (judgesFaces st); [destruct (detectAllFaces_withAgeAndGender env) |];
    cbn [andThen]; try done;
    unfold bodyStep; destruct (blurBodies st); try done;
    destruct (runBodyPix env _) as [[|] |]; done.
Qed.

(** The [try] block is left by an exception exactly when the first
    detector call is made and throws, or the second one is. *)
Lemma tryBlock_threw_iff (st : settings) (env : detector_env) :
  threw (tryBlock lowConfidence coverage st env (Results [] None false false)) = true
  <-> (judgesFaces st = true /\ detectAllFaces_withAgeAndGender env = Throws)
      \/ (blurBodies st = true
          /\ detectAllFaces env = Throws
          /\ (judgesFaces st = false
              \/ exists ds, detectAllFaces_withAgeAndGender env = Yields ds
                            /\ List.filter (shouldBlurFace lowConfidence st) ds = [])).
Proof.
  unfold tryBlock. rewrite detectFacesStep_cases.
  destruct (judgesFaces st) eqn:Hj.
  - destruct (detectAllFaces_withAgeAndGender env) as [ds |] eqn:H1; cbn [andThen].
    + unfold bodyStep, runBodyPix; cbn [faces].
      destruct (blurBodies st).
      2:{ cbn. split; [done |]. intros [[_ ?] | (? & _)]; done. }
      destruct (List.filter (shouldBlurFace lowConfidence st) ds) as [| d0 l] eqn:Hf; cbn.
      * destruct (detectAllFaces env) as [all |]; cbn.
        -- destruct (length all =? 0)%nat; cbn; split; [done | | done |];
             intros [[_ ?] | (_ & ? & _)]; done.
        -- split; [| done]. intros _. right. repeat split; try done.
           right. by exists ds.
      * split; [done |]. intros [[_ ?] | (_ & _ & [? | (ds' & [= <-] & Hnil)])]; try done.
        by rewrite Hf in Hnil.
    + cbn. split; [| done]. intros _. by left.
  - cbn [andThen]. unfold bodyStep, runBodyPix; cbn.
    destruct (blurBodies st).
    2:{ cbn. split; [done |]. intros [[? _] | (? & _)]; done. }
    destruct (detectAllFaces env) as [all |]; cbn.
    + destruct (length all =? 0)%nat; cbn; split; [done | | done |];
        intros [[? _] | (_ & ? & _)]; done.
    + split; [| done]. intros _. right. repeat split; try done. by left.
Qed.

(** [segmentBody] catches what [segmentPerson] throws: the cycle goes on
    without a segmentation. *)
Lemma analyzeImage_body_model_throws (st : settings) (env : detector_env) :
  segmentPerson env = Throws ->
  bodySegmentation (analyzeImage lowConfidence coverage true st env) = None
  /\ shouldBlur (analyzeImage lowConfidence coverage true st env)
     = (0 <? length (faces (analyzeImage lowConfidence coverage true st env)))%nat.
Proof.
  intros Hs.
  assert (Hseg : segmentBody env = None).
  { unfold segmentBody. rewrite Hs. by destruct (negb (bodyModel env)). }
  assert (Hstep : forall fs,
            let r := match bodyStep st env (Results fs None false false)
                           >>> decideStep coverage with
                     | Completed r => r
                     | Raised r => r
                     end in
            bodySegmentation r = None
            /\ shouldBlur r = (0 <? length (faces r))%nat).
  { intros fs. unfold bodyStep, runBodyPix; cbn [faces].
    destruct (blurBodies st); [| cbn; by rewrite orb_false_r].
    destruct fs as [| f fs]; cbn.
    - destruct (detectAllFaces env) as [all |]; cbn; [| done].
      destruct (length all =? 0)%nat; cbn; by rewrite ?Hseg.
    - by rewrite Hseg. }
  unfold analyzeImage, tryBlock; cbn [negb].
  rewrite detectFacesStep_cases.
  destruct (judgesFaces st); [destruct (detectAllFaces_withAgeAndGender env) |];
    cbn [andThen]; try done; apply Hstep.
Qed.
End FaceApiCycle.

(** ** The first engine *)

Lemma part002_not_loaded (st : settings) (env : Part002.detector_env) :
  Part002.analyzeImage false st env = Results [] None true true.
Proof. reflexivity. Qed.

(** [analyzeImage] of the first engine reports a fallback exactly when its
    own [try] block is left by an exception. *)
Lemma part002_fallback_iff (st : settings) (env : Part002.detector_env) :
  isFallback (Part002.analyzeImage true st env) =
  threw (Part002.tryBlock st env (Results [] None false false)).
Proof.
  unfold Part002.analyzeImage; cbn [negb].
  destruct (Part002.tryBlock st env _) as [r | r] eqn:E; cbn; [| done].
  unfold Part002.tryBlock in E.
  destruct (if blurFaces st && Part002.faceModel env then _ else _); [| done].
  injection E as <-. by destruct (blurBodies st && Part002.bodyModel env).
Qed.

(** What the detector calls throw is caught by the wrappers. *)
Lemma part002_wrappers_catch (st : settings) (env : Part002.detector_env) :
  Part002.estimateFaces env ≠ Yields None ->
  threw (Part002.tryBlock st env (Results [] None false false)) = false.
Proof.
  intros Hp. unfold Part002.tryBlock, Part002.detectFaces.
  destruct (blurFaces st && Part002.faceModel env); [| done].
  destruct (Part002.faceModel env); cbn; [| done].
  destruct (Part002.estimateFaces env) as [[fs |] |]; done.
Qed.

(** ** The decision on sample cycles *)

Example confident_man_marked :
  Part000.shouldBlurFace men_only_settings confident_man = true.
Proof. reflexivity. Qed.

Example doubtful_man_not_marked :
  Part000.effectiveGender doubtful_man = "unknown"
  /\ Part000.shouldBlurFace men_only_settings doubtful_man = false.
Proof. split; reflexivity. Qed.

(** No face at all and a mask half covered: the body is to be blurred. *)
Example headless_shot :
  Part000.analyzeImage true men_only_settings quiet_env
  = Results [] (Some half_mask) true false.
Proof. reflexivity. Qed.

(** A face that the policy permits: neither face nor body is blurred. *)
Example permitted_subject :
  Part000.analyzeImage true men_only_settings woman_env
  = Results [] None false false.
Proof. reflexivity. Qed.

(** The check for any face is the second detector call: when it misses
    the face that the first call found and judged safe, the body mask is
    taken. *)
Example second_call_decides :
  Part000.analyzeImage true men_only_settings missed_face_env
  = Results [] (Some half_mask) true false.
Proof. reflexivity. Qed.

(** Every face is marked under the default settings. *)
Example default_cycle :
  Part000.analyzeImage true default_settings woman_env
  = Results [face_of_box sample_box] (Some half_mask) true false.
Proof. reflexivity. Qed.

(** ** The decision engine: the claims *)

(** C1, as amended.  When the models are not loaded, [analyzeImage] returns
    at once, whatever the settings and whatever the detector would answer,
    a result with [isFallback = true], no face and no body segmentation.
    [shouldBlur] is [true] in the first engine ([Part002]) and [false] in
    the two later engines ([Part000], [Part001]), which skip the analysis
    without asking for a redaction. *)
Theorem not_loaded_result (st : settings) (env : detector_env)
    (env2 : Part002.detector_env) :
  Part000.analyzeImage false st env = Results [] None false true
  /\ Part001.analyzeImage false st env = Results [] None false true
  /\ Part002.analyzeImage false st env2 = Results [] None true true.
Proof. repeat split. Qed.

(** C1 as stated fails in the current engine: with the default settings and
    the models not loaded the result carries [shouldBlur = false]. *)
Lemma not_loaded_no_redaction_demanded :
  ~ (isFallback (Part000.analyzeImage false default_settings quiet_env) = true
     /\ shouldBlur (Part000.analyzeImage false default_settings quiet_env) = true).
Proof. intros [_ H]. vm_compute in H. discriminate H. Qed.

(** C3, as amended.  In a cycle of the face-api engines whose first
    detector call answers, the faces of the result are the boxes of the
    detections that are marked, in their order, and a detection is marked
    exactly when [blurFaces] is on, or [blurMen] is on and its effective
    gender is male, or [blurWomen] is on and its effective gender is
    female.  The effective gender is the detected one when the confidence
    is at or above the threshold written into the engine (0.7, resp. 0.6)
    and "unknown" below it; the setting [genderConfidenceThreshold] is not
    read.  A face of unknown effective gender is marked only by
    [blurFaces]. *)
Theorem face_marked_iff (st : settings) (env : detector_env) (d : detection)
    (ds : list detection) :
  detectAllFaces_withAgeAndGender env = Yields ds ->
  (faces (Part000.analyzeImage true st env) =
     map (fun d => face_of_box (detection_box d))
         (List.filter (Part000.shouldBlurFace st) ds)
   /\ (Part000.shouldBlurFace st d = true <->
       blurFaces st = true
       \/ (blurMen st = true /\ Part000.effectiveGender d = "male")
       \/ (blurWomen st = true /\ Part000.effectiveGender d = "female"))
   /\ (((genderProbability d < 0.7)%Q /\ Part000.effectiveGender d = "unknown")
       \/ ((0.7 <= genderProbability d)%Q /\ Part000.effectiveGender d = gender d))
   /\ (Part000.effectiveGender d ≠ "unknown"
       \/ Part000.shouldBlurFace st d = blurFaces st)
   /\ (forall t, Part000.analyzeImage true (set_genderConfidenceThreshold t st) env
                 = Part000.analyzeImage true st env))
  /\ (faces (Part001.analyzeImage true st env) =
        map (fun d => face_of_box (detection_box d))
            (List.filter (Part001.shouldBlurFace st) ds)
      /\ (Part001.shouldBlurFace st d = true <->
          blurFaces st = true
          \/ (blurMen st = true /\ Part001.effectiveGender d = "male")
          \/ (blurWomen st = true /\ Part001.effectiveGender d = "female"))
      /\ (((genderProbability d < 0.6)%Q /\ Part001.effectiveGender d = "unknown")
          \/ ((0.6 <= genderProbability d)%Q /\ Part001.effectiveGender d = gender d))
      /\ (Part001.effectiveGender d ≠ "unknown"
          \/ Part001.shouldBlurFace st d = blurFaces st)
      /\ (forall t, Part001.analyzeImage true (set_genderConfidenceThreshold t st) env
                    = Part001.analyzeImage true st env)).
Proof.
  intros H1.
  assert (Hgen : forall lc cov : Q,
    faces (analyzeImage lc cov true st env) =
      map (fun d => face_of_box (detection_box d))
          (List.filter (shouldBlurFace lc st) ds)
    /\ (shouldBlurFace lc st d = true <->
        blurFaces st = true
        \/ (blurMen st = true /\ effectiveGender lc d = "male")
        \/ (blurWomen st = true /\ effectiveGender lc d = "female"))
    /\ (((genderProbability d < lc)%Q /\ effectiveGender lc d = "unknown")
        \/ ((lc <= genderProbability d)%Q /\ effectiveGender lc d = gender d))
    /\ (effectiveGender lc d ≠ "unknown" \/ shouldBlurFace lc st d = blurFaces st)
    /\ (forall t, analyzeImage lc cov true (set_genderConfidenceThreshold t st) env
                  = analyzeImage lc cov true st env)).
  { intros lc cov. split; [by apply analyzeImage_flagged |].
    split; [apply shouldBlurFace_iff |].
    split; [apply effectiveGender_cases |].
    split; [| intros t; apply analyzeImage_ignores_genderConfidenceThreshold].
    destruct (decide (effectiveGender lc d = "unknown")) as [Hu | Hu].
    - right. by apply shouldBlurFace_unknown.
    - by left. }
  split.
  - apply (Hgen Part000.lowConfidence Part000.coverage).
  - apply (Hgen Part001.lowConfidence Part001.coverage).
Qed.

(** C3 on a cycle with three faces, only men to be blurred: the confident
    man is marked, the woman and the doubtful man are not. *)
Lemma face_marked_iff_witness :
  detectAllFaces_withAgeAndGender crowd_env
  = Yields [confident_woman; confident_man; doubtful_man]
  /\ faces (Part000.analyzeImage true men_only_settings crowd_env)
     = map (fun d => face_of_box (detection_box d))
           (List.filter (Part000.shouldBlurFace men_only_settings)
              [confident_woman; confident_man; doubtful_man])
  /\ List.filter (Part000.shouldBlurFace men_only_settings)
       [confident_woman; confident_man; doubtful_man] = [confident_man].
Proof.
  split; [reflexivity |]. split; [| reflexivity].
  exact (proj1 (proj1 (face_marked_iff men_only_settings crowd_env confident_man
                         [confident_woman; confident_man; doubtful_man] eq_refl))).
Defined.

(** C3 as stated fails in the current engine: with a gender-confidence
    threshold of 0.5 in the settings and [blurMen] on, a man seen with
    confidence 0.6 is to be marked by the words of the claim, and the
    engine, which compares with 0.7, does not mark him. *)
Lemma threshold_setting_not_read :
  spec_marked lenient_settings likely_man = true
  /\ Part000.shouldBlurFace lenient_settings likely_man = false
  /\ faces (Part000.analyzeImage true lenient_settings likely_man_env) = [].
Proof. repeat split. Qed.

(** C4, as amended.  With [blurBodies] on, in a cycle of the face-api
    engines in which both detector calls answer, the body mask is requested
    ([runBodyPix]) exactly when a face was marked or the engine's second
    detector call, its check for any face ([allFaces]), found none;
    [results.bodySegmentation] is then what [segmentBody] returns, and
    stays [null] otherwise.  In particular no body mask is taken when the
    second call found a face and none was marked.  The faces that were
    judged, those of the first call, count only through the marked ones. *)
Theorem body_mask_selected_iff (st : settings) (env : detector_env)
    (ds : list detection) (allFaces : list box) :
  blurBodies st = true ->
  detectAllFaces_withAgeAndGender env = Yields ds ->
  detectAllFaces env = Yields allFaces ->
  (faces (Part000.analyzeImage true st env) =
     map (fun d => face_of_box (detection_box d))
         (List.filter (Part000.shouldBlurFace st) ds)
   /\ runBodyPix env (Part000.analyzeImage true st env) =
      Yields (bool_decide (faces (Part000.analyzeImage true st env) ≠ []
                           \/ allFaces = []))
   /\ bodySegmentation (Part000.analyzeImage true st env) =
      if bool_decide (faces (Part000.analyzeImage true st env) ≠ [] \/ allFaces = [])
      then segmentBody env else None)
  /\ (faces (Part001.analyzeImage true st env) =
        map (fun d => face_of_box (detection_box d))
            (List.filter (Part001.shouldBlurFace st) ds)
      /\ runBodyPix env (Part001.analyzeImage true st env) =
         Yields (bool_decide (faces (Part001.analyzeImage true st env) ≠ []
                              \/ allFaces = []))
      /\ bodySegmentation (Part001.analyzeImage true st env) =
         if bool_decide (faces (Part001.analyzeImage true st env) ≠ [] \/ allFaces = [])
         then segmentBody env else None).
Proof.
  intros Hb H1 H2. split.
  - split; [by apply analyzeImage_flagged |].
    apply (analyzeImage_body Part000.lowConfidence Part000.coverage st env ds allFaces);
      assumption.
  - split; [by apply analyzeImage_flagged |].
    apply (analyzeImage_body Part001.lowConfidence Part001.coverage st env ds allFaces);
      assumption.
Qed.

(** C4 on a cycle: only men are to be blurred, a confident woman is found
    by both detector calls, and no body mask is taken. *)
Lemma body_mask_selected_iff_witness :
  blurBodies men_only_settings = true
  /\ faces (Part000.analyzeImage true men_only_settings woman_env) = []
  /\ runBodyPix woman_env (Part000.analyzeImage true men_only_settings woman_env)
     = Yields false
  /\ bodySegmentation (Part000.analyzeImage true men_only_settings woman_env) = None.
Proof.
  pose proof (body_mask_selected_iff men_only_settings woman_env
                [confident_woman] [sample_box] eq_refl eq_refl eq_refl)
    as [(_ & Hrun & Hseg) _].
  split; [reflexivity |]. split; [reflexivity |].
  split; [exact Hrun | exact Hseg].
Defined.

(** C4 as stated fails in the current engine: only men are to be blurred,
    the first detector call finds a confident woman, who is judged safe,
    and the second call, at its smaller input size, finds no face.  By the
    words of the claim the body mask is not to be redacted; the engine
    takes it and demands a blur. *)
Lemma body_mask_taken_beside_safe_face :
  blurBodies men_only_settings = true
  /\ detectAllFaces_withAgeAndGender missed_face_env = Yields [confident_woman]
  /\ faces (Part000.analyzeImage true men_only_settings missed_face_env) = []
  /\ spec_body_mask_selected
       (faces (Part000.analyzeImage true men_only_settings missed_face_env))
       [confident_woman] = false
  /\ bodySegmentation (Part000.analyzeImage true men_only_settings missed_face_env)
     = Some half_mask
  /\ shouldBlur (Part000.analyzeImage true men_only_settings missed_face_env) = true.
Proof. repeat split. Qed.

(** C6, as amended.  An exception of a detector call never leaves
    [analyzeImage], and in the face-api engines it never makes the result a
    fallback.  When one of the two [detectAllFaces] calls throws, the [try]
    block is left, the [catch] is empty, and the result is the initial one
    of a loaded detector: no face, no body segmentation, [shouldBlur =
    false].  When [segmentPerson] throws, [segmentBody] catches it and
    returns [null]: the cycle goes on, the marked faces stay, there is no
    segmentation, and [shouldBlur] is set exactly when a face was marked.
    In the first engine the wrappers [detectFaces] and [segmentBody] catch
    what the detector calls throw and the cycle goes on without a fallback;
    [isFallback] is set only when the [try] block itself is left by an
    exception, and then together with [shouldBlur]. *)
Theorem detector_exception_swallowed (st : settings) (env : detector_env)
    (env2 : Part002.detector_env) :
  (isFallback (Part000.analyzeImage true st env) = false
   /\ (threw (Part000.tryBlock st env) = true <->
       (judgesFaces st = true /\ detectAllFaces_withAgeAndGender env = Throws)
       \/ (blurBodies st = true
           /\ detectAllFaces env = Throws
           /\ (judgesFaces st = false
               \/ exists ds, detectAllFaces_withAgeAndGender env = Yields ds
                             /\ List.filter (Part000.shouldBlurFace st) ds = [])))
   /\ (threw (Part000.tryBlock st env) = true ->
       Part000.analyzeImage true st env = Results [] None false false)
   /\ (segmentPerson env = Throws ->
       bodySegmentation (Part000.analyzeImage true st env) = None
       /\ shouldBlur (Part000.analyzeImage true st env)
          = (0 <? length (faces (Part000.analyzeImage true st env)))%nat))
  /\ (isFallback (Part001.analyzeImage true st env) = false
      /\ (threw (Part001.tryBlock st env) = true <->
          (judgesFaces st = true /\ detectAllFaces_withAgeAndGender env = Throws)
          \/ (blurBodies st = true
              /\ detectAllFaces env = Throws
              /\ (judgesFaces st = false
                  \/ exists ds, detectAllFaces_withAgeAndGender env = Yields ds
                                /\ List.filter (Part001.shouldBlurFace st) ds = [])))
      /\ (threw (Part001.tryBlock st env) = true ->
          Part001.analyzeImage true st env = Results [] None false false)
      /\ (segmentPerson env = Throws ->
          bodySegmentation (Part001.analyzeImage true st env) = None
          /\ shouldBlur (Part001.analyzeImage true st env)
             = (0 <? length (faces (Part001.analyzeImage true st env)))%nat))
  /\ (Part002.estimateFaces env2 ≠ Yields None ->
      isFallback (Part002.analyzeImage true st env2) = false)
  /\ (isFallback (Part002.analyzeImage true st env2) = true ->
      shouldBlur (Part002.analyzeImage true st env2) = true).
Proof.
  split.
  { split; [apply analyzeImage_never_fallback |].
    split; [apply tryBlock_threw_iff |].
    split; [apply analyzeImage_raised | apply analyzeImage_body_model_throws]. }
  split.
  { split; [apply analyzeImage_never_fallback |].
    split; [apply tryBlock_threw_iff |].
    split; [apply analyzeImage_raised | apply analyzeImage_body_model_throws]. }
  split.
  - intros Hp. rewrite part002_fallback_iff. by apply part002_wrappers_catch.
  - unfold Part002.analyzeImage; cbn [negb].
    destruct (Part002.tryBlock st env2 _) as [r | r] eqn:E; cbn; [| done].
    intros Hf. unfold Part002.tryBlock in E.
    destruct (if blurFaces st && Part002.faceModel env2 then _ else _); [| done].
    injection E as <-. by destruct (blurBodies st && Part002.bodyModel env2).
Qed.

(** C6 on cycles in which the face detector throws, and on one in which the
    body model throws. *)
Lemma detector_exception_swallowed_witness :
  threw (Part000.tryBlock default_settings failing_env) = true
  /\ Part000.analyzeImage true default_settings failing_env = Results [] None false false
  /\ segmentPerson failing_body_env = Throws
  /\ Part000.analyzeImage true default_settings failing_body_env
     = Results [face_of_box sample_box] None true false
  /\ bodySegmentation (Part000.analyzeImage true default_settings failing_body_env)
     = None
  /\ Part002.estimateFaces failing_env2 ≠ Yields None
  /\ isFallback (Part002.analyzeImage true default_settings failing_env2) = false.
Proof.
  pose proof (detector_exception_swallowed default_settings failing_env failing_env2)
    as ((_ & _ & H0 & _) & _ & H2 & _).
  pose proof (detector_exception_swallowed default_settings failing_body_env
                failing_env2) as ((_ & _ & _ & H3) & _).
  split; [reflexivity |]. split; [exact (H0 eq_refl) |].
  split; [reflexivity |]. split; [reflexivity |].
  split; [exact (proj1 (H3 eq_refl)) |].
  assert (Hne : Part002.estimateFaces failing_env2 ≠ Yields None) by discriminate.
  split; [exact Hne | exact (H2 Hne)].
Defined.

(** C6 as stated fails in the current engine: the face detector throws
    under the default settings and the result is not a fallback. *)
Lemma detector_exception_no_fallback :
  threw (Part000.tryBlock default_settings failing_env) = true
  /\ ~ (isFallback (Part000.analyzeImage true default_settings failing_env) = true
        /\ shouldBlur (Part000.analyzeImage true default_settings failing_env) = true).
Proof. split; [reflexivity |]. intros [H _]. vm_compute in H. discriminate H. Qed.

(** The thresholds of the specification's settings are not read. *)
Lemma analyzeImage_ignores_bodyCoverageThreshold (lc cov t : Q) (loaded : bool)
    (st : settings) (env : detector_env) :
  analyzeImage lc cov loaded (set_bodyCoverageThreshold t st) env =
  analyzeImage lc cov loaded st env.
Proof.
  assert (Hpush : forall ds fs,
             pushFlagged lc (set_bodyCoverageThreshold t st) ds fs
             = pushFlagged lc st ds fs).
  { induction ds as [| d ds IH]; intros fs; cbn; [done |]. by rewrite IH. }
  unfold analyzeImage, tryBlock, detectFacesStep; cbn.
  destruct loaded; cbn; [| done].
  destruct (blurFaces st || blurMen st || blurWomen st); [| done].
  destruct (detectAllFaces_withAgeAndGender env) as [ds |]; [| done].
  by rewrite Hpush.
Qed.

(** C10.  [hasPersonInSegmentation] of the face-api engines answers [false]
    for a missing segmentation and for a segmentation without [data];
    otherwise it answers [true] exactly when the number of strictly
    positive entries exceeds 0.005 times the length of [data], that is when
    more than one entry in two hundred is positive.  It takes no setting:
    the decision of [analyzeImage] is the same whatever
    [bodyCoverageThreshold] the caller supplies. *)
Theorem body_coverage_test (d : list Z) (t : Q) (loaded : bool) (st : settings)
    (env : detector_env) :
  Part000.hasPersonInSegmentation None = false
  /\ Part000.hasPersonInSegmentation (Some (Segmentation None)) = false
  /\ (Part000.hasPersonInSegmentation (Some (Segmentation (Some d))) = true <->
      (inject_Z (Z.of_nat (length d)) * 0.005
       < inject_Z (Z.of_nat (length (filter (fun val => (0 < val)%Z) d))))%Q)
  /\ (Part000.hasPersonInSegmentation (Some (Segmentation (Some d))) = true <->
      (length d < 200 * length (filter (fun val => (0 < val)%Z) d))%nat)
  /\ Part001.hasPersonInSegmentation = Part000.hasPersonInSegmentation
  /\ Part000.analyzeImage loaded (set_bodyCoverageThreshold t st) env =
     Part000.analyzeImage loaded st env
  /\ Part001.analyzeImage loaded (set_bodyCoverageThreshold t st) env =
     Part001.analyzeImage loaded st env.
Proof.
  split; [reflexivity |]. split; [reflexivity |].
  assert (HQ : Part000.hasPersonInSegmentation (Some (Segmentation (Some d))) = true <->
      (inject_Z (Z.of_nat (length d)) * 0.005
       < inject_Z (Z.of_nat (length (filter (fun val => (0 < val)%Z) d))))%Q).
  { unfold Part000.hasPersonInSegmentation, hasPersonInSegmentation; cbn [data].
    apply Qltb_lt. }
  split; [exact HQ |].
  split.
  - rewrite HQ, coverage_0_005. lia.
  - split; [reflexivity |].
    split; apply analyzeImage_ignores_bodyCoverageThreshold.
Qed.

(** ** Overlay bookkeeping *)

Lemma ensureWrapper_attached (img : node) (pg : page) :
  is_Some (parentElement pg !! img) ->
  exists w pg', ensureWrapper img pg = Completed (w, pg')
                /\ blurredElements pg' = blurredElements pg
                /\ parentElement pg' !! img = Some w
                /\ is_wrapper pg' w = true.
Proof.
  intros [p Hp]. unfold ensureWrapper. rewrite Hp.
  destruct (is_wrapper pg p) eqn:Hw.
  - by exists p, pg.
  - eexists _, _. split; [reflexivity |]. split; [done |].
    split; [cbn; by rewrite lookup_insert_eq |].
    unfold is_wrapper; cbn. by rewrite lookup_insert_eq.
Qed.

Lemma ensureWrapper_raised_untracked (img : node) (pg : page) (w : node) (pg' : page) :
  ensureWrapper img pg = Raised (w, pg') ->
  blurredElements pg' = blurredElements pg.
Proof.
  unfold ensureWrapper. destruct (parentElement pg !! img) as [p |].
  - by destruct (is_wrapper pg p).
  - by intros [= _ <-].
Qed.

(** [makeOverlay] returns exactly when no [toDataURL] throws; it changes
    neither the map nor the parents of the elements that were there, and
    makes no wrapper. *)
Lemma makeOverlay_cases (st : settings) (img w : node) (canvas : option canvas)
    (css : bool) (pg : page) :
  exists o pg',
    makeOverlay st img w canvas css pg
    = (if encodes canvas css then Completed (o, pg') else Raised (o, pg'))
    /\ blurredElements pg' = blurredElements pg
    /\ (forall n, n ≠ fresh pg -> parentElement pg' !! n = parentElement pg !! n)
    /\ (forall n, n ≠ fresh pg -> is_wrapper pg' n = is_wrapper pg n).
Proof.
  unfold makeOverlay, encodes, toDataURL.
  destruct (negb css), canvas as [c |]; try (by eexists _, _).
  destruct (originClean c); eexists _, _; (split; [reflexivity |]);
    (split; [done |]); split; intros n Hn; unfold is_wrapper; cbn;
    by rewrite ?lookup_insert_ne.
Qed.

(** A tracked element is left alone. *)
Lemma applyBlurredOverlay_tracked (st : settings) (img : node)
    (canvas : option canvas) (css : bool) (pg : page) :
  is_Some (blurredElements pg !! img) ->
  applyBlurredOverlay st img canvas css pg = Completed pg.
Proof.
  intros Ht. unfold applyBlurredOverlay. by rewrite bool_decide_eq_true_2.
Qed.

Lemma applyCSSBlur_tracked (st : settings) (img : node) (pg : page) :
  is_Some (blurredElements pg !! img) ->
  applyCSSBlur st img pg = Completed pg.
Proof.
  intros Ht. unfold applyCSSBlur. by rewrite bool_decide_eq_true_2.
Qed.

(** The first call on an attached, untracked element stores one record
    when no [toDataURL] throws. *)
Lemma applyBlurredOverlay_untracked (st : settings) (img : node)
    (canvas : option canvas) (css : bool) (pg : page) :
  is_Some (parentElement pg !! img) ->
  blurredElements pg !! img = None ->
  encodes canvas css = true ->
  exists pg1 rec,
    applyBlurredOverlay st img canvas css pg = Completed pg1
    /\ blurredElements pg1 = <[img := rec]> (blurredElements pg).
Proof.
  intros Hp Hn He. unfold applyBlurredOverlay.
  rewrite bool_decide_eq_false_2 by (rewrite Hn; by intros [? ?]).
  destruct (ensureWrapper_attached img pg Hp) as (w & pg' & -> & Hb & _).
  destruct (makeOverlay_cases st img w canvas css pg') as (o & pg2 & -> & Hb2 & _).
  rewrite He. eexists _, _. split; [reflexivity |]. cbn. by rewrite Hb2, Hb.
Qed.

(** On a canvas that is not origin-clean the call throws once the wrapper
    is in place: the element has a parent afterwards, and no record. *)
Lemma applyBlurredOverlay_tainted (st : settings) (img : node)
    (canvas : option canvas) (css : bool) (pg : page) :
  is_Some (parentElement pg !! img) ->
  blurredElements pg !! img = None ->
  encodes canvas css = false ->
  exists pg1,
    applyBlurredOverlay st img canvas css pg = Raised pg1
    /\ blurredElements pg1 = blurredElements pg
    /\ is_Some (parentElement pg1 !! img).
Proof.
  intros Hp Hn He. unfold applyBlurredOverlay.
  rewrite bool_decide_eq_false_2 by (rewrite Hn; by intros [? ?]).
  destruct (ensureWrapper_attached img pg Hp) as (w & pg' & -> & Hb & Hpw & _).
  unfold makeOverlay. unfold encodes in He.
  destruct (negb css); [| done]. destruct canvas as [c |]; [| done].
  unfold toDataURL. rewrite He. cbn.
  eexists. split; [reflexivity |]. split; [done |]. cbn. by rewrite Hpw.
Qed.

(** An exception of [applyBlurredOverlay] leaves the map as it was. *)
Lemma applyBlurredOverlay_raised (st : settings) (img : node)
    (canvas : option canvas) (css : bool) (pg pg' : page) :
  applyBlurredOverlay st img canvas css pg = Raised pg' ->
  blurredElements pg' = blurredElements pg.
Proof.
  unfold applyBlurredOverlay. case_bool_decide; [done |].
  destruct (ensureWrapper img pg) as [[w pg1] | [w pg1]] eqn:E.
  - assert (Hb : blurredElements pg1 = blurredElements pg).
    { unfold ensureWrapper in E. destruct (parentElement pg !! img) as [p |]; [| done].
      destruct (is_wrapper pg p); by injection E as <- <-. }
    destruct (makeOverlay_cases st img w canvas css pg1) as (o & pg2 & -> & Hb2 & _).
    destruct (encodes canvas css); [done |]. intros [= <-]. by rewrite Hb2.
  - intros [= <-]. by eapply ensureWrapper_raised_untracked.
Qed.

(** C9, as amended.  On an element of the page, a call of
    [applyBlurredOverlay] that reaches no throwing [toDataURL] (the element
    is tracked already, the call is CSS-only, there is no canvas, or the
    canvas is origin-clean) leaves the element tracked by one record of
    [blurredElements]: the map grows by one entry if the element was not
    tracked, and not at all if it was.  A second call for the same element,
    with any canvas, and likewise [applyCSSBlur], returns at the guard: the
    page after it, with its map, its overlays and its badges, is the page
    after the first call.  On a canvas that is not origin-clean the first
    call and the second call both throw at [toDataURL], before
    [blurredElements.set]: no record is stored. *)
Theorem applyBlurredOverlay_twice (st st' : settings) (img : node)
    (canvas canvas' : option canvas) (css css' : bool) (pg : page) :
  is_Some (parentElement pg !! img) ->
  (is_Some (blurredElements pg !! img) \/ encodes canvas css = true ->
   exists pg1 rec,
     applyBlurredOverlay st img canvas css pg = Completed pg1
     /\ blurredElements pg1 !! img = Some rec
     /\ size (blurredElements pg1) =
        (if bool_decide (is_Some (blurredElements pg !! img))
         then size (blurredElements pg) else S (size (blurredElements pg)))
     /\ applyBlurredOverlay st' img canvas' css' pg1 = Completed pg1
     /\ applyCSSBlur st' img pg1 = Completed pg1)
  /\ (blurredElements pg !! img = None -> encodes canvas css = false ->
      exists pg1 pg2,
        applyBlurredOverlay st img canvas css pg = Raised pg1
        /\ applyBlurredOverlay st' img canvas css pg1 = Raised pg2
        /\ blurredElements pg1 = blurredElements pg
        /\ blurredElements pg2 = blurredElements pg).
Proof.
  intros Hp. split.
  - intros Hret.
    destruct (blurredElements pg !! img) as [rec |] eqn:Ht.
    + exists pg, rec.
      assert (Hs : is_Some (blurredElements pg !! img)) by (rewrite Ht; eauto).
      rewrite bool_decide_eq_true_2 by (by eexists).
      rewrite !applyBlurredOverlay_tracked, applyCSSBlur_tracked by exact Hs.
      done.
    + destruct Hret as [[? ?] | He]; [done |].
      destruct (applyBlurredOverlay_untracked st img canvas css pg Hp Ht He)
        as (pg1 & rec & Hrun & Hmap).
      exists pg1, rec.
      assert (Hl : blurredElements pg1 !! img = Some rec)
        by (rewrite Hmap; apply lookup_insert_eq).
      assert (Hs : is_Some (blurredElements pg1 !! img)) by (rewrite Hl; eauto).
      rewrite bool_decide_eq_false_2 by (by intros [? ?]).
      rewrite (applyBlurredOverlay_tracked st' img canvas' css' pg1 Hs).
      rewrite (applyCSSBlur_tracked st' img pg1 Hs).
      repeat split; try done.
      rewrite Hmap. by apply map_size_insert_None.
  - intros Ht He.
    destruct (applyBlurredOverlay_tainted st img canvas css pg Hp Ht He)
      as (pg1 & H1 & Hb1 & Hp1).
    assert (Ht1 : blurredElements pg1 !! img = None) by (by rewrite Hb1).
    destruct (applyBlurredOverlay_tainted st' img canvas css pg1 Hp1 Ht1 He)
      as (pg2 & H2 & Hb2 & _).
    exists pg1, pg2. repeat split; try done. by rewrite Hb2.
Qed.

(** C9 on the sample page: the image gets one wrapper, one overlay and one
    badge, and the second call changes nothing. *)
Lemma applyBlurredOverlay_twice_witness :
  is_Some (parentElement sample_page !! 1%nat)
  /\ exists pg1 rec,
       applyBlurredOverlay default_settings 1%nat (Some clean_canvas) false sample_page
       = Completed pg1
       /\ blurredElements pg1 !! 1%nat = Some rec
       /\ applyBlurredOverlay default_settings 1%nat (Some clean_canvas) false pg1
          = Completed pg1.
Proof.
  assert (Hp : is_Some (parentElement sample_page !! 1%nat))
    by (eexists; reflexivity).
  split; [exact Hp |].
  destruct (proj1 (applyBlurredOverlay_twice default_settings default_settings 1%nat
                     (Some clean_canvas) (Some clean_canvas) false false sample_page Hp)
              (or_intror eq_refl))
    as (pg1 & rec & H1 & H2 & _ & H3 & _).
  exists pg1, rec. split; [exact H1 |]. split; [exact H2 | exact H3].
Defined.

(** C9 as stated fails on a canvas that is not origin-clean: both calls
    throw at [toDataURL], and the image of the sample page is tracked by no
    record afterwards. *)
Lemma tainted_canvas_leaves_no_record :
  exists pg1 pg2,
    applyBlurredOverlay default_settings 1%nat (Some tainted_canvas) false sample_page
    = Raised pg1
    /\ applyBlurredOverlay default_settings 1%nat (Some tainted_canvas) false pg1
       = Raised pg2
    /\ blurredElements pg2 !! 1%nat = None
    /\ size (blurredElements pg2) = 0%nat.
Proof. eexists _, _. repeat split. Qed.

(** On the sample page the wrapper (node 2) holds one overlay after the
    first call and after the second. *)
Example one_overlay_after_two_calls :
  exists pg1,
    applyBlurredOverlay default_settings 1%nat (Some clean_canvas) false sample_page
    = Completed pg1
    /\ rec_wrapper <$> blurredElements pg1 !! 1%nat = Some 2%nat
    /\ length (overlaysOf pg1 2%nat) = 1%nat
    /\ applyBlurredOverlay default_settings 1%nat (Some clean_canvas) false pg1
       = Completed pg1.
Proof. eexists. repeat split. Qed.

(** ** The padded region *)

(** C5, as amended.  The padded region of [blurRegion] has its left and top
    edges clamped at 0 and nothing else: its right edge is at least the
    right edge of the face box plus the padding, and its bottom edge at
    least the bottom edge of the box plus the padding, whatever the width
    and the height of the canvas.  Clipping on the right and at the bottom
    is left to [getImageData] and [putImageData]. *)
Theorem blurRegion_edges (topLeft bottomRight : Q * Q) :
  let width := (fst bottomRight - fst topLeft)%Q in
  let height := (snd bottomRight - snd topLeft)%Q in
  let padding := (Qmax width height * 0.2)%Q in
  let r := blurRegion topLeft bottomRight in
  (0 <= expandedX r)%Q
  /\ (0 <= expandedY r)%Q
  /\ (expandedX r == Qmax 0 (fst topLeft - padding))%Q
  /\ (expandedY r == Qmax 0 (snd topLeft - padding))%Q
  /\ (region_right r == Qmax (width + padding * 2) (fst bottomRight + padding))%Q
  /\ (region_bottom r == Qmax (height + padding * 2) (snd bottomRight + padding))%Q
  /\ (fst bottomRight + padding <= region_right r)%Q
  /\ (snd bottomRight + padding <= region_bottom r)%Q.
Proof.
  intros width height padding r.
  unfold r, blurRegion, region_right, region_bottom; cbn [expandedX expandedY
    expandedWidth expandedHeight].
  fold width height. fold padding.
  assert (Hshift : forall o e b : Q,
             (e == b - o)%Q ->
             forall p : Q, (Qmax 0 (o - p) + (e + p * 2) == Qmax (e + p * 2) (b + p))%Q).
  { intros o e b He p.
    destruct (Q.max_spec 0 (o - p)) as [[H1 ->] | [H1 ->]];
      destruct (Q.max_spec (e + p * 2) (b + p)) as [[H2 ->] | [H2 ->]]; lra. }
  assert (Hx := Hshift (fst topLeft) width (fst bottomRight) (Qeq_refl _) padding).
  assert (Hy := Hshift (snd topLeft) height (snd bottomRight) (Qeq_refl _) padding).
  split; [apply Q.le_max_l |]. split; [apply Q.le_max_l |].
  split; [reflexivity |]. split; [reflexivity |].
  split; [exact Hx |]. split; [exact Hy |].
  split.
  - rewrite Hx. apply Q.le_max_r.
  - rewrite Hy. apply Q.le_max_r.
Qed.

(** C5 as stated fails: on a canvas of 100 by 100 the face box from
    (50, 50) to (100, 100), which lies inside the canvas, is padded to the
    region from (40, 40) to (110, 110). *)
Lemma blurRegion_exceeds_canvas :
  ~ region_within 100 100 (blurRegion (50, 50)%Q (100, 100)%Q).
Proof.
  unfold region_within. intros (_ & H & _).
  vm_compute in H. apply H. reflexivity.
Qed.

(** ** Typed arrays and loops *)

Lemma length_wr8c (a : list Z) (i : Z) (v : num) : length (wr8c a i v) = length a.
Proof. unfold wr8c. destruct (i <? 0); [done | apply length_insert]. Qed.

Lemma length_wr32 (a : list Z) (i v : Z) : length (wr32 a i v) = length a.
Proof. unfold wr32. destruct (i <? 0); [done | apply length_insert]. Qed.

Lemma rd_wr8c_ne (a : list Z) (i j : Z) (v : num) :
  i ≠ j -> rd (wr8c a i v) j = rd a j.
Proof.
  intros Hne. unfold rd, wr8c.
  destruct (Z.ltb_spec j 0); [done |].
  destruct (Z.ltb_spec i 0); [done |].
  apply list_lookup_insert_ne. lia.
Qed.

Lemma rd_wr8c_eq (a : list Z) (i : Z) (v : num) :
  rd (wr8c a i v) i = (fun _ => toUint8Clamp v) <$> rd a i.
Proof.
  unfold rd, wr8c. destruct (Z.ltb_spec i 0); [done |].
  destruct (a !! Z.to_nat i) as [z |] eqn:E; cbn.
  - apply list_lookup_insert_eq. by eapply lookup_lt_Some.
  - rewrite list_insert_ge; [done |]. by apply lookup_ge_None.
Qed.

Lemma rd_wr32_ne (a : list Z) (i j v : Z) :
  i ≠ j -> rd (wr32 a i v) j = rd a j.
Proof.
  intros Hne. unfold rd, wr32.
  destruct (Z.ltb_spec j 0); [done |].
  destruct (Z.ltb_spec i 0); [done |].
  apply list_lookup_insert_ne. lia.
Qed.

Lemma rd_wr32_eq (a : list Z) (i v : Z) :
  0 <= i < Z.of_nat (length a) -> rd (wr32 a i v) i = Some (v mod 2 ^ 32).
Proof.
  intros Hi. unfold rd, wr32. destruct (Z.ltb_spec i 0); [lia |].
  apply list_lookup_insert_eq. lia.
Qed.

Lemma rd_Some_range (a : list Z) (i v : Z) :
  rd a i = Some v -> 0 <= i < Z.of_nat (length a).
Proof.
  unfold rd. destruct (Z.ltb_spec i 0) as [Hneg | Hpos]; [done |].
  intros Hl%lookup_lt_Some. lia.
Qed.

Lemma rd_replicate (n : nat) (i : Z) :
  0 <= i < Z.of_nat n -> rd (replicate n 0) i = Some 0.
Proof.
  intros Hi. unfold rd. destruct (Z.ltb_spec i 0); [lia |].
  apply lookup_replicate_2. lia.
Qed.

Lemma chget_chmap {X Y} (f : channel -> X -> Y) (t : chans X) (c : channel) :
  chget c (chmap f t) = f c (chget c t).
Proof. by destruct c. Qed.

Lemma chget_chmap2 {X Y W} (f : channel -> X -> Y -> W) (t : chans X) (u : chans Y)
    (c : channel) :
  chget c (chmap2 f t u) = f c (chget c t) (chget c u).
Proof. by destruct c. Qed.

Lemma offset_range (c : channel) : 0 <= offset c <= 2.
Proof. destruct c; cbn; lia. Qed.

(** An invariant indexed by the loop counter. *)
Lemma for_loop_ind {St : Type} (P : Z -> St -> Prop) (body : Z -> St -> St)
    (n : nat) (i : Z) (s : St) :
  P i s ->
  (forall k t, i <= k < i + Z.of_nat n -> P k t -> P (k + 1) (body k t)) ->
  P (i + Z.of_nat n) (for_loop n i body s).
Proof.
  revert i s. induction n as [| n IH]; intros i s H0 Hstep; cbn [for_loop].
  - by replace (i + Z.of_nat 0) with i by lia.
  - replace (i + Z.of_nat (S n)) with (i + 1 + Z.of_nat n) by lia.
    apply IH.
    + apply Hstep; [lia | done].
    + intros k t Hk. apply Hstep. lia.
Qed.

(** Two runs of a loop, step by step. *)
Lemma for_loop_rel {S1 S2 : Type} (Rel : S1 -> S2 -> Prop)
    (b1 : Z -> S1 -> S1) (b2 : Z -> S2 -> S2) (n : nat) (i : Z) (s1 : S1) (s2 : S2) :
  Rel s1 s2 ->
  (forall k t1 t2, Rel t1 t2 -> Rel (b1 k t1) (b2 k t2)) ->
  Rel (for_loop n i b1 s1) (for_loop n i b2 s2).
Proof.
  revert i s1 s2. induction n as [| n IH]; intros i s1 s2 H0 Hstep; cbn [for_loop].
  - done.
  - apply IH; [by apply Hstep | done].
Qed.

(** ** [stackBlur] as it is written *)

Lemma Qfloor_lt_1 (radius : Q) : Qfloor radius < 1 <-> (radius < 1)%Q.
Proof.
  split.
  - intros H. eapply Qlt_le_trans; [apply Qlt_floor |].
    change 1%Q with (inject_Z 1). rewrite <- Zle_Qle. lia.
  - intros H. destruct (Z.lt_ge_cases (Qfloor radius) 1) as [Hlt | Hge]; [done |].
    exfalso. apply (Qlt_not_le _ _ H).
    eapply Qle_trans; [| apply Qfloor_le].
    change 1%Q with (inject_Z 1). by rewrite <- Zle_Qle.
Qed.

(** The buffer is never changed by the function as it is written. *)
Lemma stackBlur_buffer (pixels : list Z) (width height : Z) (radius : Q) :
  fst (stackBlur pixels width height radius) = pixels.
Proof.
  unfold stackBlur. destruct (Qfloor radius <? 1); [done |].
  by destruct ((width * height <? 0) || (Z.max width height <? 0)).
Qed.

(** From radius 1 on the call ends in an exception. *)
Lemma stackBlur_throws (pixels : list Z) (width height : Z) (radius : Q) :
  1 <= Qfloor radius ->
  exists e, stackBlur pixels width height radius = (pixels, Thrown e).
Proof.
  intros H. unfold stackBlur. destruct (Z.ltb_spec (Qfloor radius) 1); [lia |].
  destruct ((width * height <? 0) || (Z.max width height <? 0)); eauto.
Qed.

(** C7.  A call of [stackBlur] with a radius whose floor is below 1
    returns normally and leaves the buffer as it was, byte for byte. *)
Theorem stackBlur_radius_below_1 (pixels : list Z) (width height : Z) (radius : Q) :
  Qfloor radius < 1 ->
  stackBlur pixels width height radius = (pixels, Returned).
Proof.
  intros H. unfold stackBlur. by destruct (Z.ltb_spec (Qfloor radius) 1); [| lia].
Qed.

(** C7 at radius 0, and at every radius that is not positive. *)
Lemma stackBlur_radius_below_1_witness :
  Qfloor 0 < 1
  /\ stackBlur sample_pixels 2 3 0 = (sample_pixels, Returned).
Proof.
  split; [reflexivity |].
  apply (stackBlur_radius_below_1 sample_pixels 2 3 0). reflexivity.
Defined.

Lemma stackBlur_radius_not_positive (pixels : list Z) (width height : Z) (radius : Q) :
  (radius <= 0)%Q ->
  stackBlur pixels width height radius = (pixels, Returned).
Proof.
  intros H. assert (Hf : Qfloor radius < 1).
  { apply Qfloor_lt_1. eapply Qle_lt_trans; [exact H | reflexivity]. }
  unfold stackBlur. by destruct (Z.ltb_spec (Qfloor radius) 1); [| lia].
Qed.

(** ** The passes: which bytes are written, and from which bytes *)

Lemma agree_on_wr8c_same (c : channel) (a b : list Z) (i : Z) (v : num) :
  agree_on c a b -> agree_on c (wr8c a i v) (wr8c b i v).
Proof.
  intros H j. destruct (decide (i = j * 4 + offset c)) as [-> | Hne].
  - by rewrite !rd_wr8c_eq, H.
  - by rewrite !rd_wr8c_ne.
Qed.

Lemma agree_on_wr8c_other (c : channel) (a b : list Z) (k o : Z) (v v' : num) :
  agree_on c a b -> 0 <= o < 4 -> o ≠ offset c ->
  agree_on c (wr8c a (k * 4 + o) v) (wr8c b (k * 4 + o) v').
Proof.
  intros H Ho Hne j. pose proof (offset_range c).
  rewrite !rd_wr8c_ne by lia. apply H.
Qed.

Lemma same_alpha_wr8c (a b : list Z) (k o : Z) (v : num) :
  same_alpha a b -> 0 <= o < 3 -> same_alpha (wr8c a (k * 4 + o) v) b.
Proof.
  intros H Ho j. rewrite rd_wr8c_ne by lia. apply H.
Qed.

Lemma agree_on_rdn (c : channel) (a b : list Z) (q : num) :
  agree_on c a b ->
  rdn a (q *? Some 4 +? Some (offset c)) = rdn b (q *? Some 4 +? Some (offset c)).
Proof. intros H. destruct q as [z |]; cbn; [apply H | done]. Qed.

Section PassesFrame.
Variables width height radius : Z.

(** The three stores of [vstep], in the order of the source. *)
Lemma vstep_pixels (planes : chans (list Z)) (x y : Z) (s : vstate) :
  v_pixels (vstep width height radius planes x y s) =
  wr8c (wr8c (wr8c (v_pixels s) (v_yi s * 4 + 0)
                   (nround (chR (v_sums s)) (radius + radius + 1)))
             (v_yi s * 4 + 1) (nround (chG (v_sums s)) (radius + radius + 1)))
       (v_yi s * 4 + 2) (nround (chB (v_sums s)) (radius + radius + 1)).
Proof. cbn. by rewrite Z.add_0_r. Qed.

Lemma vertical_frame (planes : chans (list Z)) (pixels : list Z) (s : vstate) :
  length (v_pixels s) = length pixels /\ same_alpha (v_pixels s) pixels ->
  length (v_pixels (vertical width height radius planes s)) = length pixels
  /\ same_alpha (v_pixels (vertical width height radius planes s)) pixels.
Proof.
  intros H0. unfold vertical.
  apply (for_loop_ind
           (fun _ t => length (v_pixels t) = length pixels
                       /\ same_alpha (v_pixels t) pixels)); [done |].
  intros x t _ Ht. unfold vcol.
  apply (for_loop_ind
           (fun _ t => length (v_pixels t) = length pixels
                       /\ same_alpha (v_pixels t) pixels)); [done |].
  intros y u _ [Hlen Ha]. rewrite vstep_pixels. split.
  - by rewrite !length_wr8c.
  - repeat apply same_alpha_wr8c; (done || lia).
Qed.

(** The alpha bytes and the length of the buffer after the two passes. *)
Lemma stackBlur_passes_alpha (pixels : list Z) :
  length (stackBlur_passes width height radius pixels) = length pixels
  /\ same_alpha (stackBlur_passes width height radius pixels) pixels.
Proof. unfold stackBlur_passes. by apply vertical_frame. Qed.

(** Two runs on buffers that agree on channel [c]. *)
Variable c : channel.
Variables pixels pixels' : list Z.
Hypothesis Hagree : agree_on c pixels pixels'.

Lemma hinit_rel (yi : Z) :
  chget c (hinit width radius pixels yi) = chget c (hinit width radius pixels' yi).
Proof.
  unfold hinit.
  apply (for_loop_rel (fun t t' : chans num => chget c t = chget c t')); [done |].
  intros i t t' Ht. rewrite !chget_chmap, Ht. f_equal. apply Hagree.
Qed.

Lemma hstep_rel (y x : Z) (s s' : hstate) :
  hrel c s s' ->
  hrel c (hstep width radius pixels y x s) (hstep width radius pixels' y x s').
Proof.
  intros (Hmin & Hmax & Hyi & Hyw & Hpl & Hsum).
  unfold hrel, hstep; cbn [h_vmin h_vmax h_yi h_yw h_planes h_sums].
  rewrite !chget_chmap, !chget_chmap2, Hmin, Hmax, Hyi, Hyw, Hpl, Hsum.
  repeat split. f_equal. f_equal; by apply agree_on_rdn.
Qed.

Lemma horizontal_rel (s s' : hstate) :
  hrel c s s' ->
  hrel c (horizontal width height radius pixels s)
       (horizontal width height radius pixels' s').
Proof.
  intros H0. unfold horizontal. apply (for_loop_rel (hrel c)); [done |].
  intros y t t' (Hmin & Hmax & Hyi & Hyw & Hpl & Hsum). unfold hrow.
  match goal with
  | |- hrel c (HState _ _ _ _ _ (h_yw ?u + _)) (HState _ _ _ _ _ (h_yw ?u' + _)) =>
      assert (Hin : hrel c u u')
  end.
  { apply (for_loop_rel (hrel c)); [| intros; by apply hstep_rel].
    unfold hrel; cbn [h_vmin h_vmax h_yi h_yw h_planes h_sums].
    rewrite Hyi. repeat split; try done. apply hinit_rel. }
  destruct Hin as (Hmin' & Hmax' & Hyi' & Hyw' & Hpl' & Hsum').
  unfold hrel; cbn [h_vmin h_vmax h_yi h_yw h_planes h_sums].
  by rewrite Hyw'.
Qed.

End PassesFrame.

Section VerticalChannel.
Variables width height radius : Z.
Variable c : channel.
Variables planes planes' : chans (list Z).
Hypothesis Hplanes : chget c planes = chget c planes'.

Lemma vinit_rel (x : Z) :
  chget c (vinit width radius planes x) = chget c (vinit width radius planes' x).
Proof.
  unfold vinit.
  apply (for_loop_rel (fun t t' : Z * chans num =>
                         fst t = fst t' /\ chget c (snd t) = chget c (snd t')));
    [done |].
  intros i [yp t] [yp' t'] [Hyp Ht]; cbn in *. subst yp'.
  split; [done |]. by rewrite !chget_chmap2, Ht, Hplanes.
Qed.

Lemma vstep_rel (x y : Z) (s s' : vstate) :
  vrel c s s' ->
  vrel c (vstep width height radius planes x y s)
       (vstep width height radius planes' x y s').
Proof.
  intros (Hmin & Hmax & Hyi & Hsum & Hpx).
  unfold vrel. rewrite !vstep_pixels.
  unfold vstep; cbn [v_vmin v_vmax v_yi v_sums].
  rewrite !chget_chmap2, Hmin, Hmax, Hyi, Hsum, Hplanes.
  repeat split.
  destruct c; cbn in Hsum; rewrite ?Hsum;
    repeat first [ apply agree_on_wr8c_same
                 | apply agree_on_wr8c_other; [| lia | cbn; lia] ];
    exact Hpx.
Qed.

Lemma vertical_rel (s s' : vstate) :
  vrel c s s' ->
  vrel c (vertical width height radius planes s)
       (vertical width height radius planes' s').
Proof.
  intros H0. unfold vertical. apply (for_loop_rel (vrel c)); [done |].
  intros x t t' (Hmin & Hmax & Hyi & Hsum & Hpx). unfold vcol.
  apply (for_loop_rel (vrel c)); [| intros; by apply vstep_rel].
  unfold vrel; cbn [v_vmin v_vmax v_yi v_sums v_pixels].
  repeat split; try done. apply vinit_rel.
Qed.
End VerticalChannel.

(** A colour channel of the result is computed from that channel alone. *)
Lemma stackBlur_passes_channel (width height radius : Z) (c : channel)
    (pixels pixels' : list Z) :
  agree_on c pixels pixels' ->
  agree_on c (stackBlur_passes width height radius pixels)
             (stackBlur_passes width height radius pixels').
Proof.
  intros Hagree. unfold stackBlur_passes.
  match goal with
  | |- agree_on c (v_pixels (vertical _ _ _ (h_planes ?h) _))
                  (v_pixels (vertical _ _ _ (h_planes ?h') _)) =>
      assert (Hh : hrel c h h')
  end.
  { apply (horizontal_rel width height radius c pixels pixels' Hagree).
    by repeat split. }
  destruct Hh as (Hmin & Hmax & Hyi & Hyw & Hpl & Hsum).
  apply (vertical_rel width height radius c _ _ Hpl).
  unfold vrel; cbn [v_vmin v_vmax v_yi v_sums v_pixels].
  repeat split; assumption.
Qed.

Lemma same_alpha_lookup (a b : list Z) :
  same_alpha a b <-> forall k : nat, a !! (4 * k + 3)%nat = b !! (4 * k + 3)%nat.
Proof.
  split.
  - intros H k. specialize (H (Z.of_nat k)). unfold rd in H.
    destruct (Z.ltb_spec (Z.of_nat k * 4 + 3) 0) as [Hneg | _]; [lia |].
    by replace (Z.to_nat (Z.of_nat k * 4 + 3)) with (4 * k + 3)%nat in H by lia.
  - intros H j. unfold rd.
    destruct (Z.ltb_spec (j * 4 + 3) 0) as [_ | Hpos]; [done |].
    replace (Z.to_nat (j * 4 + 3)) with (4 * Z.to_nat j + 3)%nat by lia.
    apply H.
Qed.

(** C8.  [stackBlur] leaves every alpha byte of the buffer as it was: the
    function as it is written changes no byte at all, and its two passes
    store only at the byte offsets 0, 1 and 2 of a pixel and keep the
    length of the buffer.  Each colour channel of the result of the passes
    is computed from the bytes of that channel alone: two buffers that
    agree on a channel give results that agree on it. *)
Theorem stackBlur_alpha_and_channels (pixels pixels' : list Z) (width height rad : Z)
    (radius : Q) (c : channel) :
  agree_on c pixels pixels' ->
  fst (stackBlur pixels width height radius) = pixels
  /\ length (stackBlur_passes width height rad pixels) = length pixels
  /\ (forall k : nat,
        stackBlur_passes width height rad pixels !! (4 * k + 3)%nat
        = pixels !! (4 * k + 3)%nat)
  /\ agree_on c (stackBlur_passes width height rad pixels)
                (stackBlur_passes width height rad pixels').
Proof.
  intros Hagree.
  destruct (stackBlur_passes_alpha width height rad pixels) as [Hlen Halpha].
  split; [apply stackBlur_buffer |]. split; [exact Hlen |].
  split; [by apply same_alpha_lookup |].
  by apply stackBlur_passes_channel.
Qed.

Lemma sample_pixels_agree_red : agree_on R sample_pixels sample_pixels_red.
Proof.
  intros j. unfold rd, offset.
  destruct (Z.ltb_spec (j * 4 + 0) 0) as [_ | Hpos]; [done |].
  destruct (Z.le_gt_cases 6 j) as [Hbig | Hsmall].
  - rewrite !lookup_ge_None_2; [done | cbn; lia | cbn; lia].
  - assert (Hj : j = 0 \/ j = 1 \/ j = 2 \/ j = 3 \/ j = 4 \/ j = 5) by lia.
    destruct Hj as [-> | [-> | [-> | [-> | [-> | ->]]]]]; reflexivity.
Qed.

(** C8 on an image of two columns and three rows, at radius 1: the alpha
    bytes stay 255 and the red bytes do not depend on green and blue. *)
Lemma stackBlur_alpha_and_channels_witness :
  agree_on R sample_pixels sample_pixels_red
  /\ length (stackBlur_passes 2 3 1 sample_pixels) = 24%nat
  /\ stackBlur_passes 2 3 1 sample_pixels !! 3%nat = Some 255
  /\ agree_on R (stackBlur_passes 2 3 1 sample_pixels)
                (stackBlur_passes 2 3 1 sample_pixels_red).
Proof.
  destruct (stackBlur_alpha_and_channels sample_pixels sample_pixels_red 2 3 1 1 R
              sample_pixels_agree_red) as (_ & Hlen & Halpha & Hch).
  split; [exact sample_pixels_agree_red |].
  split; [exact Hlen |].
  split; [exact (Halpha 0%nat) | exact Hch].
Defined.

(** ** The running sums against the box average *)

(** *** Window sums *)

Lemma zsum_snoc (g : Z -> Z) (lo : Z) (n : nat) :
  zsum g lo (S n) = zsum g lo n + g (lo + Z.of_nat n).
Proof.
  revert lo. induction n as [| n IH]; intros lo.
  - cbn [zsum]. change (Z.of_nat 0) with 0. rewrite !Z.add_0_r. lia.
  - cbn [zsum] in *. rewrite IH.
    replace (lo + 1 + Z.of_nat n) with (lo + Z.of_nat (S n)) by lia. lia.
Qed.

(** The window moved by one place: an element enters, an element leaves. *)
Lemma zsum_slide (g : Z -> Z) (lo : Z) (n : nat) :
  zsum g (lo + 1) n = zsum g lo n + g (lo + Z.of_nat n) - g lo.
Proof.
  pose proof (zsum_snoc g lo n) as Hs. cbn [zsum] in Hs. lia.
Qed.

Lemma zsum_ext (g g' : Z -> Z) (lo : Z) (n : nat) :
  (forall j, lo <= j < lo + Z.of_nat n -> g j = g' j) ->
  zsum g lo n = zsum g' lo n.
Proof.
  revert lo. induction n as [| n IH]; intros lo H; cbn [zsum]; [done |].
  rewrite (H lo) by lia. rewrite IH; [done |]. intros j Hj. apply H. lia.
Qed.

Lemma zsum_bounds (g : Z -> Z) (lo : Z) (n : nat) (a b : Z) :
  (forall j, a <= g j <= b) ->
  Z.of_nat n * a <= zsum g lo n <= Z.of_nat n * b.
Proof.
  intros H. revert lo. induction n as [| n IH]; intros lo; cbn [zsum]; [lia |].
  specialize (IH (lo + 1)). specialize (H lo). lia.
Qed.

Lemma roundDiv_byte (s d : Z) :
  0 < d -> 0 <= s <= d * 255 -> 0 <= roundDiv s d <= 255.
Proof.
  intros Hd Hs. unfold roundDiv. split.
  - apply Z.div_pos; lia.
  - apply Z.lt_succ_r. apply Z.div_lt_upper_bound; lia.
Qed.

Lemma toUint8Clamp_byte (v : Z) : 0 <= v <= 255 -> toUint8Clamp (Some v) = v.
Proof. intros H. cbn. lia. Qed.

(** The index of a pixel determines its column and its row. *)
Lemma pixel_index_inj (width x y x' y' : Z) :
  0 <= x < width -> 0 <= x' < width ->
  y * width + x = y' * width + x' -> x = x' /\ y = y'.
Proof.
  intros Hx Hx' H.
  assert (Hy : y = y') by nia. subst. lia.
Qed.

Lemma pixel_index_range (width height x y : Z) :
  0 <= x < width -> 0 <= y < height ->
  0 <= y * width + x < width * height.
Proof. intros Hx Hy. nia. Qed.

Lemma rd_in_range (a : list Z) (i : Z) :
  0 <= i < Z.of_nat (length a) -> exists v, rd a i = Some v.
Proof.
  intros Hi. unfold rd. destruct (Z.ltb_spec i 0) as [Hneg | _]; [lia |].
  apply lookup_lt_is_Some. lia.
Qed.

(** A store of a byte into a plane or a buffer, read back. *)
Lemma rd_wr8c_byte (a : list Z) (i v : Z) :
  0 <= i < Z.of_nat (length a) -> 0 <= v <= 255 ->
  rd (wr8c a i (Some v)) i = Some v.
Proof.
  intros Hi Hv. rewrite rd_wr8c_eq. destruct (rd_in_range a i Hi) as [w ->].
  cbn [fmap option_fmap option_map]. f_equal. by apply toUint8Clamp_byte.
Qed.

(** One more entry of the tables. *)
Lemma tables_done_step (vmin vmax : list Z) (radius last scale k : Z) :
  0 <= k < Z.of_nat (length vmin) -> 0 <= k < Z.of_nat (length vmax) ->
  0 <= Z.min (k + radius + 1) last * scale < 2 ^ 32 ->
  0 <= Z.max (k - radius) 0 * scale < 2 ^ 32 ->
  tables_done vmin vmax radius last scale k ->
  tables_done (wr32 vmin k (Z.min (k + radius + 1) last * scale))
              (wr32 vmax k (Z.max (k - radius) 0 * scale))
              radius last scale (k + 1).
Proof.
  intros Hk1 Hk2 Hv1 Hv2 Htab j Hj.
  destruct (decide (j = k)) as [-> | Hne].
  - rewrite !rd_wr32_eq by lia. by rewrite !Z.mod_small by lia.
  - rewrite !rd_wr32_ne by lia. apply Htab. lia.
Qed.

Lemma rd_beyond (a : list Z) (i : Z) :
  Z.of_nat (length a) <= i -> rd a i = None.
Proof.
  intros Hi. unfold rd. destruct (Z.ltb_spec i 0) as [Hneg | _]; [done |].
  apply lookup_ge_None. lia.
Qed.

Section Refinement.
Variables width height radius : Z.
Variable pixels : list Z.
Hypothesis Hwidth : 0 < width.
Hypothesis Hheight : 0 < height.
Hypothesis Hradius : 1 <= radius.
Hypothesis Hsize : width * height < 2 ^ 32.
Hypothesis Hbuffer : rgba_buffer pixels width height.

Lemma channelAt_byte (c : channel) (x y : Z) :
  0 <= channelAt pixels width c x y <= 255.
Proof.
  destruct Hbuffer as [_ Hbytes]. unfold channelAt.
  destruct (pixels !! _) as [v |] eqn:E; cbn; [| lia].
  by apply (Forall_lookup_1 _ _ _ _ Hbytes E).
Qed.

Lemma rd_pixel (c : channel) (x y : Z) :
  0 <= x < width -> 0 <= y < height ->
  rd pixels ((y * width + x) * 4 + offset c) = Some (channelAt pixels width c x y).
Proof.
  intros Hx Hy. destruct Hbuffer as [Hlen _].
  pose proof (offset_range c). pose proof (pixel_index_range width height x y Hx Hy).
  unfold rd, channelAt.
  destruct (Z.ltb_spec ((y * width + x) * 4 + offset c) 0) as [Hneg | _]; [lia |].
  destruct (pixels !! _) as [v |] eqn:E; [done |].
  apply lookup_ge_None in E. lia.
Qed.

Lemma hwindow_bounds (c : channel) (x y : Z) :
  0 <= hwindow pixels width radius c x y <= (2 * radius + 1) * 255.
Proof.
  unfold hwindow.
  pose proof (zsum_bounds
                (fun j => channelAt pixels width c (clampTo (width - 1) j) y)
                (x - radius) (Z.to_nat (2 * radius + 1)) 0 255
                (fun j => channelAt_byte c _ y)) as H.
  rewrite Z2Nat.id in H by lia. lia.
Qed.

Lemma naive_horizontal_byte (c : channel) (x y : Z) :
  0 <= naive_horizontal pixels width radius c x y <= 255.
Proof.
  unfold naive_horizontal, boxAverage. apply roundDiv_byte; [lia |].
  apply hwindow_bounds.
Qed.

Lemma vwindow_bounds (c : channel) (x y : Z) :
  0 <= vwindow pixels width height radius c x y <= (2 * radius + 1) * 255.
Proof.
  unfold vwindow.
  pose proof (zsum_bounds
                (fun j => naive_horizontal pixels width radius c x
                            (clampTo (height - 1) j))
                (y - radius) (Z.to_nat (2 * radius + 1)) 0 255
                (fun j => naive_horizontal_byte c x _)) as H.
  rewrite Z2Nat.id in H by lia. lia.
Qed.

Lemma naive_blur_byte (c : channel) (x y : Z) :
  0 <= naive_blur pixels width height radius c x y <= 255.
Proof.
  unfold naive_blur, boxAverage. apply roundDiv_byte; [lia |].
  apply vwindow_bounds.
Qed.

(** *** Horizontal pass *)

(** The first window of a row. *)
Lemma hinit_window (c : channel) (y : Z) :
  0 <= y < height ->
  chget c (hinit width radius pixels (y * width))
  = Some (hwindow pixels width radius c 0 y).
Proof.
  intros Hy. unfold hinit, hwindow.
  set (g := fun j => channelAt pixels width c (clampTo (width - 1) j) y).
  pose proof (for_loop_ind
    (fun k (t : chans num) => chget c t = Some (zsum g (- radius) (Z.to_nat (k + radius))))
    (fun i sums =>
       let p := (y * width + Z.min (width - 1) (Z.max i 0)) * 4 in
       chmap (fun c sum => sum +? rd pixels (p + offset c)) sums)
    (Z.to_nat (radius + radius + 1)) (- radius)
    (Chans (Some 0) (Some 0) (Some 0))) as Hloop.
  rewrite Z2Nat.id in Hloop by lia.
  replace (- radius + (radius + radius + 1) + radius) with (2 * radius + 1) in Hloop
    by lia.
  replace (0 - radius) with (- radius) by lia.
  apply Hloop.
  - replace (- radius + radius) with 0 by lia. by destruct c.
  - intros k t Hk Ht. cbn zeta. rewrite chget_chmap, Ht.
    rewrite rd_pixel by lia. cbn [nlift]. f_equal.
    replace (Z.to_nat (k + 1 + radius)) with (S (Z.to_nat (k + radius))) by lia.
    rewrite zsum_snoc. f_equal. unfold g, clampTo. f_equal. f_equal. lia.
Qed.

Lemma hstep_inv (y x : Z) (s : hstate) :
  0 <= y < height -> 0 <= x < width ->
  hinv pixels width height radius y x s ->
  hinv pixels width height radius y (x + 1) (hstep width radius pixels y x s).
Proof.
  intros Hy Hx (Hyi & Hyw & Hlen & Hlmin & Hlmax & Htab & Hsum & Hpl).
  assert (Hwh : width <= width * height) by nia.
  set (vmin' := if y =? 0 then wr32 (h_vmin s) x (Z.min (x + radius + 1) (width - 1))
                else h_vmin s).
  set (vmax' := if y =? 0 then wr32 (h_vmax s) x (Z.max (x - radius) 0)
                else h_vmax s).
  assert (Htab' : tables_done vmin' vmax' radius (width - 1) 1
                              (if y =? 0 then x + 1 else width)).
  { subst vmin' vmax'. destruct (y =? 0); [| done].
    pose proof (tables_done_step (h_vmin s) (h_vmax s) radius (width - 1) 1 x) as Hs.
    rewrite !Z.mul_1_r in Hs. apply Hs; try lia. done. }
  destruct (Htab' x) as [Hrmin Hrmax]; [destruct (y =? 0); lia |].
  rewrite Z.mul_1_r in Hrmin, Hrmax.
  unfold hinv, hstep; cbn [h_planes h_vmin h_vmax h_sums h_yi h_yw].
  fold vmin' vmax'.
  split; [lia |]. split; [done |].
  split; [intros c; by rewrite chget_chmap2, length_wr8c |].
  split; [subst vmin'; destruct (y =? 0); by rewrite ?length_wr32 |].
  split; [subst vmax'; destruct (y =? 0); by rewrite ?length_wr32 |].
  split; [exact Htab' |].
  split.
  - intros c. rewrite chget_chmap, Hsum, Hrmin, Hrmax, Hyw. cbn [nlift rdn].
    rewrite !rd_pixel by lia. cbn [nlift]. f_equal.
    unfold hwindow.
    replace (x + 1 - radius) with (x - radius + 1) by lia.
    rewrite zsum_slide, Z2Nat.id by lia. unfold clampTo.
    replace (x - radius + (2 * radius + 1)) with (x + radius + 1) by lia.
    replace (Z.min (width - 1) (Z.max (x + radius + 1) 0))
      with (Z.min (x + radius + 1) (width - 1)) by lia.
    replace (Z.min (width - 1) (Z.max (x - radius) 0))
      with (Z.max (x - radius) 0) by lia.
    lia.
  - intros c x' y' Hx' Hy' Hbefore. rewrite chget_chmap2, Hsum, Hyi.
    cbn [nround].
    destruct (decide (y' * width + x' = y * width + x)) as [Heq | Hne].
    + destruct (pixel_index_inj width x' y' x y Hx' Hx Heq) as [-> ->].
      rewrite rd_wr8c_byte.
      * f_equal. unfold naive_horizontal, boxAverage, hwindow.
        by replace (radius + radius + 1) with (2 * radius + 1) by lia.
      * rewrite Hlen. pose proof (pixel_index_range width height x y Hx Hy). lia.
      * apply roundDiv_byte; [lia |].
        replace (radius + radius + 1) with (2 * radius + 1) by lia.
        apply hwindow_bounds.
    + rewrite rd_wr8c_ne by lia. apply Hpl; [done | done |]. lia.
Qed.

(** A row of the horizontal pass. *)
Lemma hrow_inv (y : Z) (s : hstate) :
  0 <= y < height ->
  hinv_row pixels width height radius y s ->
  hinv_row pixels width height radius (y + 1) (hrow width radius pixels y s).
Proof.
  intros Hy (Hyi & Hyw & Hlen & Hlmin & Hlmax & Htab & Hpl).
  unfold hrow.
  pose proof (for_loop_ind
    (fun x t => hinv pixels width height radius y x t)
    (hstep width radius pixels y) (Z.to_nat width) 0
    (HState (h_planes s) (h_vmin s) (h_vmax s) (hinit width radius pixels (h_yi s))
            (h_yi s) (h_yw s))) as Hloop.
  rewrite Z2Nat.id in Hloop by lia. cbn [Z.add] in Hloop.
  destruct Hloop as (Hyi' & Hyw' & Hlen' & Hlmin' & Hlmax' & Htab' & _ & Hpl').
  - unfold hinv; cbn [h_planes h_vmin h_vmax h_sums h_yi h_yw].
    split; [lia |]. split; [done |]. split; [done |]. split; [done |].
    split; [done |]. split; [done |].
    split.
    + intros c. rewrite Hyi. by apply hinit_window.
    + intros c x' y' Hx' Hy' Hbefore. apply Hpl; [done | lia].
  - intros x t Hx Ht. apply hstep_inv; [done | lia | done].
  - unfold hinv_row; cbn [h_planes h_vmin h_vmax h_sums h_yi h_yw].
    split; [lia |]. split; [lia |]. split; [done |]. split; [done |].
    split; [done |].
    split.
    + destruct (Z.eqb_spec (y + 1) 0) as [Hz | _]; [lia |].
      by destruct (y =? 0).
    + intros c x' y' Hx' Hy'. apply Hpl'; [done | lia | lia].
Qed.

(** The planes after the horizontal pass hold the horizontal box average,
    and the state keeps the sizes of the tables. *)
Lemma horizontal_planes (s : hstate) :
  hinv_row pixels width height radius 0 s ->
  planes_done pixels width height radius
    (h_planes (horizontal width height radius pixels s))
  /\ (forall c, length (chget c (h_planes (horizontal width height radius pixels s)))
                = Z.to_nat (width * height))
  /\ length (h_vmin (horizontal width height radius pixels s))
     = Z.to_nat (Z.max width height)
  /\ length (h_vmax (horizontal width height radius pixels s))
     = Z.to_nat (Z.max width height).
Proof.
  intros H0. unfold horizontal.
  pose proof (for_loop_ind
    (fun y t => hinv_row pixels width height radius y t)
    (hrow width radius pixels) (Z.to_nat height) 0 s H0) as Hloop.
  rewrite Z2Nat.id in Hloop by lia. cbn [Z.add] in Hloop.
  destruct Hloop as (_ & _ & Hlen & Hlmin & Hlmax & _ & Hpl).
  - intros y t Hy Ht. apply hrow_inv; [lia | done].
  - split; [| done]. intros c x y Hx Hy. by apply Hpl.
Qed.

(** The state the passes start from. *)
Lemma hinv_row_start :
  hinv_row pixels width height radius 0
    (HState (Chans (replicate (Z.to_nat (width * height)) 0)
                   (replicate (Z.to_nat (width * height)) 0)
                   (replicate (Z.to_nat (width * height)) 0))
            (replicate (Z.to_nat (Z.max width height)) 0)
            (replicate (Z.to_nat (Z.max width height)) 0)
            (Chans (Some 0) (Some 0) (Some 0)) 0 0).
Proof.
  unfold hinv_row; cbn [h_planes h_vmin h_vmax h_sums h_yi h_yw].
  split; [lia |]. split; [lia |].
  split; [intros c'; destruct c'; apply length_replicate |].
  split; [apply length_replicate |]. split; [apply length_replicate |].
  split; [intros k Hk; cbn in Hk; lia |].
  intros c' x' y' Hx' Hy'. lia.
Qed.

(** *** Vertical pass, for a radius below the height *)
Section Vertical.
Hypothesis Hbelow : radius < height.
Variable planes : chans (list Z).
Hypothesis Hplanes : planes_done pixels width height radius planes.

(** The first window of a column: the rows [-radius .. radius], of which
    the negative ones are clamped to row 0. *)
Lemma vinit_window (c : channel) (x : Z) :
  0 <= x < width ->
  chget c (vinit width radius planes x)
  = Some (vwindow pixels width height radius c x 0).
Proof.
  intros Hx. unfold vinit, vwindow.
  set (g := fun c j => naive_horizontal pixels width radius c x (clampTo (height - 1) j)).
  pose proof (for_loop_ind
    (fun k (t : Z * chans num) =>
       fst t = k * width
       /\ forall c, chget c (snd t) = Some (zsum (g c) (- radius) (Z.to_nat (k + radius))))
    (fun i '(yp, sums) =>
       let yi := Z.max 0 yp + x in
       (yp + width, chmap2 (fun _ sum plane => sum +? rd plane yi) sums planes))
    (Z.to_nat (radius + radius + 1)) (- radius)
    (- radius * width, Chans (Some 0) (Some 0) (Some 0))) as Hloop.
  rewrite Z2Nat.id in Hloop by lia.
  replace (- radius + (radius + radius + 1) + radius) with (2 * radius + 1) in Hloop
    by lia.
  replace (0 - radius) with (- radius) by lia.
  apply Hloop.
  - cbn [fst snd]. split; [done |]. intros c'.
    replace (- radius + radius) with 0 by lia. by destruct c'.
  - intros k [yp t] Hk [Hyp Ht]; cbn [fst snd] in *. subst yp.
    split; [lia |]. intros c'. rewrite chget_chmap2, Ht.
    replace (Z.max 0 (k * width) + x) with (clampTo (height - 1) k * width + x)
      by (unfold clampTo; nia).
    rewrite Hplanes by (unfold clampTo; lia). cbn [nlift]. f_equal.
    replace (Z.to_nat (k + 1 + radius)) with (S (Z.to_nat (k + radius))) by lia.
    rewrite zsum_snoc. f_equal. unfold g. f_equal. f_equal. lia.
Qed.

Lemma vstep_inv (x y : Z) (s : vstate) :
  0 <= x < width -> 0 <= y < height ->
  vinv pixels width height radius x y s ->
  vinv pixels width height radius x (y + 1) (vstep width height radius planes x y s).
Proof.
  intros Hx Hy (Hyi & Hlen & Hlmin & Hlmax & Htab & Hsum & Hpx).
  destruct Hbuffer as [Hblen _].
  pose proof (pixel_index_range width height x y Hx Hy) as Hidx.
  assert (Hh : height <= width * height) by nia.
  set (vmin' := if x =? 0
                then wr32 (v_vmin s) y (Z.min (y + radius + 1) (height - 1) * width)
                else v_vmin s).
  set (vmax' := if x =? 0 then wr32 (v_vmax s) y (Z.max (y - radius) 0 * width)
                else v_vmax s).
  assert (Htab' : tables_done vmin' vmax' radius (height - 1) width
                              (if x =? 0 then y + 1 else height)).
  { subst vmin' vmax'. destruct (x =? 0); [| done].
    apply tables_done_step; try lia; [nia | nia | done]. }
  destruct (Htab' y) as [Hrmin Hrmax]; [destruct (x =? 0); lia |].
  unfold vinv. rewrite vstep_pixels.
  unfold vstep; cbn [v_vmin v_vmax v_sums v_yi].
  fold vmin' vmax'.
  split; [lia |].
  split; [by rewrite !length_wr8c |].
  split; [subst vmin'; destruct (x =? 0); by rewrite ?length_wr32 |].
  split; [subst vmax'; destruct (x =? 0); by rewrite ?length_wr32 |].
  split; [exact Htab' |].
  split.
  - intros c. rewrite chget_chmap2, Hsum, Hrmin, Hrmax. cbn [nlift rdn].
    replace (x + Z.min (y + radius + 1) (height - 1) * width)
      with (Z.min (y + radius + 1) (height - 1) * width + x) by lia.
    replace (x + Z.max (y - radius) 0 * width)
      with (Z.max (y - radius) 0 * width + x) by lia.
    rewrite !Hplanes by lia. cbn [nlift]. f_equal.
    unfold vwindow.
    replace (y + 1 - radius) with (y - radius + 1) by lia.
    rewrite zsum_slide, Z2Nat.id by lia. unfold clampTo.
    replace (y - radius + (2 * radius + 1)) with (y + radius + 1) by lia.
    replace (Z.min (height - 1) (Z.max (y + radius + 1) 0))
      with (Z.min (y + radius + 1) (height - 1)) by lia.
    replace (Z.min (height - 1) (Z.max (y - radius) 0))
      with (Z.max (y - radius) 0) by lia.
    lia.
  - intros c x' y' Hx' Hy' Hbefore. rewrite Hyi.
    assert (Hval : forall c',
               nround (chget c' (v_sums s)) (radius + radius + 1)
               = Some (naive_blur pixels width height radius c' x y)
               /\ 0 <= naive_blur pixels width height radius c' x y <= 255).
    { intros c'. rewrite Hsum. cbn [nround]. split; [| apply naive_blur_byte].
      f_equal. unfold naive_blur, boxAverage, vwindow.
      by replace (radius + radius + 1) with (2 * radius + 1) by lia. }
    destruct (Hval R) as [HvR HbR], (Hval G) as [HvG HbG], (Hval B) as [HvB HbB].
    cbn [chget] in HvR, HvG, HvB. rewrite HvR, HvG, HvB.
    destruct (decide (y' * width + x' = y * width + x)) as [Heq | Hne].
    + destruct (pixel_index_inj width x' y' x y Hx' Hx Heq) as [-> ->].
      destruct c; cbn [offset].
      * rewrite !rd_wr8c_ne by lia. by rewrite rd_wr8c_byte by lia.
      * rewrite rd_wr8c_ne by lia.
        by rewrite rd_wr8c_byte by (rewrite ?length_wr8c; lia).
      * by rewrite rd_wr8c_byte by (rewrite ?length_wr8c; lia).
    + pose proof (offset_range c).
      rewrite !rd_wr8c_ne by lia. apply Hpx; [done | done |].
      destruct Hbefore as [Hl | [-> Hl]]; [by left |].
      right. split; [done |].
      destruct (decide (y' = y)) as [-> | Hy'']; [done | lia].
Qed.

(** A column of the vertical pass. *)
Lemma vcol_inv (x : Z) (s : vstate) :
  0 <= x < width ->
  vinv_col pixels width height radius x s ->
  vinv_col pixels width height radius (x + 1) (vcol width height radius planes x s).
Proof.
  intros Hx (Hlen & Hlmin & Hlmax & Htab & Hpx). unfold vcol.
  pose proof (for_loop_ind
    (fun y t => vinv pixels width height radius x y t)
    (vstep width height radius planes x) (Z.to_nat height) 0
    (VState (v_pixels s) (v_vmin s) (v_vmax s) (vinit width radius planes x) x))
    as Hloop.
  rewrite Z2Nat.id in Hloop by lia. cbn [Z.add] in Hloop.
  destruct Hloop as (_ & Hlen' & Hlmin' & Hlmax' & Htab' & _ & Hpx').
  - unfold vinv; cbn [v_pixels v_vmin v_vmax v_sums v_yi].
    split; [lia |]. split; [done |]. split; [done |]. split; [done |].
    split; [done |].
    split; [intros c; by apply vinit_window |].
    intros c x' y' Hx' Hy' Hbefore. apply Hpx; [lia | done].
  - intros y t Hy Ht. apply vstep_inv; [done | lia | done].
  - unfold vinv_col.
    split; [done |]. split; [done |]. split; [done |].
    split.
    + destruct (Z.eqb_spec (x + 1) 0) as [Hz | _]; [lia |].
      by destruct (x =? 0).
    + intros c x' y' Hx' Hy'. apply Hpx'; [lia | done | lia].
Qed.

Lemma vertical_pixels (s : vstate) :
  vinv_col pixels width height radius 0 s ->
  forall c x y,
    0 <= x < width -> 0 <= y < height ->
    rd (v_pixels (vertical width height radius planes s))
       ((y * width + x) * 4 + offset c)
    = Some (naive_blur pixels width height radius c x y).
Proof.
  intros H0. unfold vertical.
  pose proof (for_loop_ind
    (fun x t => vinv_col pixels width height radius x t)
    (vcol width height radius planes) (Z.to_nat width) 0 s H0) as Hloop.
  rewrite Z2Nat.id in Hloop by lia. cbn [Z.add] in Hloop.
  destruct Hloop as (_ & _ & _ & _ & Hpx).
  - intros x t Hx Ht. apply vcol_inv; [lia | done].
  - intros c x y Hx Hy. by apply Hpx.
Qed.
End Vertical.

(** *** Vertical pass, for a radius that reaches the height *)
Section Unclamped.
Hypothesis Habove : height <= radius.
Variable planes : chans (list Z).
Hypothesis Hplanes_len :
  forall c, length (chget c planes) = Z.to_nat (width * height).

(** The first window of a column reads row [height] of the plane, which is
    past its end: the sum is NaN. *)
Lemma vinit_nan (c : channel) (x : Z) :
  0 <= x < width -> chget c (vinit width radius planes x) = None.
Proof.
  intros Hx. unfold vinit.
  pose proof (for_loop_ind
    (fun k (t : Z * chans num) =>
       fst t = k * width /\ (height < k -> forall c, chget c (snd t) = None))
    (fun i '(yp, sums) =>
       let yi := Z.max 0 yp + x in
       (yp + width, chmap2 (fun _ sum plane => sum +? rd plane yi) sums planes))
    (Z.to_nat (radius + radius + 1)) (- radius)
    (- radius * width, Chans (Some 0) (Some 0) (Some 0))) as Hloop.
  rewrite Z2Nat.id in Hloop by lia.
  destruct Hloop as [_ Hnan].
  - cbn [fst snd]. split; [lia |]. intros Hk. lia.
  - intros k [yp t] Hk [Hyp Ht]; cbn [fst snd] in *. subst yp.
    split; [lia |]. intros Hk' c'. rewrite chget_chmap2.
    destruct (decide (k = height)) as [-> | Hne].
    + rewrite (rd_beyond (chget c' planes)) by (rewrite Hplanes_len; nia).
      by destruct (chget c' t).
    + by rewrite Ht by lia.
  - apply Hnan. lia.
Qed.

Lemma vstep_zero (x y : Z) (s : vstate) :
  0 <= x < width -> 0 <= y < height ->
  vzero pixels width height x y s ->
  vzero pixels width height x (y + 1) (vstep width height radius planes x y s).
Proof.
  intros Hx Hy (Hyi & Hlen & Hsum & Hpx).
  destruct Hbuffer as [Hblen _].
  pose proof (pixel_index_range width height x y Hx Hy) as Hidx.
  unfold vzero. rewrite vstep_pixels.
  unfold vstep; cbn [v_vmin v_vmax v_sums v_yi].
  split; [lia |].
  split; [by rewrite !length_wr8c |].
  split; [intros c; by rewrite chget_chmap2, Hsum |].
  intros c x' y' Hx' Hy' Hbefore. rewrite Hyi.
  pose proof (Hsum R) as HsR. pose proof (Hsum G) as HsG. pose proof (Hsum B) as HsB.
  cbn [chget] in HsR, HsG, HsB. rewrite HsR, HsG, HsB. cbn [nround].
  destruct (decide (y' * width + x' = y * width + x)) as [Heq | Hne].
  - destruct (pixel_index_inj width x' y' x y Hx' Hx Heq) as [-> ->].
    destruct c; cbn [offset]; rewrite ?rd_wr8c_ne by lia; rewrite rd_wr8c_eq;
      match goal with
      | |- _ <$> rd ?a ?i = _ =>
          destruct (rd_in_range a i) as [w ->];
            [rewrite ?length_wr8c; lia | done]
      end.
  - pose proof (offset_range c).
    rewrite !rd_wr8c_ne by lia. apply Hpx; [done | done |].
    destruct Hbefore as [Hl | [-> Hl]]; [by left |].
    right. split; [done |].
    destruct (decide (y' = y)) as [-> | Hy'']; [done | lia].
Qed.

Lemma vertical_zero (s : vstate) :
  length (v_pixels s) = length pixels ->
  forall c x y,
    0 <= x < width -> 0 <= y < height ->
    rd (v_pixels (vertical width height radius planes s))
       ((y * width + x) * 4 + offset c) = Some 0.
Proof.
  intros Hlen0. unfold vertical.
  pose proof (for_loop_ind
    (fun x t =>
       length (v_pixels t) = length pixels
       /\ forall c x' y', 0 <= x' < x -> 0 <= y' < height ->
            rd (v_pixels t) ((y' * width + x') * 4 + offset c) = Some 0)
    (vcol width height radius planes) (Z.to_nat width) 0 s) as Hloop.
  rewrite Z2Nat.id in Hloop by lia. cbn [Z.add] in Hloop.
  destruct Hloop as [_ Hpx].
  - split; [done |]. intros c x' y' Hx'. lia.
  - intros x t Hx [Hlen Hpx]. unfold vcol.
    pose proof (for_loop_ind
      (fun y u => vzero pixels width height x y u)
      (vstep width height radius planes x) (Z.to_nat height) 0
      (VState (v_pixels t) (v_vmin t) (v_vmax t) (vinit width radius planes x) x))
      as Hcol.
    rewrite Z2Nat.id in Hcol by lia. cbn [Z.add] in Hcol.
    destruct Hcol as (_ & Hlen' & _ & Hpx').
    + unfold vzero; cbn [v_pixels v_vmin v_vmax v_sums v_yi].
      split; [lia |]. split; [done |].
      split; [intros c; apply vinit_nan; lia |].
      intros c x' y' Hx' Hy' Hbefore. apply Hpx; [lia | done].
    + intros y u Hy Hu. apply vstep_zero; [lia | lia | done].
    + split; [done |]. intros c x' y' Hx' Hy'. apply Hpx'; [lia | done | lia].
  - intros c x y Hx Hy. by apply Hpx.
Qed.
End Unclamped.

(** The two passes compute the box average of the specification when the
    radius is below the height of the image. *)
Lemma stackBlur_passes_box_average (c : channel) (x y : Z) :
  radius < height ->
  0 <= x < width -> 0 <= y < height ->
  rd (stackBlur_passes width height radius pixels) ((y * width + x) * 4 + offset c)
  = Some (naive_blur pixels width height radius c x y).
Proof.
  intros Hbelow Hx Hy. unfold stackBlur_passes.
  destruct (horizontal_planes _ hinv_row_start) as (Hpl & _ & Hlmin & Hlmax).
  apply vertical_pixels; try done.
  unfold vinv_col; cbn [v_pixels v_vmin v_vmax v_sums v_yi].
  split; [done |]. split; [done |]. split; [done |].
  split; [intros k Hk; cbn in Hk; lia |].
  intros c' x' y' Hx' Hy'. lia.
Qed.

(** The two passes store 0 in every colour byte when the radius reaches
    the height of the image. *)
Lemma stackBlur_passes_unclamped (c : channel) (x y : Z) :
  height <= radius ->
  0 <= x < width -> 0 <= y < height ->
  rd (stackBlur_passes width height radius pixels) ((y * width + x) * 4 + offset c)
  = Some 0.
Proof.
  intros Habove Hx Hy. unfold stackBlur_passes.
  destruct (horizontal_planes _ hinv_row_start) as (_ & Hlen & _ & _).
  by apply vertical_zero.
Qed.
End Refinement.

Lemma sample_pixels_buffer : rgba_buffer sample_pixels 2 3.
Proof. split; [reflexivity |]. repeat constructor; lia. Qed.

(** On the image of two columns and three rows: at radius 2 the
    passes give the box average, at radius 3 they give 0. *)
Example sample_pixels_radius_2 :
  rd (stackBlur_passes 2 3 2 sample_pixels) ((2 * 2 + 1) * 4 + offset B)
  = Some (naive_blur sample_pixels 2 3 2 B 1 2)
  /\ naive_blur sample_pixels 2 3 2 B 1 2 = 84.
Proof.
  split; [| reflexivity].
  apply (stackBlur_passes_box_average 2 3 2 sample_pixels); try lia.
  exact sample_pixels_buffer.
Qed.

Example sample_pixels_radius_3 :
  rd (stackBlur_passes 2 3 3 sample_pixels) ((2 * 2 + 1) * 4 + offset B) = Some 0
  /\ naive_blur sample_pixels 2 3 3 B 1 2 = 76.
Proof.
  split; [| reflexivity].
  apply (stackBlur_passes_unclamped 2 3 3 sample_pixels); try lia.
  exact sample_pixels_buffer.
Qed.

(** C2 at an image of two columns and one row, radius 1.  The function as
    it is written throws at line 602 and leaves the buffer as it was.  Its
    two passes, had they been reached, store 0 in every colour byte: the
    first window of the vertical pass reads [r[2]], past the end of the
    plane, and the sum is NaN from then on.  The box average of the
    specification is 30 for the first pixel and 60 for the second. *)
Theorem stackBlur_row_radius_1 :
  stackBlur row_pixels 2 1 1 = (row_pixels, Thrown TypeError)
  /\ stackBlur_passes 2 1 1 row_pixels = [0; 0; 0; 255; 0; 0; 0; 255]
  /\ map (fun x => naive_blur row_pixels 2 1 1 R x 0) [0; 1] = [30; 60]
  /\ map (fun x => naive_blur row_pixels 2 1 1 G x 0) [0; 1] = [30; 60]
  /\ map (fun x => naive_blur row_pixels 2 1 1 B x 0) [0; 1] = [30; 60].
Proof. repeat split. Qed.

(** * Further properties of the code *)

(** ** The decision engine: what a result can hold *)

Section FaceApiResults.
Variable lowConfidence : Q.
Variable coverage : Q.

(** The result of a loaded detector, by the way the [try] block ends. *)
Lemma analyzeImage_loaded_cases (st : settings) (env : detector_env) :
  (analyzeImage lowConfidence coverage true st env = Results [] None false false
   /\ threw (tryBlock lowConfidence coverage st env (Results [] None false false)) = true)
  \/ exists r1 r2,
       detectFacesStep lowConfidence st env (Results [] None false false) = Completed r1
       /\ bodyStep st env r1 = Completed r2
       /\ analyzeImage lowConfidence coverage true st env
          = set_shouldBlur
              ((0 <? length (faces r2))%nat
               || (bool_decide (is_Some (bodySegmentation r2))
                   && hasPersonInSegmentation coverage (bodySegmentation r2))) r2.
Proof.
  unfold analyzeImage, tryBlock; cbn [negb].
  destruct (detectFacesStep lowConfidence st env _) as [r1 | r1] eqn:E1; cbn [andThen].
  - destruct (bodyStep st env r1) as [r2 | r2] eqn:E2; cbn [andThen].
    + right. by exists r1, r2.
    + left. split; [| done].
      assert (Ht : tryBlock lowConfidence coverage st env (Results [] None false false)
                   = Raised r2) by (unfold tryBlock; by rewrite E1; cbn; rewrite E2).
      by apply tryBlock_raised in Ht.
  - left. split; [| done].
    assert (Ht : tryBlock lowConfidence coverage st env (Results [] None false false)
                 = Raised r1) by (unfold tryBlock; by rewrite E1).
    by apply tryBlock_raised in Ht.
Qed.

(** The faces of a step-1 result that completed. *)
Lemma detectFacesStep_faces (st : settings) (env : detector_env) (r1 : results) :
  detectFacesStep lowConfidence st env (Results [] None false false) = Completed r1 ->
  bodySegmentation r1 = None
  /\ forall f, f ∈ faces r1 ->
       blurFaces st || blurMen st || blurWomen st = true
       /\ exists ds d,
            detectAllFaces_withAgeAndGender env = Yields ds
            /\ d ∈ ds
            /\ shouldBlurFace lowConfidence st d = true
            /\ f = face_of_box (detection_box d).
Proof.
  unfold detectFacesStep.
  destruct (blurFaces st || blurMen st || blurWomen st).
  - destruct (detectAllFaces_withAgeAndGender env) as [ds |]; [| done].
    intros [= <-]. split; [done |]. cbn [faces set_faces].
    rewrite pushFlagged_filter. cbn. intros f Hin. split; [done |].
    apply list_elem_of_In, in_map_iff in Hin. destruct Hin as (d & <- & Hd).
    apply filter_In in Hd. destruct Hd as [Hd Hs].
    exists ds, d. repeat split; try done. by apply list_elem_of_In.
  - intros [= <-]. split; [done |]. cbn. intros f H. by apply elem_of_nil in H.
Qed.

(** Step 2 leaves the faces as they are. *)
Lemma bodyStep_faces (st : settings) (env : detector_env) (r1 r2 : results) :
  bodyStep st env r1 = Completed r2 -> faces r2 = faces r1.
Proof.
  unfold bodyStep. destruct (blurBodies st); [| by intros [= <-]].
  destruct (runBodyPix env r1) as [[|] |]; try done; by intros [= <-].
Qed.

(** X1.  The flag [shouldBlur] of a loaded detector of the face-api engines
    agrees with what the result holds: it is set exactly when the result
    lists a face or carries a segmentation that passes the coverage test. *)
Theorem shouldBlur_reflects_result (st : settings) (env : detector_env) :
  shouldBlur (analyzeImage lowConfidence coverage true st env) = true <->
  faces (analyzeImage lowConfidence coverage true st env) ≠ []
  \/ hasPersonInSegmentation coverage
       (bodySegmentation (analyzeImage lowConfidence coverage true st env)) = true.
Proof.
  destruct (analyzeImage_loaded_cases st env) as [[-> _] | (r1 & r2 & _ & _ & ->)].
  - cbn. split; [done |]. intros [H | H]; done.
  - cbn [shouldBlur faces bodySegmentation set_shouldBlur].
    rewrite orb_true_iff, andb_true_iff.
    destruct (faces r2) as [| f fs]; cbn.
    + split.
      * intros [H | [_ H]]; [done | by right].
      * intros [H | H]; [done |]. right. split; [| done].
        destruct (bodySegmentation r2); [| done].
        apply bool_decide_eq_true_2. by eexists.
    + split; intros _; by left.
Qed.

(** X2.  Every face of a result is the box of a detection that the first
    detector call returned and that the policy flagged; with the three
    face switches off the result lists no face. *)
Theorem result_face_origin (st : settings) (env : detector_env) (f : face) :
  f ∈ faces (analyzeImage lowConfidence coverage true st env) ->
  blurFaces st || blurMen st || blurWomen st = true
  /\ exists ds d,
       detectAllFaces_withAgeAndGender env = Yields ds
       /\ d ∈ ds
       /\ shouldBlurFace lowConfidence st d = true
       /\ f = face_of_box (detection_box d).
Proof.
  destruct (analyzeImage_loaded_cases st env) as [[-> _] | (r1 & r2 & E1 & E2 & ->)].
  - cbn. intros H. by apply elem_of_nil in H.
  - cbn [faces set_shouldBlur]. rewrite (bodyStep_faces st env r1 r2 E2).
    by apply detectFacesStep_faces.
Qed.

(** X3.  A result carries a segmentation only when [blurBodies] is on, the
    body model is there, [segmentPerson] answered with it, and either a
    face was flagged or the second detector call found no face. *)
Theorem result_body_origin (st : settings) (env : detector_env) (s : segmentation) :
  bodySegmentation (analyzeImage lowConfidence coverage true st env) = Some s ->
  blurBodies st = true
  /\ bodyModel env = true
  /\ segmentPerson env = Yields s
  /\ (faces (analyzeImage lowConfidence coverage true st env) ≠ []
      \/ detectAllFaces env = Yields []).
Proof.
  destruct (analyzeImage_loaded_cases st env) as [[-> _] | (r1 & r2 & E1 & E2 & ->)].
  - done.
  - cbn [faces bodySegmentation set_shouldBlur].
    destruct (detectFacesStep_faces st env r1 E1) as [Hs1 _].
    unfold bodyStep in E2. destruct (blurBodies st).
    2: { injection E2 as <-. by rewrite Hs1. }
    unfold runBodyPix in E2.
    destruct (faces r1) as [| f fs] eqn:Hf; cbn in E2.
    + destruct (detectAllFaces env) as [[| b bs] |]; cbn in E2; try done.
      * injection E2 as <-. cbn [bodySegmentation set_bodySegmentation faces].
        unfold segmentBody. destruct (bodyModel env); [| done]. cbn.
        destruct (segmentPerson env) as [s' |]; [| done].
        intros [= ->]. repeat split; try done. by right.
      * injection E2 as <-. by rewrite Hs1.
    + injection E2 as <-. cbn [bodySegmentation set_bodySegmentation faces].
      unfold segmentBody. destruct (bodyModel env); [| done]. cbn.
      destruct (segmentPerson env) as [s' |]; [| done].
      intros [= ->]. repeat split; try done. left. by rewrite Hf.
Qed.

Lemma pushFlagged_switches (st st' : settings) (ds : list detection) (fs : list face) :
  blurFaces st = blurFaces st' -> blurMen st = blurMen st' ->
  blurWomen st = blurWomen st' ->
  pushFlagged lowConfidence st ds fs = pushFlagged lowConfidence st' ds fs.
Proof.
  intros H1 H2 H3. revert fs. induction ds as [| d ds IH]; intros fs; [done |].
  cbn [pushFlagged]. unfold shouldBlurFace. by rewrite H1, H2, H3, IH.
Qed.

(** X4.  The decision reads the four policy switches and nothing else of
    the settings: [blurIntensity], [genderConfidenceThreshold] and
    [bodyCoverageThreshold] have no part in the result. *)
Theorem analyzeImage_reads_switches (st st' : settings) (env : detector_env)
    (isLoaded : bool) :
  blurFaces st = blurFaces st' -> blurMen st = blurMen st' ->
  blurWomen st = blurWomen st' -> blurBodies st = blurBodies st' ->
  analyzeImage lowConfidence coverage isLoaded st env
  = analyzeImage lowConfidence coverage isLoaded st' env.
Proof.
  intros H1 H2 H3 H4.
  unfold analyzeImage, tryBlock, detectFacesStep, bodyStep.
  rewrite <- H1, <- H2, <- H3, <- H4.
  destruct (negb isLoaded); [done |].
  destruct (blurFaces st || blurMen st || blurWomen st); [| done].
  destruct (detectAllFaces_withAgeAndGender env) as [ds |]; [| done].
  by rewrite (pushFlagged_switches st st' ds _ H1 H2 H3).
Qed.
End FaceApiResults.

Lemma result_face_origin_witness :
  face_of_box sample_box ∈ faces (Part000.analyzeImage true default_settings woman_env)
  /\ blurFaces default_settings || blurMen default_settings
     || blurWomen default_settings = true.
Proof.
  assert (H : face_of_box sample_box
              ∈ faces (analyzeImage Part000.lowConfidence Part000.coverage true
                         default_settings woman_env)) by (vm_compute; left).
  split; [exact H |].
  exact (proj1 (result_face_origin Part000.lowConfidence Part000.coverage
                  default_settings woman_env (face_of_box sample_box) H)).
Defined.

Lemma result_body_origin_witness :
  bodySegmentation (Part000.analyzeImage true men_only_settings quiet_env)
  = Some half_mask
  /\ segmentPerson quiet_env = Yields half_mask.
Proof.
  assert (H : bodySegmentation
                (analyzeImage Part000.lowConfidence Part000.coverage true
                   men_only_settings quiet_env) = Some half_mask) by reflexivity.
  split; [exact H |].
  exact (proj1 (proj2 (proj2 (result_body_origin Part000.lowConfidence Part000.coverage
                                men_only_settings quiet_env half_mask H)))).
Defined.

Lemma analyzeImage_reads_switches_witness :
  Part001.analyzeImage true (Settings true false true true 3 0.1 0.9 "fast" 0.2) woman_env
  = Part001.analyzeImage true (Settings true false true true 25 0.7 0.005 "balanced" 0.7) woman_env.
Proof.
  apply (analyzeImage_reads_switches Part001.lowConfidence Part001.coverage
           (Settings true false true true 3 0.1 0.9 "fast" 0.2)
           (Settings true false true true 25 0.7 0.005 "balanced" 0.7) woman_env true);
    reflexivity.
Defined.

(** X5.  With every policy switch off, a loaded detector of any of the
    three engines returns the empty result, whatever the detector calls
    would answer or throw. *)
Theorem switches_off_empty_result (lowConfidence coverage : Q) (st : settings)
    (env : detector_env) (env2 : Part002.detector_env) :
  blurFaces st = false -> blurMen st = false -> blurWomen st = false ->
  blurBodies st = false ->
  analyzeImage lowConfidence coverage true st env = Results [] None false false
  /\ Part002.analyzeImage true st env2 = Results [] None false false.
Proof.
  intros H1 H2 H3 H4. split.
  - unfold analyzeImage, tryBlock, detectFacesStep, bodyStep; cbn [negb].
    by rewrite H1, H2, H3, H4.
  - unfold Part002.analyzeImage, Part002.tryBlock; cbn [negb].
    by rewrite H1, H4.
Qed.

Lemma switches_off_empty_result_witness :
  Part000.analyzeImage true idle_settings failing_env = Results [] None false false
  /\ Part002.analyzeImage true idle_settings failing_env2 = Results [] None false false.
Proof.
  apply (switches_off_empty_result Part000.lowConfidence Part000.coverage
           idle_settings failing_env failing_env2); reflexivity.
Defined.

(** ** The first engine: what a result can hold *)

(** X6.  In the first engine the flag [shouldBlur] of a loaded detector is
    set exactly when the cycle fell back, the result lists a face, or its
    segmentation passes the coverage test; the faces are those that
    [estimateFaces] returned, none of them dropped.  Of the settings the
    result depends on [blurFaces] and [blurBodies], and through the options
    of [segmentPerson] on [detectionSensitivity] and on whether
    [performanceMode] is ['fast']; on nothing else. *)
Theorem part002_result (st : settings) (env : Part002.detector_env) :
  (shouldBlur (Part002.analyzeImage true st env) = true <->
   isFallback (Part002.analyzeImage true st env) = true
   \/ faces (Part002.analyzeImage true st env) ≠ []
   \/ Part002.hasPersonInSegmentation
        (bodySegmentation (Part002.analyzeImage true st env)) = true)
  /\ (forall fs, blurFaces st = true -> Part002.faceModel env = true ->
        Part002.estimateFaces env = Yields (Some fs) ->
        faces (Part002.analyzeImage true st env) = fs)
  /\ (forall st', blurFaces st = blurFaces st' -> blurBodies st = blurBodies st' ->
        String.eqb (performanceMode st) "fast"
        = String.eqb (performanceMode st') "fast" ->
        detectionSensitivity st = detectionSensitivity st' ->
        Part002.analyzeImage true st env = Part002.analyzeImage true st' env).
Proof.
  split; [| split].
  - unfold Part002.analyzeImage, Part002.tryBlock; cbn [negb].
    destruct (if blurFaces st && Part002.faceModel env then _ else _) as [fs |].
    + cbn [shouldBlur faces bodySegmentation isFallback set_shouldBlur set_faces].
      set (r := if blurBodies st && Part002.bodyModel env then _ else _).
      assert (Hfb : isFallback r = false) by (unfold r; by destruct (_ && _)).
      rewrite Hfb, orb_true_iff, andb_true_iff.
      destruct fs as [| f fs]; cbn.
      * split.
        -- intros [H | [_ H]]; [done | right; by right].
        -- intros [H | [H | H]]; [done | done |]. right. split; [| done].
           destruct (bodySegmentation r); [| done].
           apply bool_decide_eq_true_2. by eexists.
      * split; intros _; [right |]; by left.
    + cbn. split; [intros _; by left | done].
  - intros fs H1 H2 H3.
    unfold Part002.analyzeImage, Part002.tryBlock, Part002.detectFaces; cbn [negb].
    rewrite H1, H2, H3. cbn [andb negb]. done.
  - intros st' H1 H2 H3 H4.
    unfold Part002.analyzeImage, Part002.tryBlock, Part002.segmentBody,
      Part002.internalResolution.
    by rewrite H1, H2, H3, H4.
Qed.

(** The options of [segmentPerson] matter: a body model that finds the
    person at the low resolution only. *)
Example part002_reads_performanceMode :
  Part002.analyzeImage true
    (Settings false false false true 25 0.7 0.005 "fast" 0.7) low_only_env
  = Results [] (Some half_mask) true false
  /\ Part002.analyzeImage true
       (Settings false false false true 25 0.7 0.005 "balanced" 0.7) low_only_env
     = Results [] None false false.
Proof. split; reflexivity. Qed.

(** ** Body blur: the mask and the compositing loop *)

Lemma length_wr8 (a : list Z) (i v : Z) : length (wr8 a i v) = length a.
Proof. unfold wr8. destruct (i <? 0); [done | apply length_insert]. Qed.

Lemma rd_wr8_ne (a : list Z) (i j v : Z) : i ≠ j -> rd (wr8 a i v) j = rd a j.
Proof.
  intros Hne. unfold rd, wr8.
  destruct (Z.ltb_spec j 0); [done |].
  destruct (Z.ltb_spec i 0); [done |].
  apply list_lookup_insert_ne. lia.
Qed.

Lemma rd_wr8_eq (a : list Z) (i v : Z) :
  0 <= i < Z.of_nat (length a) -> rd (wr8 a i v) i = Some (v mod 256).
Proof.
  intros Hi. unfold rd, wr8. destruct (Z.ltb_spec i 0); [lia |].
  apply list_lookup_insert_eq. lia.
Qed.

Lemma rd_lookup (a : list Z) (n : nat) : rd a (Z.of_nat n) = a !! n.
Proof.
  unfold rd. destruct (Z.ltb_spec (Z.of_nat n) 0); [lia |]. by rewrite Nat2Z.id.
Qed.

Lemma maskValue_cases (d : list Z) (i : Z) : maskValue d i = 0 \/ maskValue d i = 255.
Proof. unfold maskValue. destruct (rd d i) as [v |]; [destruct (0 <? v) |]; auto. Qed.

Lemma maskValue_beyond (d : list Z) (i : Z) :
  Z.of_nat (length d) <= i -> maskValue d i = 0.
Proof. intros Hi. unfold maskValue. by rewrite rd_beyond. Qed.

Lemma createMask_loop (d : list Z) (n : nat) :
  mask_filled d
    (for_loop (length d) 0 (fun i mask => wr8 mask i (maskValue d i)) (replicate n 0))
    n (Z.of_nat (length d)).
Proof.
  pose proof (for_loop_ind (fun k mask => mask_filled d mask n k)
                (fun i mask => wr8 mask i (maskValue d i))
                (length d) 0 (replicate n 0)) as Hloop.
  rewrite Z.add_0_l in Hloop. apply Hloop.
  - split; [apply length_replicate |]. intros i Hi.
    rewrite rd_replicate by lia. by destruct (Z.ltb_spec i 0); [lia |].
  - intros k mask Hk [Hlen Hm]. split; [by rewrite length_wr8 |].
    intros i Hi. destruct (decide (i = k)) as [-> | Hne].
    + rewrite rd_wr8_eq by lia.
      destruct (Z.ltb_spec k (k + 1)); [| lia].
      f_equal. destruct (maskValue_cases d k) as [-> | ->]; reflexivity.
    + rewrite rd_wr8_ne by lia. rewrite Hm by lia.
      destruct (Z.ltb_spec i k), (Z.ltb_spec i (k + 1)); try lia; done.
Qed.

(** The mask has one entry for each pixel of the canvas, whatever the
    length of the segmentation: 255 where the segmentation is positive, 0
    elsewhere, and 0 everywhere when the segmentation has no [data]. *)
Lemma createMask_entries (seg : segmentation) (width height : Z) :
  0 <= width * height ->
  exists mask,
    createMaskFromSegmentation seg width height = Yields mask
    /\ length mask = Z.to_nat (width * height)
    /\ forall i, 0 <= i < width * height ->
         rd mask i = Some (match data seg with
                           | Some d => maskValue d i
                           | None => 0
                           end).
Proof.
  intros Hwh. unfold createMaskFromSegmentation.
  destruct (Z.ltb_spec (width * height) 0) as [Hneg | _]; [lia |].
  eexists. split; [reflexivity |].
  destruct (data seg) as [d |].
  - destruct (createMask_loop d (Z.to_nat (width * height))) as [Hlen Hm].
    split; [exact Hlen |]. intros i Hi. rewrite Hm by lia.
    destruct (Z.ltb_spec i (Z.of_nat (length d))) as [_ | Hge]; [done |].
    by rewrite maskValue_beyond.
  - split; [apply length_replicate |]. intros i Hi. apply rd_replicate. lia.
Qed.

Lemma maskStep_composited (mask blurredData data0 : list Z) (k : Z) (data : list Z) :
  composited mask blurredData data0 k data ->
  composited mask blurredData data0 (k + 1) (maskStep mask blurredData k data).
Proof.
  intros [Hlen Hd]. unfold maskStep.
  destruct (masked mask k) eqn:Hm.
  - split; [by rewrite !length_wr8c |].
    intros i o Ho.
    destruct (decide (i = k)) as [-> | Hne].
    + rewrite Hm. destruct (Z.ltb_spec k (k + 1)); [| lia]. cbn [andb].
      assert (Hprev : rd data (k * 4 + o) = rd data0 (k * 4 + o)).
      { rewrite Hd by done. rewrite Hm.
        destruct (Z.ltb_spec k k); [lia |]. by rewrite andb_false_r. }
      destruct (Z.ltb_spec o 3) as [Hlt | Hge].
      * assert (Ho' : o = 0 \/ o = 1 \/ o = 2) by lia.
        destruct Ho' as [-> | [-> | ->]].
        -- rewrite !rd_wr8c_ne by lia. rewrite Z.add_0_r in *.
           by rewrite rd_wr8c_eq, Hprev.
        -- rewrite rd_wr8c_ne by lia. rewrite rd_wr8c_eq.
           rewrite rd_wr8c_ne by lia. by rewrite Hprev.
        -- rewrite rd_wr8c_eq. rewrite !rd_wr8c_ne by lia. by rewrite Hprev.
      * rewrite !rd_wr8c_ne by lia. done.
    + rewrite !rd_wr8c_ne by lia. rewrite Hd by done.
      destruct (Z.ltb_spec i k), (Z.ltb_spec i (k + 1)); try lia; done.
  - split; [done |]. intros i o Ho. rewrite Hd by done.
    destruct (decide (i = k)) as [-> | Hne].
    + by rewrite Hm.
    + destruct (Z.ltb_spec i k), (Z.ltb_spec i (k + 1)); try lia; done.
Qed.

Lemma masked_range (mask : list Z) (i : Z) :
  masked mask i = true -> 0 <= i < Z.of_nat (length mask).
Proof.
  unfold masked. destruct (rd mask i) as [m |] eqn:E; [| done].
  intros _. by eapply rd_Some_range.
Qed.

(** The compositing loop: a colour byte of a masked pixel takes the byte of
    the blurred copy; the other bytes, and with them every alpha byte, stay. *)
Lemma compositeMask_rd (mask blurredData data : list Z) :
  length (compositeMask mask blurredData data) = length data
  /\ forall i o, 0 <= o < 4 ->
       rd (compositeMask mask blurredData data) (i * 4 + o)
       = if masked mask i && (o <? 3)
         then (fun _ => toUint8Clamp (rd blurredData (i * 4 + o))) <$> rd data (i * 4 + o)
         else rd data (i * 4 + o).
Proof.
  unfold compositeMask.
  pose proof (for_loop_ind (fun k d => composited mask blurredData data k d)
                (maskStep mask blurredData) (length mask) 0 data) as Hloop.
  rewrite Z.add_0_l in Hloop. destruct Hloop as [Hlen Hd].
  - split; [done |]. intros i o Ho.
    destruct (masked mask i) eqn:Hm; [| done].
    apply masked_range in Hm. destruct (Z.ltb_spec i 0); [lia |].
    by destruct (o <? 3).
  - intros k d _ Hk. by apply maskStep_composited.
  - split; [done |]. intros i o Ho. rewrite Hd by done.
    destruct (masked mask i) eqn:Hm; [| done].
    apply masked_range in Hm. destruct (Z.ltb_spec i (Z.of_nat (length mask))); [| lia].
    by destruct (o <? 3).
Qed.

Lemma rd_bytes (a : list Z) (i v : Z) : bytes a -> rd a i = Some v -> 0 <= v <= 255.
Proof.
  intros Hb. unfold rd. destruct (i <? 0); [done |].
  intros E. by apply (Forall_lookup_1 _ _ _ _ Hb E).
Qed.

(** Compositing a buffer with itself changes nothing. *)
Lemma compositeMask_self (mask data : list Z) :
  bytes data -> compositeMask mask data data = data.
Proof.
  intros Hb. destruct (compositeMask_rd mask data data) as [Hlen Hd].
  apply list_eq. intros n. rewrite <- !rd_lookup.
  replace (Z.of_nat n) with (Z.of_nat n / 4 * 4 + Z.of_nat n mod 4)
    by (pose proof (Z.div_mod (Z.of_nat n) 4); lia).
  rewrite Hd by (apply Z.mod_pos_bound; lia).
  destruct (masked mask _ && _); [| done].
  destruct (rd data _) as [v |] eqn:E; [| done]. cbn. f_equal.
  pose proof (rd_bytes _ _ _ Hb E). lia.
Qed.

Lemma stackBlur_ending (pixels : list Z) (width height : Z) (radius : Q) :
  snd (stackBlur pixels width height radius) = Returned <-> Qfloor radius < 1.
Proof.
  unfold stackBlur. destruct (Z.ltb_spec (Qfloor radius) 1); cbn.
  - done.
  - destruct ((width * height <? 0) || (Z.max width height <? 0)); cbn;
      split; (done || lia).
Qed.

(** X7.  The body blur on a canvas whose mask comes from a segmentation:
    a colour byte of a pixel takes the byte of the blurred copy exactly
    when the segmentation is positive at the pixel; every other byte, and
    with it every alpha byte, stays, and so does the length. *)
Theorem body_composite (seg : segmentation) (width height : Z)
    (blurredData imageData : list Z) :
  0 <= width * height ->
  exists mask,
    createMaskFromSegmentation seg width height = Yields mask
    /\ length (compositeMask mask blurredData imageData) = length imageData
    /\ forall i o, 0 <= o < 4 ->
         rd (compositeMask mask blurredData imageData) (i * 4 + o)
         = if (0 <=? i) && (i <? width * height)
              && match data seg with
                 | Some d => 0 <? maskValue d i
                 | None => false
                 end
              && (o <? 3)
           then (fun _ => toUint8Clamp (rd blurredData (i * 4 + o)))
                  <$> rd imageData (i * 4 + o)
           else rd imageData (i * 4 + o).
Proof.
  intros Hwh.
  destruct (createMask_entries seg width height Hwh) as (mask & Hrun & Hlen & Hm).
  exists mask. split; [exact Hrun |].
  destruct (compositeMask_rd mask blurredData imageData) as [Hl Hd].
  split; [exact Hl |]. intros i o Ho. rewrite Hd by done.
  assert (Hmask : masked mask i
                  = (0 <=? i) && (i <? width * height)
                    && match data seg with
                       | Some d => 0 <? maskValue d i
                       | None => false
                       end).
  { unfold masked.
    destruct (Z.leb_spec 0 i) as [Hi0 | Hi0]; cbn [andb].
    - destruct (Z.ltb_spec i (width * height)) as [Hi1 | Hi1]; cbn [andb].
      + rewrite Hm by lia. by destruct (data seg).
      + by rewrite rd_beyond by lia.
    - unfold rd. by destruct (Z.ltb_spec i 0); [| lia]. }
  by rewrite Hmask.
Qed.

Lemma body_composite_witness :
  exists mask,
    createMaskFromSegmentation sample_mask 2 3 = Yields mask
    /\ length (compositeMask mask sample_pixels_red sample_pixels) = 24%nat
    /\ rd (compositeMask mask sample_pixels_red sample_pixels) (1 * 4 + 1) = Some 3
    /\ rd (compositeMask mask sample_pixels_red sample_pixels) (2 * 4 + 1) = Some 40.
Proof.
  destruct (body_composite sample_mask 2 3 sample_pixels_red sample_pixels)
    as (mask & Hrun & Hlen & Hd); [lia |].
  exists mask. split; [exact Hrun |]. split; [exact Hlen |].
  split; [exact (Hd 1 1 ltac:(lia)) | exact (Hd 2 1 ltac:(lia))].
Defined.

Lemma bytes_sample_pixels : bytes sample_pixels.
Proof. repeat constructor; lia. Qed.

(** X8.  [blurBodyRegions] hands to [putImageData] the bytes it read: with
    a radius below 1 the blurred copy is the image itself, and for a
    radius of 1 or more [stackBlur] throws before the compositing loop.
    The call returns exactly when the mask can be allocated and the floor
    of [blurIntensity] is below 1. *)
Theorem blurBodyRegions_unchanged (st : settings) (seg : segmentation)
    (width height : Z) (data : list Z) :
  bytes data ->
  fst (blurBodyRegions st seg width height data) = data
  /\ (snd (blurBodyRegions st seg width height data) = Returned <->
      0 <= width * height /\ Qfloor (blurIntensity st) < 1).
Proof.
  intros Hb. unfold blurBodyRegions, createMaskFromSegmentation.
  destruct (Z.ltb_spec (width * height) 0) as [Hneg | Hpos].
  { split; [done |]. split; [done | lia]. }
  pose proof (stackBlur_buffer data width height (blurIntensity st)) as Hbuf.
  pose proof (stackBlur_ending data width height (blurIntensity st)) as Hend.
  destruct (stackBlur data width height (blurIntensity st)) as [blurred e].
  cbn in Hbuf, Hend. subst blurred.
  destruct e; cbn.
  - split; [by apply compositeMask_self |]. split; [| done].
    intros _. split; [done | by apply Hend].
  - split; [done |]. split; [done |]. intros [_ H]. by apply Hend in H.
Qed.

Lemma blurBodyRegions_unchanged_witness :
  blurBodyRegions faint_settings sample_mask 2 3 sample_pixels
  = (sample_pixels, Returned)
  /\ fst (blurBodyRegions default_settings sample_mask 2 3 sample_pixels)
     = sample_pixels.
Proof.
  split; [reflexivity |].
  exact (proj1 (blurBodyRegions_unchanged default_settings sample_mask 2 3
                  sample_pixels bytes_sample_pixels)).
Defined.

(** ** The two passes of [stackBlur] on a well-formed buffer *)

(** X9.  On a frame buffer, for a radius of at least 1 and below the
    height of the image, the two passes (lines 604-671) store in every
    colour byte the rounded mean of the window of [2 * radius + 1] pixels
    with clamped indices, taken along the row first and along the column
    of the row means second; the alpha byte of the pixel stays. *)
Theorem passes_window_mean (width height radius : Z) (pixels : list Z)
    (c : channel) (x y : Z) :
  0 < width -> 0 < height -> 1 <= radius -> radius < height ->
  width * height < 2 ^ 32 ->
  rgba_buffer pixels width height ->
  0 <= x < width -> 0 <= y < height ->
  rd (stackBlur_passes width height radius pixels) ((y * width + x) * 4 + offset c)
  = Some (naive_blur pixels width height radius c x y)
  /\ rd (stackBlur_passes width height radius pixels) ((y * width + x) * 4 + 3)
     = rd pixels ((y * width + x) * 4 + 3).
Proof.
  intros Hw Hh Hr Hbelow Hsize Hbuf Hx Hy. split.
  - by apply stackBlur_passes_box_average.
  - apply (stackBlur_passes_alpha width height radius pixels).
Qed.

Lemma passes_window_mean_witness :
  rd (stackBlur_passes 2 3 2 sample_pixels) ((2 * 2 + 1) * 4 + offset B)
  = Some (naive_blur sample_pixels 2 3 2 B 1 2)
  /\ rd (stackBlur_passes 2 3 2 sample_pixels) ((2 * 2 + 1) * 4 + 3)
     = rd sample_pixels ((2 * 2 + 1) * 4 + 3).
Proof.
  apply (passes_window_mean 2 3 2 sample_pixels B 1 2); try lia.
  exact sample_pixels_buffer.
Defined.

(** X10.  Once the radius reaches the height of the image, the first
    window of the vertical pass reads past the end of the planes, the sums
    are NaN, and the two passes store 0 in every colour byte; the alpha
    bytes stay. *)
Theorem passes_blank (width height radius : Z) (pixels : list Z)
    (c : channel) (x y : Z) :
  0 < width -> 0 < height -> 1 <= radius -> height <= radius ->
  width * height < 2 ^ 32 ->
  rgba_buffer pixels width height ->
  0 <= x < width -> 0 <= y < height ->
  rd (stackBlur_passes width height radius pixels) ((y * width + x) * 4 + offset c)
  = Some 0
  /\ rd (stackBlur_passes width height radius pixels) ((y * width + x) * 4 + 3)
     = rd pixels ((y * width + x) * 4 + 3).
Proof.
  intros Hw Hh Hr Habove Hsize Hbuf Hx Hy. split.
  - by apply stackBlur_passes_unclamped.
  - apply (stackBlur_passes_alpha width height radius pixels).
Qed.

Lemma passes_blank_witness :
  rd (stackBlur_passes 2 3 3 sample_pixels) ((2 * 2 + 1) * 4 + offset B) = Some 0
  /\ rd (stackBlur_passes 2 3 3 sample_pixels) ((2 * 2 + 1) * 4 + 3)
     = rd sample_pixels ((2 * 2 + 1) * 4 + 3).
Proof.
  apply (passes_blank 2 3 3 sample_pixels B 1 2); try lia.
  exact sample_pixels_buffer.
Defined.

(** *** Images of one colour *)

Lemma zsum_const (v lo : Z) (n : nat) (g : Z -> Z) :
  (forall j, g j = v) -> zsum g lo n = Z.of_nat n * v.
Proof.
  intros Hg. revert lo. induction n as [| n IH]; intros lo; cbn [zsum]; [lia |].
  rewrite Hg, IH. lia.
Qed.

Lemma roundDiv_multiple (v d : Z) : 0 < d -> roundDiv (d * v) d = v.
Proof.
  intros Hd. unfold roundDiv.
  replace (2 * (d * v) + d) with (v * (2 * d) + d) by lia.
  rewrite Z.div_add_l by lia. rewrite Z.div_small by lia. lia.
Qed.

Lemma boxAverage_const (g : Z -> Z) (last radius centre v : Z) :
  0 <= radius -> 0 <= last ->
  (forall j, 0 <= j <= last -> g j = v) ->
  boxAverage g last radius centre = v.
Proof.
  intros Hr Hl Hg. unfold boxAverage.
  rewrite (zsum_const v); [| intros j; apply Hg; unfold clampTo; lia].
  rewrite Z2Nat.id by lia. apply roundDiv_multiple. lia.
Qed.

Lemma channelAt_rd (pixels : list Z) (width : Z) (c : channel) (x y v : Z) :
  0 <= (y * width + x) * 4 + offset c ->
  rd pixels ((y * width + x) * 4 + offset c) = Some v ->
  channelAt pixels width c x y = v.
Proof.
  intros Hpos. unfold rd, channelAt.
  destruct (Z.ltb_spec ((y * width + x) * 4 + offset c) 0); [lia |].
  by intros ->.
Qed.

(** X11.  An image of one colour is a fixed point of the two passes, for
    every radius from 1 to below the height of the image. *)
Theorem passes_uniform (width height radius : Z) (pixels : list Z) (colour : chans Z) :
  0 < width -> 0 < height -> 1 <= radius -> radius < height ->
  width * height < 2 ^ 32 ->
  rgba_buffer pixels width height ->
  (forall c x y, 0 <= x < width -> 0 <= y < height ->
     rd pixels ((y * width + x) * 4 + offset c) = Some (chget c colour)) ->
  stackBlur_passes width height radius pixels = pixels.
Proof.
  intros Hw Hh Hr Hbelow Hsize Hbuf Hcol.
  destruct (stackBlur_passes_alpha width height radius pixels) as [Hlen Halpha].
  assert (Hnaive : forall c x y, 0 <= x < width -> 0 <= y < height ->
                     naive_blur pixels width height radius c x y = chget c colour).
  { intros c x y Hx Hy. unfold naive_blur.
    apply boxAverage_const; [lia | lia |]. intros j Hj.
    unfold naive_horizontal. apply boxAverage_const; [lia | lia |]. intros i Hi.
    apply channelAt_rd; [destruct c; cbn; nia | apply Hcol; lia]. }
  apply list_eq. intros n.
  destruct (Nat.lt_ge_cases n (length pixels)) as [Hn | Hn].
  2:{ rewrite !lookup_ge_None_2; [done | lia | lia]. }
  destruct Hbuf as [Hsz Hbytes].
  rewrite <- !rd_lookup.
  set (k := Z.of_nat n). set (j := k / 4). set (o := k mod 4).
  assert (Hk : k = j * 4 + o) by (unfold j, o; pose proof (Z.div_mod k 4); lia).
  assert (Ho : 0 <= o < 4) by (apply Z.mod_pos_bound; lia).
  assert (Hj : 0 <= j < width * height) by (unfold k in *; lia).
  set (x := j mod width). set (y := j / width).
  assert (Hjxy : j = y * width + x)
    by (unfold x, y; pose proof (Z.div_mod j width); lia).
  assert (Hx : 0 <= x < width) by (apply Z.mod_pos_bound; lia).
  assert (Hy : 0 <= y < height).
  { split; [apply Z.div_pos; lia |]. apply Z.div_lt_upper_bound; lia. }
  rewrite Hk, Hjxy.
  assert (Hcase : o = 3 \/ exists c, o = offset c).
  { assert (H : o = 0 \/ o = 1 \/ o = 2 \/ o = 3) by lia.
    destruct H as [H | [H | [H | H]]]; [right | right | right | by left].
    - by exists R.
    - by exists G.
    - by exists B. }
  destruct Hcase as [-> | [c ->]].
  - apply Halpha.
  - rewrite stackBlur_passes_box_average by (done || (split; done)).
    rewrite Hcol by done. f_equal. by apply Hnaive.
Qed.

(** an image of two columns and three rows in one colour *)
Lemma grey_buffer : rgba_buffer (concat (replicate 6 [70; 80; 90; 255])) 2 3.
Proof. split; [reflexivity |]. repeat constructor; lia. Qed.

Lemma passes_uniform_witness :
  stackBlur_passes 2 3 2 (concat (replicate 6 [70; 80; 90; 255]))
  = concat (replicate 6 [70; 80; 90; 255]).
Proof.
  apply (passes_uniform 2 3 2 (concat (replicate 6 [70; 80; 90; 255]))
           (Chans 70 80 90)); try lia.
  - exact grey_buffer.
  - intros c x y Hx Hy.
    assert (Hxy : (x = 0 \/ x = 1) /\ (y = 0 \/ y = 1 \/ y = 2)) by lia.
    destruct Hxy as [[-> | ->] [-> | [-> | ->]]]; by destruct c.
Defined.

(** ** The page under the blur calls *)

Lemma applyBlurredOverlay_completed (st : settings) (img : node)
    (canvas : option canvas) (css : bool) (pg pg1 : page) :
  applyBlurredOverlay st img canvas css pg = Completed pg1 ->
  is_Some (blurredElements pg1 !! img).
Proof.
  unfold applyBlurredOverlay. case_bool_decide as Ht.
  - by intros [= <-].
  - destruct (ensureWrapper img pg) as [[w pg'] | [w pg']]; [| done].
    destruct (makeOverlay st img w canvas css pg') as [[o pg2] | [o pg2]]; [| done].
    cbn. intros [= <-]. cbn. rewrite lookup_insert_eq. by eexists.
Qed.

Lemma applyCSSBlur_completed (st : settings) (img : node) (pg pg1 : page) :
  applyCSSBlur st img pg = Completed pg1 -> is_Some (blurredElements pg1 !! img).
Proof.
  unfold applyCSSBlur. case_bool_decide as Ht.
  - by intros [= <-].
  - apply applyBlurredOverlay_completed.
Qed.

Lemma numbered_fresh_created (pg : page) (n : node) :
  page_numbered pg -> (fresh pg <= n)%nat -> created pg !! n = None.
Proof.
  intros (_ & _ & Hc) Hn. destruct (created pg !! n) as [k |] eqn:E; [| done].
  apply Hc in E. lia.
Qed.

Lemma numbered_fresh_parent (pg : page) (n : node) :
  page_numbered pg -> (fresh pg <= n)%nat -> parentElement pg !! n = None.
Proof.
  intros (Hp & _ & _) Hn. destruct (parentElement pg !! n) as [k |] eqn:E; [| done].
  apply Hp in E. lia.
Qed.

Lemma numbered_fresh_children (pg : page) (n : node) :
  page_numbered pg -> (fresh pg <= n)%nat -> childNodes pg !! n = None.
Proof.
  intros (_ & Hc & _) Hn. destruct (childNodes pg !! n) as [k |] eqn:E; [| done].
  apply Hc in E. lia.
Qed.

(** *** The numbering is kept *)

Lemma set_styleFilter_numbered (e : node) (px : Q) (pg : page) :
  page_numbered pg -> page_numbered (set_styleFilter e px pg).
Proof. done. Qed.

Lemma createElement_numbered (k : node_kind) (pg : page) :
  page_numbered pg -> page_numbered (snd (createElement k pg)).
Proof.
  intros (Hp & Hc & Hk). split; [| split]; cbn.
  - intros n p H. apply Hp in H. lia.
  - intros n l H. apply Hc in H as [Hn Hl]. split; [lia |].
    intros m Hm. apply Hl in Hm. lia.
  - intros n k' H. destruct (decide (n = fresh pg)) as [-> | Hne]; [lia |].
    rewrite lookup_insert_ne in H by done. apply Hk in H. lia.
Qed.

Lemma detach_numbered (n m : node) (l : list node) (pg : page) :
  page_numbered pg ->
  detach n pg !! m = Some l ->
  (m < fresh pg)%nat /\ forall k, k ∈ l -> (k < fresh pg)%nat.
Proof.
  intros (Hp & Hc & _). unfold detach.
  destruct (parentElement pg !! n) as [q |] eqn:E; [| apply Hc].
  destruct (decide (m = q)) as [-> | Hne].
  - rewrite lookup_insert_eq. intros [= <-]. split; [by apply (Hp n q) |].
    intros k Hk. apply list_elem_of_filter in Hk as [_ Hk].
    unfold children in Hk. destruct (childNodes pg !! q) as [l |] eqn:El.
    + by apply (Hc q l El).
    + by apply elem_of_nil in Hk.
  - rewrite lookup_insert_ne by done. apply Hc.
Qed.

Lemma default_detach_numbered (n m k : node) (pg : page) :
  page_numbered pg ->
  k ∈ default [] (detach n pg !! m) -> (k < fresh pg)%nat.
Proof.
  intros Hnum. destruct (detach n pg !! m) as [l |] eqn:E; cbn.
  - by apply (detach_numbered n m l pg Hnum E).
  - intros H. by apply elem_of_nil in H.
Qed.

Lemma appendChild_numbered (par n : node) (pg : page) :
  page_numbered pg -> (par < fresh pg)%nat -> (n < fresh pg)%nat ->
  page_numbered (appendChild par n pg).
Proof.
  intros Hnum Hpar Hn. pose proof Hnum as (Hp & Hc & Hcr).
  split; [| split]; cbn.
  - intros m q H. destruct (decide (m = n)) as [-> | Hne].
    + rewrite lookup_insert_eq in H. injection H as <-. by split.
    + rewrite lookup_insert_ne in H by done. by apply Hp.
  - intros m l H. destruct (decide (m = par)) as [-> | Hne].
    + rewrite lookup_insert_eq in H. injection H as <-. split; [done |].
      intros k Hk. apply elem_of_app in Hk as [Hk | Hk].
      * by eapply default_detach_numbered.
      * by apply list_elem_of_singleton in Hk as ->.
    + rewrite lookup_insert_ne in H by done. by eapply detach_numbered.
  - exact Hcr.
Qed.

Lemma elem_of_insert_before (n ref k : node) (l : list node) :
  k ∈ insert_before n ref l -> k = n \/ k ∈ l.
Proof.
  induction l as [| a l IH]; cbn.
  - intros H. apply list_elem_of_singleton in H. by left.
  - case_bool_decide as Hb.
    + intros H. apply elem_of_cons in H as [-> | H]; [by left | by right].
    + intros H. apply elem_of_cons in H as [-> | H]; [right; by left |].
      destruct (IH H) as [-> | Hk]; [by left | right; by right].
Qed.

Lemma insertBefore_numbered (par n ref : node) (pg : page) :
  page_numbered pg -> (par < fresh pg)%nat -> (n < fresh pg)%nat ->
  page_numbered (insertBefore par n ref pg).
Proof.
  intros Hnum Hpar Hn. pose proof Hnum as (Hp & Hc & Hcr).
  split; [| split]; cbn.
  - intros m q H. destruct (decide (m = n)) as [-> | Hne].
    + rewrite lookup_insert_eq in H. injection H as <-. by split.
    + rewrite lookup_insert_ne in H by done. by apply Hp.
  - intros m l H. destruct (decide (m = par)) as [-> | Hne].
    + rewrite lookup_insert_eq in H. injection H as <-. split; [done |].
      intros k Hk. apply elem_of_insert_before in Hk as [-> | Hk]; [done |].
      by eapply default_detach_numbered.
    + rewrite lookup_insert_ne in H by done. by eapply detach_numbered.
  - exact Hcr.
Qed.

(** The wrapper of an attached image: its parent when that is a wrapper, a
    new node around the image otherwise. *)
Lemma ensureWrapper_shape (e p : node) (pg : page) :
  page_numbered pg ->
  parentElement pg !! e = Some p ->
  exists w pg',
    ensureWrapper e pg = Completed (w, pg')
    /\ w = (if is_wrapper pg p then p else fresh pg)
    /\ page_numbered pg'
    /\ is_wrapper pg' w = true
    /\ parentElement pg' !! e = Some w
    /\ (fresh pg <= fresh pg')%nat
    /\ blurredElements pg' = blurredElements pg
    /\ styleFilter pg' = styleFilter pg
    /\ (forall n, is_overlay pg' n = is_overlay pg n)
    /\ (forall n, (n < fresh pg)%nat -> n ≠ e ->
          parentElement pg' !! n = parentElement pg !! n)
    /\ (forall n, (n < fresh pg)%nat -> created pg' !! n = created pg !! n).
Proof.
  intros Hnum Hp. pose proof Hnum as (Hpar & _ & _).
  destruct (Hpar e p Hp) as [He Hp'].
  unfold ensureWrapper. rewrite Hp.
  destruct (is_wrapper pg p) eqn:Hw.
  - exists p, pg. split; [done |]. split; [done |]. split; [done |].
    split; [done |]. split; [done |]. split; [lia |]. by repeat split.
  - eexists _, _. split; [reflexivity |].
    split; [done |].
    split.
    { apply appendChild_numbered; [| cbn; lia | cbn; lia].
      apply insertBefore_numbered; [| cbn; lia | cbn; lia].
      by apply createElement_numbered. }
    cbn.
    split; [unfold is_wrapper; cbn; by rewrite lookup_insert_eq |].
    split; [by rewrite lookup_insert_eq |].
    split; [lia |].
    split; [done |]. split; [done |].
    split.
    + intros n. unfold is_overlay; cbn.
      destruct (decide (n = fresh pg)) as [-> | Hne].
      * rewrite lookup_insert_eq. by rewrite numbered_fresh_created.
      * by rewrite lookup_insert_ne.
    + split.
      * intros n Hn Hne. by rewrite !lookup_insert_ne by lia.
      * intros n Hn. by rewrite lookup_insert_ne by lia.
Qed.

Lemma set_blurredElements_numbered (e : node) (r : record) (pg : page) :
  page_numbered pg -> page_numbered (set_blurredElements e r pg).
Proof. done. Qed.

(** The badge of [applyBlurredOverlay] (lines 718-738) on a page whose
    wrapper is in place. *)
Lemma badge_shape (e w : node) (o : option node) (pg : page) :
  page_numbered pg ->
  (w < fresh pg)%nat ->
  let pg1 := set_blurredElements e (Rec w o (fresh pg))
               (appendChild w (fresh pg) (snd (createElement BadgeDiv pg))) in
  page_numbered pg1
  /\ blurredElements pg1 = <[e := Rec w o (fresh pg)]> (blurredElements pg)
  /\ parentElement pg1 !! fresh pg = Some w
  /\ created pg1 !! fresh pg = Some BadgeDiv
  /\ styleFilter pg1 = styleFilter pg
  /\ (fresh pg <= fresh pg1)%nat
  /\ (forall n, (n < fresh pg)%nat -> parentElement pg1 !! n = parentElement pg !! n)
  /\ (forall n, (n < fresh pg)%nat -> created pg1 !! n = created pg !! n)
  /\ (forall n, is_wrapper pg1 n = is_wrapper pg n)
  /\ (forall n, is_overlay pg1 n = is_overlay pg n).
Proof.
  intros Hnum Hw pg1.
  split.
  { apply set_blurredElements_numbered, appendChild_numbered; [| cbn; lia | cbn; lia].
    by apply createElement_numbered. }
  split; [done |].
  split; [cbn; by rewrite lookup_insert_eq |].
  split; [cbn; by rewrite lookup_insert_eq |].
  split; [done |].
  split; [cbn; lia |].
  split; [intros n Hn; cbn; by rewrite lookup_insert_ne by lia |].
  split; [intros n Hn; cbn; by rewrite lookup_insert_ne by lia |].
  split; intros n; unfold is_wrapper, is_overlay; cbn;
    (destruct (decide (n = fresh pg)) as [-> | Hne];
     [rewrite lookup_insert_eq; by rewrite numbered_fresh_created
     | by rewrite lookup_insert_ne]).
Qed.

(** The page after the first call of [applyBlurredOverlay] for an attached
    image, when no [toDataURL] throws. *)
Lemma applyBlurredOverlay_shape (st : settings) (e p : node)
    (canvas : option canvas) (css : bool) (pg : page) :
  page_numbered pg ->
  parentElement pg !! e = Some p ->
  blurredElements pg !! e = None ->
  encodes canvas css = true ->
  exists pg1 w o b,
    applyBlurredOverlay st e canvas css pg = Completed pg1
    /\ blurredElements pg1 = <[e := Rec w o b]> (blurredElements pg)
    /\ w = (if is_wrapper pg p then p else fresh pg)
    /\ is_wrapper pg1 w = true
    /\ parentElement pg1 !! e = Some w
    /\ parentElement pg1 !! b = Some w
    /\ created pg1 !! b = Some BadgeDiv
    /\ match negb css, canvas with
       | true, Some c =>
           exists on, o = Some on
                      /\ created pg1 !! on = Some (OverlayDiv (Some (canvas_data c)))
                      /\ parentElement pg1 !! on = Some w
                      /\ styleFilter pg1 = styleFilter pg
       | _, _ =>
           o = None
           /\ styleFilter pg1 = <[e := blurIntensity st]> (styleFilter pg)
           /\ forall n, is_overlay pg1 n = is_overlay pg n
       end
    /\ page_numbered pg1
    /\ (forall n, (n < fresh pg)%nat -> n ≠ e ->
          parentElement pg1 !! n = parentElement pg !! n)
    /\ (forall n, (n < fresh pg)%nat -> created pg1 !! n = created pg !! n).
Proof.
  intros Hnum Hp Hn Henc.
  destruct (ensureWrapper_shape e p pg Hnum Hp)
    as (w & pg' & Hens & Hw & Hnum' & Hisw & Hpe & Hfr & Hbl & Hsf & Hov & Hfp & Hfc).
  assert (Hlt : (e < fresh pg' /\ w < fresh pg')%nat) by (apply (proj1 Hnum' e w Hpe)).
  assert (He : (e < fresh pg)%nat) by (apply (proj1 Hnum e p Hp)).
  unfold applyBlurredOverlay.
  rewrite bool_decide_eq_false_2 by (rewrite Hn; by intros [? ?]).
  rewrite Hens.
  assert (Hcase : (css = false /\ exists c, canvas = Some c /\ originClean c = true)
                  \/ (css = true \/ canvas = None)).
  { unfold encodes in Henc. destruct css, canvas; cbn in Henc; eauto. }
  destruct Hcase as [[-> (c & -> & Hclean)] | Hcase].
  - unfold makeOverlay, toDataURL. rewrite Hclean. cbn [negb].
    set (on := fresh pg').
    set (pgO := appendChild w on (snd (createElement (OverlayDiv (Some (canvas_data c))) pg'))).
    assert (HnumO : page_numbered pgO).
    { apply appendChild_numbered; [| cbn; lia | cbn; lia].
      by apply createElement_numbered. }
    assert (HwO : (w < fresh pgO)%nat) by (cbn; lia).
    destruct (badge_shape e w (Some on) pgO HnumO HwO)
      as (HnumB & HblB & HpbB & HcbB & HsfB & HfrB & HfpB & HfcB & HwB & HovB).
    set (pg1 := set_blurredElements e _ _) in *.
    exists pg1, w, (Some on), (fresh pgO).
    split; [reflexivity |].
    split; [rewrite HblB; cbn; by rewrite Hbl |].
    split; [done |].
    split; [rewrite HwB; unfold is_wrapper in *; cbn; by rewrite lookup_insert_ne by lia |].
    split; [rewrite HfpB by (cbn; lia); cbn; by rewrite lookup_insert_ne by lia |].
    split; [exact HpbB |]. split; [exact HcbB |].
    split.
    { exists on. split; [done |].
      split; [rewrite HfcB by (cbn; lia); cbn; by rewrite lookup_insert_eq |].
      split; [rewrite HfpB by (cbn; lia); cbn; by rewrite lookup_insert_eq |].
      rewrite HsfB. cbn. exact Hsf. }
    split; [exact HnumB |].
    split.
    + intros n Hlt_n Hne. rewrite HfpB by (cbn; lia). cbn.
      rewrite lookup_insert_ne by (unfold on; lia). by apply Hfp.
    + intros n Hlt_n. rewrite HfcB by (cbn; lia). cbn.
      rewrite lookup_insert_ne by (unfold on; lia). by apply Hfc.
  - assert (Hmk : makeOverlay st e w canvas css pg'
                  = Completed (None, set_styleFilter e (blurIntensity st) pg')).
    { unfold makeOverlay. destruct Hcase as [-> | ->]; [done | by destruct (negb css)]. }
    rewrite Hmk.
    set (pgS := set_styleFilter e (blurIntensity st) pg').
    assert (HnumS : page_numbered pgS) by (by apply set_styleFilter_numbered).
    assert (HwS : (w < fresh pgS)%nat) by (cbn; lia).
    destruct (badge_shape e w None pgS HnumS HwS)
      as (HnumB & HblB & HpbB & HcbB & HsfB & HfrB & HfpB & HfcB & HwB & HovB).
    set (pg1 := set_blurredElements e _ _) in *.
    exists pg1, w, None, (fresh pgS).
    split; [reflexivity |].
    split; [rewrite HblB; cbn; by rewrite Hbl |].
    split; [done |].
    split; [rewrite HwB; exact Hisw |].
    split; [rewrite HfpB by (cbn; lia); exact Hpe |].
    split; [exact HpbB |]. split; [exact HcbB |].
    split.
    { assert (Hres : None = (None : option node)
                     /\ styleFilter pg1 = <[e := blurIntensity st]> (styleFilter pg)
                     /\ forall n, is_overlay pg1 n = is_overlay pg n).
      { split; [done |]. split; [rewrite HsfB; cbn; by rewrite Hsf |].
        intros n. rewrite HovB. rewrite <- Hov. done. }
      destruct Hcase as [-> | ->]; [exact Hres | by destruct (negb css)]. }
    split; [exact HnumB |].
    split.
    + intros n Hlt_n Hne. rewrite HfpB by (cbn; lia). by apply Hfp.
    + intros n Hlt_n. rewrite HfcB by (cbn; lia). by apply Hfc.
Qed.

(** The page after a call of [applyBlurredOverlay] whose [toDataURL]
    throws: the wrapper is in place around the image, an overlay element
    has been created and is in no parent, and neither the map nor any
    style has changed. *)
Lemma applyBlurredOverlay_tainted_shape (st : settings) (e p : node)
    (canvas : option canvas) (css : bool) (pg : page) :
  page_numbered pg ->
  parentElement pg !! e = Some p ->
  blurredElements pg !! e = None ->
  encodes canvas css = false ->
  exists pgR w on,
    applyBlurredOverlay st e canvas css pg = Raised pgR
    /\ page_numbered pgR
    /\ w = (if is_wrapper pg p then p else fresh pg)
    /\ is_wrapper pgR w = true
    /\ parentElement pgR !! e = Some w
    /\ blurredElements pgR = blurredElements pg
    /\ styleFilter pgR = styleFilter pg
    /\ (fresh pg <= on < fresh pgR)%nat
    /\ created pgR !! on = Some (OverlayDiv None)
    /\ parentElement pgR !! on = None
    /\ (forall n, n ≠ on -> is_overlay pgR n = is_overlay pg n).
Proof.
  intros Hnum Hp Hn Henc.
  destruct (ensureWrapper_shape e p pg Hnum Hp)
    as (w & pg' & Hens & Hw & Hnum' & Hisw & Hpe & Hfr & Hbl & Hsf & Hov & Hfp & Hfc).
  unfold applyBlurredOverlay.
  rewrite bool_decide_eq_false_2 by (rewrite Hn; by intros [? ?]).
  rewrite Hens.
  unfold encodes in Henc. unfold makeOverlay.
  destruct (negb css); [| done]. destruct canvas as [c |]; [| done].
  unfold toDataURL. rewrite Henc.
  eexists _, w, (fresh pg'). split; [reflexivity |].
  split; [by apply createElement_numbered |].
  split; [done |].
  split.
  { unfold is_wrapper in *; cbn.
    rewrite lookup_insert_ne; [done |].
    assert ((e < fresh pg' /\ w < fresh pg')%nat) by (apply (proj1 Hnum' e w Hpe)). lia. }
  split; [exact Hpe |]. split; [exact Hbl |]. split; [exact Hsf |].
  split; [cbn; lia |].
  split; [cbn; by rewrite lookup_insert_eq |].
  split; [cbn; by apply numbered_fresh_parent |].
  intros n Hne. rewrite <- Hov. unfold is_overlay; cbn.
  by rewrite lookup_insert_ne.
Qed.

Lemma page_numbered_sample_page : page_numbered sample_page.
Proof.
  split; [| split].
  - intros n p H. cbn in H. apply lookup_singleton_Some in H as [<- <-]. cbn. lia.
  - intros n l H. cbn in H. apply lookup_singleton_Some in H as [<- <-]. cbn.
    split; [lia |]. intros m Hm. apply list_elem_of_singleton in Hm as ->. lia.
  - intros n k H. cbn in H. by rewrite lookup_empty in H.
Qed.

(** X12.  [blurImage] on an attached image that is not tracked yet always
    returns and stores one record, under a wrapper that is the parent of
    the image when that is a wrapper already and a new element otherwise,
    with a new badge in the wrapper.  When the canvas code of the [try]
    block ends well and [toDataURL] returns, the record names a new overlay
    in the wrapper whose background is the canvas, and no CSS filter is
    set.  When the canvas code ends well and [toDataURL] throws, the
    [catch] runs the CSS fallback on the page as the exception left it: the
    record names no overlay, the image gets the CSS filter of radius
    [blurIntensity], and the overlay element that was created before
    [toDataURL] stays without a parent.  When the canvas code throws, the
    record names no overlay, the image gets the CSS filter, and no overlay
    element is created. *)
Theorem blurImage_outcomes (st : settings) (clean : bool)
    (canvasCode : outcome (list Z)) (e p : node) (pg : page) :
  page_numbered pg ->
  parentElement pg !! e = Some p ->
  blurredElements pg !! e = None ->
  exists pg1 w o b,
    blurImage st clean canvasCode e pg = Completed pg1
    /\ blurredElements pg1 = <[e := Rec w o b]> (blurredElements pg)
    /\ w = (if is_wrapper pg p then p else fresh pg)
    /\ is_wrapper pg1 w = true
    /\ parentElement pg1 !! e = Some w
    /\ parentElement pg1 !! b = Some w
    /\ created pg1 !! b = Some BadgeDiv
    /\ match canvasCode, clean with
       | Yields c, true =>
           exists on, o = Some on
                      /\ created pg1 !! on = Some (OverlayDiv (Some c))
                      /\ parentElement pg1 !! on = Some w
                      /\ styleFilter pg1 = styleFilter pg
       | Yields c, false =>
           o = None
           /\ styleFilter pg1 = <[e := blurIntensity st]> (styleFilter pg)
           /\ exists on, (fresh pg <= on)%nat
                         /\ on ≠ b
                         /\ created pg1 !! on = Some (OverlayDiv None)
                         /\ parentElement pg1 !! on = None
                         /\ forall n, n ≠ on -> is_overlay pg1 n = is_overlay pg n
       | Throws, _ =>
           o = None
           /\ styleFilter pg1 = <[e := blurIntensity st]> (styleFilter pg)
           /\ forall n, is_overlay pg1 n = is_overlay pg n
       end.
Proof.
  intros Hnum Hp Hn. unfold blurImage. destruct canvasCode as [c |].
  - destruct clean.
    + destruct (applyBlurredOverlay_shape st e p (Some (Canvas c true)) false pg
                  Hnum Hp Hn eq_refl)
        as (pg1 & w & o & b & Hrun & Hmap & Hw & Hisw & Hpe & Hpb & Hb & Ho & _).
      rewrite Hrun. by exists pg1, w, o, b.
    + destruct (applyBlurredOverlay_tainted_shape st e p (Some (Canvas c false)) false pg
                  Hnum Hp Hn eq_refl)
        as (pgR & w & on & Hrun & HnumR & Hw & HiswR & HpeR & HblR & HsfR & Hon
            & HcrR & HpoR & HovR).
      rewrite Hrun. unfold applyCSSBlur.
      rewrite bool_decide_eq_false_2 by (rewrite HblR, Hn; by intros [? ?]).
      assert (HnR : blurredElements (set_styleFilter e (blurIntensity st) pgR) !! e = None)
        by (cbn; by rewrite HblR).
      destruct (applyBlurredOverlay_shape st e w None true
                  (set_styleFilter e (blurIntensity st) pgR)
                  (set_styleFilter_numbered _ _ _ HnumR) HpeR HnR eq_refl)
        as (pg1 & w' & o & b & Hrun1 & Hmap & Hw' & Hisw & Hpe & Hpb & Hb
            & (Ho & Hsf & Hov) & Hnum1 & Hfp & Hfc).
      assert (Hww : w' = w).
      { rewrite Hw'. unfold is_wrapper in *. cbn. by rewrite HiswR. }
      clear Hw'. subst w'.
      assert (Hlt : (e < fresh pg)%nat) by (apply (proj1 Hnum e p Hp)).
      exists pg1, w, o, b. split; [exact Hrun1 |].
      split; [rewrite Hmap; cbn; by rewrite HblR |].
      split; [exact Hw |]. split; [exact Hisw |]. split; [exact Hpe |].
      split; [exact Hpb |]. split; [exact Hb |].
      split; [exact Ho |].
      split; [rewrite Hsf; cbn; rewrite HsfR; apply insert_insert_eq |].
      exists on. split; [lia |].
      assert (Hcr1 : created pg1 !! on = Some (OverlayDiv None)).
      { rewrite Hfc by (cbn; lia). exact HcrR. }
      split; [intros Heq; rewrite Heq in Hcr1;
              pose proof (eq_trans (eq_sym Hcr1) Hb) as Habs; discriminate Habs |].
      split; [exact Hcr1 |].
      split; [rewrite Hfp by (cbn; lia); exact HpoR |].
      intros n Hne. rewrite Hov. by apply HovR.
  - assert (Hgoal : exists pg1 w o b,
               applyCSSBlur st e pg = Completed pg1
               /\ blurredElements pg1 = <[e := Rec w o b]> (blurredElements pg)
               /\ w = (if is_wrapper pg p then p else fresh pg)
               /\ is_wrapper pg1 w = true
               /\ parentElement pg1 !! e = Some w
               /\ parentElement pg1 !! b = Some w
               /\ created pg1 !! b = Some BadgeDiv
               /\ o = None
               /\ styleFilter pg1 = <[e := blurIntensity st]> (styleFilter pg)
               /\ forall n, is_overlay pg1 n = is_overlay pg n).
    { unfold applyCSSBlur.
      rewrite bool_decide_eq_false_2 by (rewrite Hn; by intros [? ?]).
      destruct (applyBlurredOverlay_shape st e p None true
                  (set_styleFilter e (blurIntensity st) pg)
                  (set_styleFilter_numbered _ _ _ Hnum) Hp Hn eq_refl)
        as (pg1 & w & o & b & Hrun & Hmap & Hw & Hisw & Hpe & Hpb & Hb
            & (Ho & Hsf & Hov) & _).
      exists pg1, w, o, b. repeat split; try done.
      rewrite Hsf. cbn. apply insert_insert_eq. }
    destruct Hgoal as (pg1 & w & o & b & H). exists pg1, w, o, b.
    by destruct clean.
Qed.

(** X12 on the sample page, for a canvas whose [toDataURL] throws: the
    wrapper is node 2, the overlay without a parent is node 3, the badge is
    node 4. *)
Lemma blurImage_outcomes_witness :
  exists pg1,
    blurImage default_settings false (Yields sample_canvas) 1%nat sample_page
    = Completed pg1
    /\ blurredElements pg1 !! 1%nat = Some (Rec 2%nat None 4%nat)
    /\ styleFilter pg1 !! 1%nat = Some 25%Q
    /\ created pg1 !! 3%nat = Some (OverlayDiv None)
    /\ parentElement pg1 !! 3%nat = None.
Proof.
  destruct (blurImage_outcomes default_settings false (Yields sample_canvas) 1%nat 0%nat
              sample_page page_numbered_sample_page eq_refl eq_refl)
    as (pg1 & w & o & b & Hrun & _).
  exists pg1. split; [exact Hrun |].
  injection Hrun as <-. repeat split.
Defined.

(** An image without a parent: the call throws and the image stays
    untracked. *)
Lemma applyBlurredOverlay_detached (st : settings) (e : node)
    (canvas : option canvas) (css : bool) (pg : page) :
  parentElement pg !! e = None ->
  blurredElements pg !! e = None ->
  exists pg',
    applyBlurredOverlay st e canvas css pg = Raised pg'
    /\ blurredElements pg' = blurredElements pg
    /\ parentElement pg' = parentElement pg
    /\ styleFilter pg' = styleFilter pg.
Proof.
  intros Hp Hn. unfold applyBlurredOverlay, ensureWrapper.
  rewrite bool_decide_eq_false_2 by (rewrite Hn; by intros [? ?]).
  rewrite Hp. cbn. by eexists.
Qed.

Lemma applyCSSBlur_detached (st : settings) (e : node) (pg : page) :
  parentElement pg !! e = None ->
  blurredElements pg !! e = None ->
  exists pg', applyCSSBlur st e pg = Raised pg' /\ blurredElements pg' !! e = None.
Proof.
  intros Hp Hn. unfold applyCSSBlur.
  rewrite bool_decide_eq_false_2 by (rewrite Hn; by intros [? ?]).
  destruct (applyBlurredOverlay_detached st e None true
              (set_styleFilter e (blurIntensity st) pg) Hp Hn)
    as (pg' & -> & Hb & _).
  exists pg'. split; [done |]. by rewrite Hb.
Qed.

(** The exception of a detached image leaves [blurImage]: the fallback
    of its [catch] throws as well. *)
Lemma blurImage_detached (st : settings) (clean : bool) (canvasCode : outcome (list Z))
    (e : node) (pg : page) :
  parentElement pg !! e = None ->
  blurredElements pg !! e = None ->
  exists pg',
    blurImage st clean canvasCode e pg = Raised pg'
    /\ blurredElements pg' !! e = None.
Proof.
  intros Hp Hn.
  unfold blurImage. destruct canvasCode as [data |];
    [| by apply applyCSSBlur_detached].
  destruct (applyBlurredOverlay_detached st e (Some (Canvas data clean)) false pg Hp Hn)
    as (pg' & -> & Hb & Hpar & _).
  apply applyCSSBlur_detached; [by rewrite Hpar | by rewrite Hb].
Qed.

Lemma applyCSSBlur_attached (st : settings) (e : node) (pg : page) :
  is_Some (blurredElements pg !! e) \/ is_Some (parentElement pg !! e) ->
  exists pg1, applyCSSBlur st e pg = Completed pg1.
Proof.
  intros H. unfold applyCSSBlur. case_bool_decide as Ht; [by eexists |].
  destruct H as [H | Hp]; [done |].
  destruct (blurredElements pg !! e) as [r |] eqn:E; [exfalso; apply Ht; by eexists |].
  destruct (applyBlurredOverlay_untracked st e None true
              (set_styleFilter e (blurIntensity st) pg) Hp E eq_refl) as (pg1 & r & H & _).
  by exists pg1.
Qed.

Lemma blurImage_completed (st : settings) (clean : bool) (canvasCode : outcome (list Z))
    (e : node) (pg pg1 : page) :
  blurImage st clean canvasCode e pg = Completed pg1 ->
  is_Some (blurredElements pg1 !! e).
Proof.
  unfold blurImage. destruct canvasCode as [data |].
  - destruct (applyBlurredOverlay st e (Some (Canvas data clean)) false pg)
      as [pg' | pg'] eqn:E.
    + intros [= <-]. by eapply applyBlurredOverlay_completed.
    + apply applyCSSBlur_completed.
  - apply applyCSSBlur_completed.
Qed.

Lemma blurImage_tracked (st : settings) (clean : bool) (canvasCode : outcome (list Z))
    (e : node) (pg : page) :
  is_Some (blurredElements pg !! e) -> blurImage st clean canvasCode e pg = Completed pg.
Proof.
  intros Ht. unfold blurImage. destruct canvasCode as [data |].
  - by rewrite applyBlurredOverlay_tracked.
  - by apply applyCSSBlur_tracked.
Qed.

(** [blurImage] and [applyBlur] on an attached image end with the image
    tracked, however the canvas code of the [try] block and [toDataURL]
    end. *)
Lemma blurImage_attached (st : settings) (clean : bool) (canvasCode : outcome (list Z))
    (e : node) (pg : page) :
  is_Some (parentElement pg !! e) ->
  exists pg1,
    blurImage st clean canvasCode e pg = Completed pg1
    /\ is_Some (blurredElements pg1 !! e).
Proof.
  intros Hp.
  assert (Hrun : exists pg1, blurImage st clean canvasCode e pg = Completed pg1).
  { destruct (blurredElements pg !! e) as [r |] eqn:Ht.
    { exists pg. apply blurImage_tracked. rewrite Ht. by eexists. }
    unfold blurImage. destruct canvasCode as [data |].
    - destruct clean.
      + destruct (applyBlurredOverlay_untracked st e (Some (Canvas data true)) false pg
                    Hp Ht eq_refl) as (pg1 & r & -> & _). by exists pg1.
      + destruct (applyBlurredOverlay_tainted st e (Some (Canvas data false)) false pg
                    Hp Ht eq_refl) as (pg1 & -> & _ & Hp1).
        apply applyCSSBlur_attached. by right.
    - apply applyCSSBlur_attached. by right. }
  destruct Hrun as [pg1 H]. exists pg1. split; [exact H |].
  by eapply blurImage_completed.
Qed.

(** The map only grows under the blur calls. *)
Lemma applyBlurredOverlay_grows (st : settings) (e : node) (canvas : option canvas)
    (css : bool) (pg : page) (n : node) :
  is_Some (blurredElements pg !! n) ->
  forall pg1,
    applyBlurredOverlay st e canvas css pg = Completed pg1
    \/ applyBlurredOverlay st e canvas css pg = Raised pg1 ->
    is_Some (blurredElements pg1 !! n).
Proof.
  intros Hn pg1 [H | H].
  - revert H. unfold applyBlurredOverlay. case_bool_decide as Ht.
    + by intros [= <-].
    + destruct (ensureWrapper e pg) as [[w pg'] | [w pg']] eqn:E; [| done].
      assert (Hb : blurredElements pg' = blurredElements pg).
      { unfold ensureWrapper in E. destruct (parentElement pg !! e) as [p |]; [| done].
        destruct (is_wrapper pg p); by injection E as <- <-. }
      destruct (makeOverlay_cases st e w canvas css pg') as (o & pg2 & -> & Hb2 & _).
      destruct (encodes canvas css); [| done].
      cbn. intros [= <-]. cbn. rewrite Hb2, Hb.
      destruct (decide (e = n)) as [-> | Hne];
        [rewrite lookup_insert_eq; by eexists | by rewrite lookup_insert_ne].
  - apply applyBlurredOverlay_raised in H. by rewrite H.
Qed.

Lemma applyCSSBlur_grows (st : settings) (e : node) (pg : page) (n : node) :
  is_Some (blurredElements pg !! n) ->
  forall pg1,
    applyCSSBlur st e pg = Completed pg1 \/ applyCSSBlur st e pg = Raised pg1 ->
    is_Some (blurredElements pg1 !! n).
Proof.
  intros Hn pg1. unfold applyCSSBlur. case_bool_decide.
  - intros [[= <-] | [=]]. done.
  - by apply applyBlurredOverlay_grows.
Qed.

Lemma blurImage_grows (st : settings) (clean : bool) (canvasCode : outcome (list Z))
    (e : node) (pg : page) (n : node) :
  is_Some (blurredElements pg !! n) ->
  forall pg1,
    blurImage st clean canvasCode e pg = Completed pg1
    \/ blurImage st clean canvasCode e pg = Raised pg1 ->
    is_Some (blurredElements pg1 !! n).
Proof.
  intros Hn pg1. unfold blurImage. destruct canvasCode as [data |].
  - destruct (applyBlurredOverlay st e (Some (Canvas data clean)) false pg)
      as [pg' | pg'] eqn:E.
    + intros [[= <-] | [=]]. eapply applyBlurredOverlay_grows; [exact Hn | by left].
    + apply applyCSSBlur_grows.
      eapply applyBlurredOverlay_grows; [exact Hn | by right].
  - by apply applyCSSBlur_grows.
Qed.

Lemma applyBlur_completes (st : settings) (clean : bool) (canvasCode : outcome (list Z))
    (e : node) (r : results) (pg : page) :
  (exists pg1, applyBlur st IMG clean canvasCode e r pg = Completed pg1)
  <-> is_Some (blurredElements pg !! e) \/ is_Some (parentElement pg !! e).
Proof.
  split.
  - intros [pg1 H].
    destruct (blurredElements pg !! e) as [rc |] eqn:Ht; [left; by eexists |].
    destruct (parentElement pg !! e) as [p |] eqn:Hp; [right; by eexists |].
    exfalso. unfold applyBlur in H. destruct (isFallback r).
    + destruct (applyCSSBlur_detached st e pg Hp Ht) as (pg' & H' & _). congruence.
    + destruct (blurImage_detached st clean canvasCode e pg Hp Ht) as (pg' & H' & _).
      congruence.
  - intros H. unfold applyBlur. destruct (isFallback r).
    + by apply applyCSSBlur_attached.
    + destruct H as [Ht | Hp].
      * exists pg. by apply blurImage_tracked.
      * destruct (blurImage_attached st clean canvasCode e pg Hp) as (pg1 & H & _).
        by exists pg1.
Qed.

Lemma applyBlur_completed (st : settings) (clean : bool) (canvasCode : outcome (list Z))
    (e : node) (r : results) (pg pg1 : page) :
  applyBlur st IMG clean canvasCode e r pg = Completed pg1 ->
  is_Some (blurredElements pg1 !! e).
Proof.
  unfold applyBlur. destruct (isFallback r).
  - apply applyCSSBlur_completed.
  - apply blurImage_completed.
Qed.

Lemma applyBlur_raised (st : settings) (clean : bool) (canvasCode : outcome (list Z))
    (e : node) (r : results) (pg pg1 : page) :
  applyBlur st IMG clean canvasCode e r pg = Raised pg1 ->
  blurredElements pg1 !! e = None.
Proof.
  intros H.
  assert (Hnot : ~ (is_Some (blurredElements pg !! e)
                    \/ is_Some (parentElement pg !! e))).
  { intros Hs. apply (applyBlur_completes st clean canvasCode e r pg) in Hs as [pg2 Hs].
    congruence. }
  destruct (blurredElements pg !! e) as [rc |] eqn:Ht;
    [exfalso; apply Hnot; left; by eexists |].
  destruct (parentElement pg !! e) as [p |] eqn:Hp;
    [exfalso; apply Hnot; right; by eexists |].
  unfold applyBlur in H. destruct (isFallback r).
  - destruct (applyCSSBlur_detached st e pg Hp Ht) as (pg' & H' & Hu). congruence.
  - destruct (blurImage_detached st clean canvasCode e pg Hp Ht) as (pg' & H' & Hu).
    congruence.
Qed.

Lemma applyBlur_grows (st : settings) (clean : bool) (canvasCode : outcome (list Z))
    (e : node) (r : results) (pg : page) (n : node) :
  is_Some (blurredElements pg !! n) ->
  forall pg1,
    applyBlur st IMG clean canvasCode e r pg = Completed pg1
    \/ applyBlur st IMG clean canvasCode e r pg = Raised pg1 ->
    is_Some (blurredElements pg1 !! n).
Proof.
  intros Hn pg1. unfold applyBlur. destruct (isFallback r).
  - by apply applyCSSBlur_grows.
  - by apply blurImage_grows.
Qed.

(** X13.  [applyBlur] on an image returns exactly when the image is
    tracked already or has a parent, and the image is tracked afterwards;
    otherwise the exception of the detached image leaves the call, through
    the [catch] of [blurImage] as well, and the image stays untracked.
    No entry of [blurredElements] is lost either way.  This holds however
    the canvas code and [toDataURL] end. *)
Theorem applyBlur_image (st : settings) (clean : bool) (canvasCode : outcome (list Z))
    (e : node) (r : results) (pg : page) :
  ((exists pg1, applyBlur st IMG clean canvasCode e r pg = Completed pg1)
   <-> is_Some (blurredElements pg !! e) \/ is_Some (parentElement pg !! e))
  /\ (forall pg1, applyBlur st IMG clean canvasCode e r pg = Completed pg1 ->
        is_Some (blurredElements pg1 !! e))
  /\ (forall pg1, applyBlur st IMG clean canvasCode e r pg = Raised pg1 ->
        blurredElements pg1 !! e = None)
  /\ (forall pg1 n,
        applyBlur st IMG clean canvasCode e r pg = Completed pg1
        \/ applyBlur st IMG clean canvasCode e r pg = Raised pg1 ->
        is_Some (blurredElements pg !! n) -> is_Some (blurredElements pg1 !! n)).
Proof.
  split; [apply applyBlur_completes |].
  split; [apply applyBlur_completed |].
  split; [apply applyBlur_raised |].
  intros pg1 n H Hn. by apply (applyBlur_grows st clean canvasCode e r pg n Hn pg1).
Qed.

(** X14.  [processImage] adds an image to [processedElements] exactly when
    the image has a size, could be drawn, was flagged, and is tracked
    already or attached; the image is tracked afterwards.  An image that
    the detector found safe is never added: the call of the missing
    method [removeBlur] throws before [processedElements.add]. *)
Theorem processImage_adds (st : settings) (clean : bool) (canvasCode : outcome (list Z))
    (naturalWidth naturalHeight : Z) (drawImage : outcome unit) (r : results)
    (img : node) (processedElements : gset node) (pg : page) :
  img ∉ processedElements ->
  (img ∈ fst (processImage st clean canvasCode naturalWidth naturalHeight drawImage r
                img (processedElements, pg))
   <-> naturalWidth ≠ 0 /\ naturalHeight ≠ 0 /\ drawImage = Yields tt
       /\ shouldBlur r = true
       /\ (is_Some (blurredElements pg !! img) \/ is_Some (parentElement pg !! img)))
  /\ (img ∈ fst (processImage st clean canvasCode naturalWidth naturalHeight drawImage r
                   img (processedElements, pg)) ->
      is_Some (blurredElements
                 (snd (processImage st clean canvasCode naturalWidth naturalHeight
                         drawImage r img (processedElements, pg))) !! img)).
Proof.
  intros Hnew. unfold processImage.
  destruct (Z.eqb_spec naturalWidth 0) as [Hw | Hw]; cbn [orb].
  { split; [| done]. split; [done | by intros (? & _)]. }
  destruct (Z.eqb_spec naturalHeight 0) as [Hh | Hh].
  { split; [| done]. split; [done | by intros (_ & ? & _)]. }
  destruct drawImage as [[] |].
  2:{ split; [| done]. split; [done | by intros (_ & _ & ? & _)]. }
  destruct (shouldBlur r).
  2:{ split; [| done]. split; [done | by intros (_ & _ & _ & ? & _)]. }
  pose proof (applyBlur_completes st clean canvasCode img r pg) as Hiff.
  destruct (applyBlur st IMG clean canvasCode img r pg) as [pg1 | pg1] eqn:E;
    cbn [fst snd].
  - split.
    + split; [| intros _; apply elem_of_union; left; by apply elem_of_singleton].
      intros _. repeat split; try done. apply Hiff. by exists pg1.
    + intros _. by eapply applyBlur_completed.
  - split; [| done]. split; [done |].
    intros (_ & _ & _ & _ & H). destruct (proj2 Hiff H) as [pg2 H2]. congruence.
Qed.

Lemma processImage_adds_witness :
  (1%nat ∉ (∅ : gset node))
  /\ 1%nat ∈ fst (processImage default_settings true (Yields sample_canvas) 1 1
                    (Yields tt) flagged_results 1%nat (∅, sample_page)).
Proof.
  assert (Hnew : 1%nat ∉ (∅ : gset node)) by apply not_elem_of_empty.
  split; [exact Hnew |].
  apply (proj1 (processImage_adds default_settings true (Yields sample_canvas) 1 1
                  (Yields tt) flagged_results 1%nat ∅ sample_page Hnew)).
  repeat split; try done. right. by exists 0%nat.
Defined.

(** X15.  [processImage] never removes an entry of [blurredElements] nor an
    element of [processedElements]: no path of it takes a blur away. *)
Theorem processImage_monotone (st : settings) (clean : bool)
    (canvasCode : outcome (list Z))
    (naturalWidth naturalHeight : Z) (drawImage : outcome unit) (r : results)
    (img : node) (processedElements : gset node) (pg : page) (n : node) :
  (n ∈ processedElements ->
   n ∈ fst (processImage st clean canvasCode naturalWidth naturalHeight drawImage r img
              (processedElements, pg)))
  /\ (is_Some (blurredElements pg !! n) ->
      is_Some (blurredElements
                 (snd (processImage st clean canvasCode naturalWidth naturalHeight
                         drawImage r img (processedElements, pg))) !! n)).
Proof.
  unfold processImage.
  destruct ((naturalWidth =? 0) || (naturalHeight =? 0)); [done |].
  destruct drawImage as [[] |]; [| done].
  destruct (shouldBlur r); [| done].
  pose proof (applyBlur_grows st clean canvasCode img r pg n) as Hg.
  destruct (applyBlur st IMG clean canvasCode img r pg) as [pg1 | pg1] eqn:E;
    cbn [fst snd].
  - split; [intros Hin; apply elem_of_union; by right |].
    intros Hn. apply (Hg Hn). by left.
  - split; [done |]. intros Hn. apply (Hg Hn). by right.
Qed.
(** ** The page under [appendChild], [insertBefore] and [remove] *)

Lemma detach_children (n m : node) (pg : page) :
  default [] (detach n pg !! m)
  = if bool_decide (parentElement pg !! n = Some m)
    then filter (fun k => k ≠ n) (children pg m)
    else children pg m.
Proof.
  unfold detach. destruct (parentElement pg !! n) as [q |] eqn:E.
  - case_bool_decide as Hq.
    + injection Hq as ->. by rewrite lookup_insert_eq.
    + rewrite lookup_insert_ne by congruence. done.
  - by rewrite bool_decide_eq_false_2.
Qed.

Lemma detach_children_None (n m : node) (pg : page) :
  parentElement pg !! n = None -> default [] (detach n pg !! m) = children pg m.
Proof. intros H. unfold detach. by rewrite H. Qed.

Lemma children_appendChild (par n m : node) (pg : page) :
  children (appendChild par n pg) m
  = if bool_decide (m = par)
    then default [] (detach n pg !! m) ++ [n]
    else default [] (detach n pg !! m).
Proof.
  unfold children at 1, appendChild; cbn. case_bool_decide as Hm.
  - subst. by rewrite lookup_insert_eq.
  - by rewrite lookup_insert_ne.
Qed.

Lemma children_insertBefore (par n ref m : node) (pg : page) :
  children (insertBefore par n ref pg) m
  = if bool_decide (m = par)
    then insert_before n ref (default [] (detach n pg !! m))
    else default [] (detach n pg !! m).
Proof.
  unfold children at 1, insertBefore; cbn. case_bool_decide as Hm.
  - subst. by rewrite lookup_insert_eq.
  - by rewrite lookup_insert_ne.
Qed.

Lemma children_removeNode (n m : node) (pg : page) :
  children (removeNode n pg) m = default [] (detach n pg !! m).
Proof. done. Qed.

Lemma children_createElement (k : node_kind) (m : node) (pg : page) :
  children (snd (createElement k pg)) m = children pg m.
Proof. done. Qed.

Lemma filter_ne_id (l : list node) (x : node) :
  x ∉ l -> filter (fun k => k ≠ x) l = l.
Proof.
  induction l as [| a l IH]; [done |]. intros Hx.
  apply not_elem_of_cons in Hx as [Hne Hx].
  rewrite filter_cons_True by done. by rewrite IH.
Qed.

(** Wrapping an element of a child list and unwrapping it again. *)
Lemma wrap_unwrap_list (l : list node) (e w : node) :
  NoDup l -> e ∈ l -> w ∉ l -> e ≠ w ->
  filter (fun k => k ≠ w)
    (insert_before e w (filter (fun k => k ≠ e) (insert_before w e l))) = l.
Proof.
  intros Hnd He Hw Hne. induction l as [| a l IH]; [by apply elem_of_nil in He |].
  apply NoDup_cons in Hnd as [Ha Hnd].
  apply not_elem_of_cons in Hw as [Hwa Hw].
  cbn [insert_before]. case_bool_decide as Hae.
  - subst a. rewrite filter_cons_True by congruence.
    rewrite filter_cons_False by (intros H; by apply H).
    rewrite (filter_ne_id l e) by done.
    cbn [insert_before]. rewrite bool_decide_eq_true_2 by congruence.
    rewrite filter_cons_True by congruence.
    rewrite filter_cons_False by (intros H; by apply H).
    by rewrite (filter_ne_id l w).
  - apply elem_of_cons in He as [He | He]; [congruence |].
    rewrite filter_cons_True by congruence.
    cbn [insert_before]. rewrite bool_decide_eq_false_2 by congruence.
    rewrite filter_cons_True by congruence.
    by rewrite IH.
Qed.

Lemma singleton_list (l : list node) (w : node) :
  NoDup l -> (forall n, n ∈ l <-> n = w) -> l = [w].
Proof.
  intros Hnd Hl. destruct l as [| a l].
  - assert (H : w ∈ []) by (by apply Hl). by apply elem_of_nil in H.
  - assert (Ha : a = w) by (apply Hl; by left). subst a.
    apply NoDup_cons in Hnd as [Hw _].
    destruct l as [| b l]; [done |].
    assert (Hb : b = w) by (apply Hl; right; by left). subst b.
    exfalso. apply Hw. by left.
Qed.


(** The page after the first blur of an image whose parent is not a
    wrapper, on a canvas that [toDataURL] encodes: a wrapper [w] takes the
    place of the image in the child list of the parent and holds the image,
    the overlay and the badge. *)
Lemma applyBlurredOverlay_wrap (st : settings) (e p : node) (c : canvas) (pg : page) :
  page_numbered pg ->
  parentElement pg !! e = Some p ->
  is_wrapper pg p = false ->
  blurredElements pg !! e = None ->
  originClean c = true ->
  exists pg1,
    applyBlurredOverlay st e (Some c) false pg = Completed pg1
    /\ blurredElements pg1
       = <[e := Rec (fresh pg) (Some (S (fresh pg))) (S (S (fresh pg)))]>
           (blurredElements pg)
    /\ parentElement pg1
       = <[S (S (fresh pg)) := fresh pg]>
           (<[S (fresh pg) := fresh pg]>
              (<[e := fresh pg]> (<[fresh pg := p]> (parentElement pg))))
    /\ created pg1
       = <[S (S (fresh pg)) := BadgeDiv]>
           (<[S (fresh pg) := OverlayDiv (Some (canvas_data c))]>
              (<[fresh pg := WrapperDiv]> (created pg)))
    /\ styleFilter pg1 = styleFilter pg
    /\ fresh pg1 = S (S (S (fresh pg)))
    /\ children pg1 (fresh pg) = [e; S (fresh pg); S (S (fresh pg))]
    /\ children pg1 p
       = filter (fun k => k ≠ e) (insert_before (fresh pg) e (children pg p))
    /\ (forall m, m ≠ p -> m ≠ fresh pg -> children pg1 m = children pg m).
Proof.
  intros Hnum Hp Hw Hn Hclean. pose proof Hnum as (Hpar & _ & _).
  destruct (Hpar e p Hp) as [He Hp'].
  set (w := fresh pg).
  set (pA := snd (createElement WrapperDiv pg)).
  set (pB := insertBefore p w e pA).
  set (pC := appendChild w e pB).
  set (pD := snd (createElement (OverlayDiv (Some (canvas_data c))) pC)).
  set (pE := appendChild w (S w) pD).
  set (pF := snd (createElement BadgeDiv pE)).
  set (pG := appendChild w (S (S w)) pF).
  exists (set_blurredElements e (Rec w (Some (S w)) (S (S w))) pG).
  split.
  { unfold applyBlurredOverlay, ensureWrapper.
    rewrite bool_decide_eq_false_2 by (rewrite Hn; by intros [? ?]).
    rewrite Hp, Hw. unfold makeOverlay, toDataURL. cbn [negb]. by rewrite Hclean. }
  split; [done |]. split; [done |]. split; [done |]. split; [done |].
  split; [done |].
  assert (HwA : parentElement pA !! w = None)
    by (apply (numbered_fresh_parent pg); [done | lia]).
  assert (HcB : forall m, children pB m
                          = if bool_decide (m = p)
                            then insert_before w e (children pg p)
                            else children pg m).
  { intros m. unfold pB. rewrite children_insertBefore, detach_children_None by exact HwA.
    unfold pA. rewrite children_createElement.
    case_bool_decide; by subst. }
  assert (HeB : parentElement pB !! e = Some p).
  { unfold pB; cbn. by rewrite lookup_insert_ne by lia. }
  assert (Hcw : children pg w = []).
  { unfold children. by rewrite (numbered_fresh_children pg w) by (done || lia). }
  assert (HcC : children pC w = [e]
                /\ children pC p
                   = filter (fun k => k ≠ e) (insert_before w e (children pg p))
                /\ forall m, m ≠ p -> m ≠ w -> children pC m = children pg m).
  { unfold pC. split; [| split].
    - rewrite children_appendChild, detach_children, HeB.
      rewrite (bool_decide_eq_false_2 (Some p = Some w)) by (intros [=]; lia).
      rewrite (bool_decide_eq_true_2 (w = w)) by done.
      rewrite HcB. rewrite (bool_decide_eq_false_2 (w = p)) by lia.
      by rewrite Hcw.
    - rewrite children_appendChild, detach_children, HeB.
      rewrite (bool_decide_eq_true_2 (Some p = Some p)) by done.
      rewrite (bool_decide_eq_false_2 (p = w)) by lia.
      rewrite HcB. by rewrite (bool_decide_eq_true_2 (p = p)) by done.
    - intros m Hmp Hmw.
      rewrite children_appendChild, detach_children, HeB.
      rewrite (bool_decide_eq_false_2 (m = w)) by done.
      rewrite (bool_decide_eq_false_2 (Some p = Some m)) by congruence.
      rewrite HcB. by rewrite (bool_decide_eq_false_2 (m = p)) by done. }
  destruct HcC as (HcCw & HcCp & HcCm).
  assert (HoD : parentElement pD !! S w = None).
  { unfold pD, pC, pB, pA; cbn. rewrite !lookup_insert_ne by lia.
    apply (numbered_fresh_parent pg); [done | lia]. }
  assert (HcE : forall m, children pE m
                          = if bool_decide (m = w) then [e; S w] else children pC m).
  { intros m. unfold pE. rewrite children_appendChild, detach_children_None by exact HoD.
    unfold pD. rewrite children_createElement.
    case_bool_decide as Hm; [| done]. subst m. by rewrite HcCw. }
  assert (HbF : parentElement pF !! S (S w) = None).
  { unfold pF, pE, pD, pC, pB, pA; cbn. rewrite !lookup_insert_ne by lia.
    apply (numbered_fresh_parent pg); [done | lia]. }
  assert (HcG : forall m, children pG m
                          = if bool_decide (m = w) then [e; S w; S (S w)]
                            else children pC m).
  { intros m. unfold pG. rewrite children_appendChild, detach_children_None by exact HbF.
    unfold pF. rewrite children_createElement, HcE.
    by case_bool_decide. }
  split; [| split].
  - change (children pG w = [e; S w; S (S w)]).
    by rewrite HcG, bool_decide_eq_true_2.
  - change (children pG p = filter (fun k => k ≠ e) (insert_before w e (children pg p))).
    rewrite HcG, bool_decide_eq_false_2 by lia. exact HcCp.
  - intros m Hmp Hmw. change (children pG m = children pg m).
    rewrite HcG, bool_decide_eq_false_2 by done. by apply HcCm.
Qed.

(** ** [removeAllBlurs] *)

Lemma unwrap_keeps (is_img : node -> bool) (w : node) (pg pg' : page) :
  unwrap is_img w pg = Completed pg' ->
  blurredElements pg' = blurredElements pg
  /\ styleFilter pg' = styleFilter pg
  /\ created pg' = created pg
  /\ fresh pg' = fresh pg.
Proof.
  unfold unwrap. destruct (wrappedImg is_img pg w) as [img |].
  - destruct (parentElement pg !! w) as [p |]; [| done].
    intros [= <-]. done.
  - by intros [= <-].
Qed.

Lemma forEach_unwrap_keeps (is_img : node -> bool) (l : list node) (pg pg' : page) :
  forEach (unwrap is_img) l pg = Completed pg' ->
  blurredElements pg' = blurredElements pg
  /\ styleFilter pg' = styleFilter pg
  /\ created pg' = created pg
  /\ fresh pg' = fresh pg.
Proof.
  revert pg. induction l as [| w l IH]; intros pg; cbn [forEach].
  - by intros [= <-].
  - destruct (unwrap is_img w pg) as [pg1 | pg1] eqn:E; [| done].
    intros H. apply IH in H. apply unwrap_keeps in E.
    destruct H as (-> & -> & -> & ->). done.
Qed.

(** X16.  [removeAllBlurs] forgets every tracked element and takes no
    CSS filter away: the [filter] that the CSS fallback wrote into the
    style of an element is still there after the call, and the elements
    that the engine created keep their classes. *)
Theorem removeAllBlurs_keeps_filter (is_img : node -> bool) (wrappers : list node)
    (pg pg' : page) :
  removeAllBlurs is_img wrappers pg = Completed pg' ->
  blurredElements pg' = ∅
  /\ styleFilter pg' = styleFilter pg
  /\ created pg' = created pg.
Proof.
  unfold removeAllBlurs.
  destruct (forEach (unwrap is_img) wrappers pg) as [pg1 | pg1] eqn:E; [| done].
  intros [= <-]. apply forEach_unwrap_keeps in E as (_ & ? & ? & _). done.
Qed.

Lemma removeAllBlurs_keeps_filter_witness :
  exists pg',
    removeAllBlurs (fun _ => true) [2%nat] css_blurred_page = Completed pg'
    /\ blurredElements css_blurred_page !! 1%nat = Some (Rec 2%nat None 3%nat)
    /\ blurredElements pg' = ∅
    /\ styleFilter pg' !! 1%nat = Some 25%Q
    /\ parentElement pg' !! 1%nat = Some 0%nat.
Proof.
  eexists. split; [reflexivity |]. split; [reflexivity |].
  split.
  - eapply (removeAllBlurs_keeps_filter (fun _ => true) [2%nat] css_blurred_page).
    reflexivity.
  - split; reflexivity.
Defined.
(** The wrappers that the page holds after the first blur of an image. *)
Lemma wrapped_page_wrappers (e p : node) (pg pg1 : page) (k : node_kind) :
  page_numbered pg ->
  parentElement pg !! e = Some p ->
  is_native pg e = true ->
  (forall n, is_wrapper pg n = true -> parentElement pg !! n = None) ->
  parentElement pg1
  = <[S (S (fresh pg)) := fresh pg]>
      (<[S (fresh pg) := fresh pg]>
         (<[e := fresh pg]> (<[fresh pg := p]> (parentElement pg)))) ->
  created pg1
  = <[S (S (fresh pg)) := BadgeDiv]>
      (<[S (fresh pg) := k]> (<[fresh pg := WrapperDiv]> (created pg))) ->
  k ≠ WrapperDiv ->
  forall l, selects_wrappers pg1 l <-> l = [fresh pg].
Proof.
  intros Hnum Hp Hnat Hnone Hpar Hcr Hk.
  pose proof Hnum as (Hpn & _ & _). destruct (Hpn e p Hp) as [Hlt_e Hlt_p].
  set (w := fresh pg) in *.
  assert (Hcre : created pg !! e = None).
  { unfold is_native in Hnat. by destruct (created pg !! e). }
  assert (Hw : forall n, is_wrapper pg1 n = true /\ is_Some (parentElement pg1 !! n)
                         <-> n = w).
  { intros n. split.
    - intros [Hisw [q Hq]].
      destruct (decide (n = w)) as [| Hnw]; [done |]. exfalso.
      unfold is_wrapper in Hisw. rewrite Hcr in Hisw.
      destruct (decide (n = S (S w))) as [-> | Hnb];
        [by rewrite lookup_insert_eq in Hisw |].
      rewrite lookup_insert_ne in Hisw by done.
      destruct (decide (n = S w)) as [-> | Hno].
      { rewrite lookup_insert_eq in Hisw. by destruct k. }
      rewrite lookup_insert_ne in Hisw by done.
      rewrite lookup_insert_ne in Hisw by done.
      destruct (decide (n = e)) as [-> | Hne]; [by rewrite Hcre in Hisw |].
      rewrite Hpar in Hq. rewrite !lookup_insert_ne in Hq by done.
      rewrite (Hnone n) in Hq; [done |]. exact Hisw.
    - intros ->. split.
      + unfold is_wrapper. rewrite Hcr.
        rewrite !lookup_insert_ne by lia. by rewrite lookup_insert_eq.
      + exists p. rewrite Hpar. rewrite !lookup_insert_ne by lia.
        by rewrite lookup_insert_eq. }
  intros l. split.
  - intros [Hnd Hsel]. apply singleton_list; [done |].
    intros n. by rewrite Hsel.
  - intros ->. split; [apply NoDup_singleton |].
    intros n. rewrite Hw. apply list_elem_of_singleton.
Qed.


(** X17.  The first blur of an attached image on a canvas that [toDataURL]
    encodes, then [removeAllBlurs].  The wrapper takes the place of the
    image and holds the image, the overlay and the badge; it is the one
    element that [querySelectorAll('.halal-vision-wrapper')] selects.  When
    the wrapped element is an [img], [removeAllBlurs] puts it back under
    its parent, at its place in the child list, takes the wrapper out of
    the page and empties [blurredElements].  When the wrapped element is
    not an [img] and holds none, [querySelector('img')] finds nothing:
    [removeAllBlurs] empties [blurredElements] and leaves the element in
    its wrapper. *)
Theorem wrap_then_removeAllBlurs (st : settings) (is_img : node -> bool) (e p : node)
    (c : canvas) (pg : page) :
  page_numbered pg ->
  parentElement pg !! e = Some p ->
  is_wrapper pg p = false ->
  blurredElements pg !! e = None ->
  is_native pg e = true ->
  NoDup (children pg p) ->
  e ∈ children pg p ->
  (forall n, is_wrapper pg n = true -> parentElement pg !! n = None) ->
  originClean c = true ->
  exists pg1,
    applyBlurredOverlay st e (Some c) false pg = Completed pg1
    /\ children pg1 (fresh pg) = [e; S (fresh pg); S (S (fresh pg))]
    /\ created pg1 !! S (fresh pg) = Some (OverlayDiv (Some (canvas_data c)))
    /\ (forall l, selects_wrappers pg1 l <-> l = [fresh pg])
    /\ (is_img e = true ->
        exists pg2,
          removeAllBlurs is_img [fresh pg] pg1 = Completed pg2
          /\ parentElement pg2 !! e = Some p
          /\ children pg2 p = children pg p
          /\ parentElement pg2 !! fresh pg = None
          /\ blurredElements pg2 = ∅
          /\ styleFilter pg2 = styleFilter pg)
    /\ (is_img e = false -> children pg e = [] ->
        removeAllBlurs is_img [fresh pg] pg1 = Completed (clear_blurredElements pg1)).
Proof.
  intros Hnum Hp Hw Hn Hnat Hnd He Hnone Hclean.
  destruct (applyBlurredOverlay_wrap st e p c pg Hnum Hp Hw Hn Hclean)
    as (pg1 & Hrun & Hbl & Hpar & Hcr & Hsf & Hfr & Hcw & Hcp & Hcm).
  pose proof (wrapped_page_wrappers e p pg pg1 (OverlayDiv (Some (canvas_data c)))
                Hnum Hp Hnat Hnone Hpar Hcr ltac:(done)) as Hsel.
  pose proof Hnum as (Hpn & Hcn & Hkn).
  destruct (Hpn e p Hp) as [Hlt_e Hlt_p].
  set (w := fresh pg) in *.
  assert (Hcre : created pg !! e = None).
  { unfold is_native in Hnat. by destruct (created pg !! e). }
  assert (Hpw : parentElement pg1 !! w = Some p).
  { rewrite Hpar. rewrite !lookup_insert_ne by lia. by rewrite lookup_insert_eq. }
  assert (Hpe : parentElement pg1 !! e = Some w).
  { rewrite Hpar. rewrite !lookup_insert_ne by lia. by rewrite lookup_insert_eq. }
  assert (Hnat1 : is_native pg1 e = true).
  { unfold is_native. rewrite Hcr. rewrite !lookup_insert_ne by lia.
    by rewrite Hcre. }
  exists pg1.
  split; [exact Hrun |]. split; [exact Hcw |].
  split; [rewrite Hcr; rewrite lookup_insert_ne by lia; by rewrite lookup_insert_eq |].
  split; [exact Hsel |].
  split.
  - intros Himg.
    assert (Hfind : wrappedImg is_img pg1 w = Some e).
    { unfold wrappedImg. rewrite Hcw, Hfr. cbn [find_img]. by rewrite Hnat1, Himg. }
    set (pY := insertBefore p e w pg1).
    exists (clear_blurredElements (removeNode w pY)).
    split.
    { unfold removeAllBlurs. cbn [forEach]. unfold unwrap. by rewrite Hfind, Hpw. }
    split.
    { cbn. rewrite lookup_delete_ne by lia. by rewrite lookup_insert_eq. }
    split.
    { change (children (removeNode w pY) p = children pg p).
      rewrite children_removeNode, detach_children.
      assert (HwY : parentElement pY !! w = Some p).
      { unfold pY; cbn. by rewrite lookup_insert_ne by lia. }
      rewrite HwY, bool_decide_eq_true_2 by done.
      unfold pY. rewrite children_insertBefore, bool_decide_eq_true_2 by done.
      rewrite detach_children, Hpe.
      rewrite bool_decide_eq_false_2 by (intros [=]; lia).
      rewrite Hcp. apply wrap_unwrap_list; [done | done | | lia].
      intros Hin. destruct (childNodes pg !! p) as [l |] eqn:El.
      - destruct (Hcn p l El) as [_ Hm]. unfold children in Hin. rewrite El in Hin.
        apply Hm in Hin. unfold w in Hin. lia.
      - unfold children in Hin. rewrite El in Hin. by apply elem_of_nil in Hin. }
    split.
    { cbn. by rewrite lookup_delete_eq. }
    split; [done |]. exact Hsf.
  - intros Himg Hleaf.
    assert (Hep : e ≠ p).
    { intros ->. rewrite Hleaf in He. by apply elem_of_nil in He. }
    assert (Hce : children pg1 e = []).
    { rewrite Hcm by (done || lia). exact Hleaf. }
    assert (Hco : children pg1 (S w) = []).
    { rewrite Hcm by lia. unfold children.
      by rewrite (numbered_fresh_children pg (S w)) by (done || lia). }
    assert (Hcb : children pg1 (S (S w)) = []).
    { rewrite Hcm by lia. unfold children.
      by rewrite (numbered_fresh_children pg (S (S w))) by (done || lia). }
    assert (Hno : is_native pg1 (S w) = false).
    { unfold is_native. rewrite Hcr. rewrite lookup_insert_ne by lia.
      by rewrite lookup_insert_eq. }
    assert (Hnb : is_native pg1 (S (S w)) = false).
    { unfold is_native. rewrite Hcr. by rewrite lookup_insert_eq. }
    assert (Hfind : wrappedImg is_img pg1 w = None).
    { unfold wrappedImg. rewrite Hcw, Hfr. cbn [find_img].
      rewrite Himg, andb_false_r, Hce.
      replace (find_img is_img pg1 (S (S w)) []) with (@None node) by done.
      cbn [find_img]. rewrite Hno, Hco. cbn [andb].
      replace (find_img is_img pg1 (S w) []) with (@None node) by done.
      cbn [find_img]. rewrite Hnb, Hcb. cbn [andb].
      by destruct w. }
    unfold removeAllBlurs. cbn [forEach]. unfold unwrap. by rewrite Hfind.
Qed.

(** X17 on the sample page: node 1 is an [img]. *)
Lemma wrap_then_removeAllBlurs_witness :
  exists pg1 pg2,
    applyBlurredOverlay default_settings 1%nat (Some clean_canvas) false sample_page
    = Completed pg1
    /\ children pg1 2%nat = [1%nat; 3%nat; 4%nat]
    /\ removeAllBlurs (fun n => bool_decide (n = 1%nat)) [2%nat] pg1 = Completed pg2
    /\ parentElement pg2 !! 1%nat = Some 0%nat
    /\ children pg2 0%nat = [1%nat].
Proof.
  destruct (wrap_then_removeAllBlurs default_settings (fun n => bool_decide (n = 1%nat))
              1%nat 0%nat clean_canvas
              sample_page page_numbered_sample_page eq_refl eq_refl eq_refl eq_refl)
    as (pg1 & H1 & H2 & _ & _ & H3 & _).
  - cbn. apply NoDup_singleton.
  - cbn. by apply list_elem_of_singleton.
  - intros n Hn. unfold is_wrapper in Hn. cbn in Hn. by rewrite lookup_empty in Hn.
  - reflexivity.
  - destruct (H3 eq_refl) as (pg2 & H4 & H5 & H6 & _).
    exists pg1, pg2. repeat split; assumption.
Defined.

(** A wrapped [div] stays in its wrapper. *)
Example wrapped_div_stays :
  exists pg1,
    applyCSSBlur default_settings 1%nat sample_page = Completed pg1
    /\ removeAllBlurs (fun _ => false) [2%nat] pg1
       = Completed (clear_blurredElements pg1)
    /\ parentElement pg1 !! 1%nat = Some 2%nat.
Proof. eexists. repeat split. Qed.
(** ** The whitelist *)

Lemma includes_true (l : list string) (s : string) : includes l s = true <-> s ∈ l.
Proof. unfold includes. apply bool_decide_eq_true. Qed.

Lemma includes_app (l : list string) (s d : string) :
  includes (l ++ [s]) d = includes l d || bool_decide (d = s).
Proof.
  apply eq_true_iff_eq.
  rewrite orb_true_iff, !includes_true, bool_decide_eq_true, elem_of_app,
    list_elem_of_singleton. done.
Qed.

Lemma indexOf_Some (l : list string) (s : string) (i : nat) :
  indexOf l s = Some i -> l !! i = Some s.
Proof.
  revert i. induction l as [| a l IH]; intros i; cbn [indexOf]; [done |].
  case_bool_decide as Ha.
  - intros [= <-]. by subst.
  - destruct (indexOf l s) as [j |]; [| done]. cbn. intros [= <-]. by apply IH.
Qed.

Lemma indexOf_None (l : list string) (s : string) : indexOf l s = None <-> s ∉ l.
Proof.
  induction l as [| a l IH]; cbn [indexOf].
  - split; [intros _; apply not_elem_of_nil | done].
  - case_bool_decide as Ha.
    + split; [done |]. intros H. exfalso. apply H. subst. by left.
    + rewrite not_elem_of_cons, <- IH.
      destruct (indexOf l s) as [j |]; cbn.
      * split; [done | by intros [_ ?]].
      * split; [| done]. intros _. split; [congruence | done].
Qed.

(** Taking the entry at [i] out of a list without duplicates. *)
Lemma delete_NoDup (l : list string) (i : nat) (s : string) :
  NoDup l -> l !! i = Some s ->
  NoDup (delete i l)
  /\ includes (delete i l) s = false
  /\ forall d, d ≠ s -> includes (delete i l) d = includes l d.
Proof.
  intros Hnd Hi. pose proof (delete_Permutation l i s Hi) as Hperm.
  rewrite Hperm in Hnd. apply NoDup_cons in Hnd as [Hs Hnd].
  split; [done |]. split.
  - unfold includes. by apply bool_decide_eq_false_2.
  - intros d Hd. apply eq_true_iff_eq. rewrite !includes_true.
    assert (Heq : d ∈ l <-> d ∈ s :: delete i l)
      by (by apply elem_of_Permutation_proper).
    rewrite Heq, elem_of_cons. split; [by right |].
    by intros [-> | H].
Qed.

Lemma sublist_delete_NoDup (l : list string) (i : nat) : NoDup l -> NoDup (delete i l).
Proof. intros H. apply (sublist_NoDup _ l H), sublist_delete. Qed.

Lemma NoDup_snoc_new (l : list string) (s : string) :
  NoDup l -> s ∉ l -> NoDup (l ++ [s]).
Proof.
  intros Hnd Hs. apply NoDup_app. split; [done |]. split; [| apply NoDup_singleton].
  intros x Hx Hxs. apply list_elem_of_singleton in Hxs as ->. done.
Qed.

(** X18.  No handler puts a site on the whitelist twice: the worker's
    [addCurrentSiteToWhitelist], the add and remove buttons of the options
    page and the whitelist button of the popup all take a list without
    duplicates to a list without duplicates. *)
Theorem whitelist_NoDup_kept (s : string) (index : nat) (wl : whitelist) :
  wl_NoDup wl ->
  (forall wl' sent,
     addCurrentSiteToWhitelist s (Some wl) = Yields (Some wl', sent) -> wl_NoDup wl')
  /\ (forall wl', addSite s wl = Yields wl' -> wl_NoDup wl')
  /\ (forall wl', removeSite index wl = Yields wl' -> wl_NoDup wl')
  /\ wl_NoDup (whitelistBtn_click s wl).
Proof.
  intros Hnd. split; [| split; [| split]].
  - intros wl' sent. unfold addCurrentSiteToWhitelist.
    destruct wl as [l |]; [| done].
    destruct (includes l s) eqn:E; intros [= <- <-]; [done |].
    apply NoDup_snoc_new; [done |]. rewrite <- includes_true. by rewrite E.
  - intros wl'. unfold addSite. case_bool_decide; [by intros [= <-] |].
    destruct wl as [l |]; [| done].
    destruct (includes l s) eqn:E; intros [= <-]; [done |].
    apply NoDup_snoc_new; [done |]. rewrite <- includes_true. by rewrite E.
  - intros wl'. unfold removeSite. destruct wl as [l |]; [| done].
    intros [= <-]. by apply sublist_delete_NoDup.
  - unfold whitelistBtn_click. destruct wl as [l |]; cbn; [| apply NoDup_singleton].
    destruct (indexOf l s) as [i |] eqn:E; cbn.
    + by apply sublist_delete_NoDup.
    + apply NoDup_snoc_new; [done |]. by apply indexOf_None.
Qed.

Lemma whitelist_NoDup_kept_witness :
  wl_NoDup (whitelistBtn_click "a.org" (Some ["a.org"; "b.org"]))
  /\ whitelistBtn_click "a.org" (Some ["a.org"; "b.org"]) = Some ["b.org"].
Proof.
  split; [| reflexivity].
  apply (whitelist_NoDup_kept "a.org" 0 (Some ["a.org"; "b.org"])).
  cbn. apply NoDup_cons. split.
  - intros H. apply list_elem_of_singleton in H. discriminate H.
  - apply NoDup_singleton.
Defined.

(** X19.  A click on the whitelist button of the popup flips the status of
    the current site and of no other site, on a whitelist without
    duplicates; a missing list counts as empty. *)
Theorem whitelistBtn_click_flips (domain : string) (wl : whitelist) :
  wl_NoDup wl ->
  isWhitelisted domain (Some (whitelistBtn_click domain wl))
  = negb (isWhitelisted domain (Some wl))
  /\ forall d, d ≠ domain ->
       isWhitelisted d (Some (whitelistBtn_click domain wl))
       = isWhitelisted d (Some wl).
Proof.
  intros Hnd. unfold whitelistBtn_click, isWhitelisted.
  destruct wl as [l |]; cbn.
  - destruct (indexOf l domain) as [i |] eqn:E; cbn.
    + apply indexOf_Some in E.
      destruct (delete_NoDup l i domain Hnd E) as (_ & Hgone & Hother).
      assert (Hin : includes l domain = true).
      { apply includes_true. by eapply list_elem_of_lookup_2. }
      rewrite Hgone, Hin. split; [done |]. exact Hother.
    + apply indexOf_None in E.
      assert (Hout : includes l domain = false).
      { unfold includes. by apply bool_decide_eq_false_2. }
      rewrite Hout. split.
      * rewrite includes_app, bool_decide_eq_true_2 by done. apply orb_true_r.
      * intros d Hd. rewrite includes_app, bool_decide_eq_false_2 by done.
        apply orb_false_r.
  - split; [by apply includes_true, list_elem_of_singleton |].
    intros d Hd. unfold includes. apply bool_decide_eq_false_2.
    intros H. by apply list_elem_of_singleton in H.
Qed.

Lemma whitelistBtn_click_flips_witness :
  isWhitelisted "a.org" (Some (whitelistBtn_click "a.org" (Some ["b.org"])))
  = negb (isWhitelisted "a.org" (Some (Some ["b.org"]))).
Proof.
  apply (whitelistBtn_click_flips "a.org" (Some ["b.org"])).
  cbn. apply NoDup_singleton.
Defined.

(** With a site listed twice, one click leaves it on the whitelist. *)
Example whitelistBtn_click_duplicate :
  isWhitelisted "a.org" (Some (whitelistBtn_click "a.org" (Some ["a.org"; "a.org"])))
  = true.
Proof. reflexivity. Qed.

(** X20.  Adding a site, from the options page or from the context menu of
    the worker, puts it on the whitelist, changes the status of no other
    site, and adding it again changes nothing; the worker tells the tab
    only when the site is new.  The options page ignores the empty string.
    When the settings hold no [whitelist], both handlers throw: in the
    options page the test [if (!settings.whitelist)] comes after the call
    of [includes]. *)
Theorem add_site (site : string) (l : list string) :
  site ≠ EmptyString ->
  (exists l',
     addSite site (Some l) = Yields (Some l')
     /\ includes l' site = true
     /\ (forall d, d ≠ site -> includes l' d = includes l d)
     /\ addSite site (Some l') = Yields (Some l')
     /\ addCurrentSiteToWhitelist site (Some (Some l))
        = Yields (Some (Some l'), negb (includes l site))
     /\ addCurrentSiteToWhitelist site (Some (Some l'))
        = Yields (Some (Some l'), false))
  /\ addSite site None = Throws
  /\ addCurrentSiteToWhitelist site (Some None) = Throws
  /\ addCurrentSiteToWhitelist site None = Throws
  /\ addSite EmptyString None = Yields None.
Proof.
  intros Hsite. split.
  - unfold addSite, addCurrentSiteToWhitelist.
    rewrite bool_decide_eq_false_2 by done.
    destruct (includes l site) eqn:E.
    + exists l. rewrite E. by repeat split.
    + exists (l ++ [site]).
      assert (Hin : includes (l ++ [site]) site = true).
      { rewrite includes_app, bool_decide_eq_true_2 by done. apply orb_true_r. }
      rewrite Hin. repeat split; try done.
      intros d Hd. rewrite includes_app, bool_decide_eq_false_2 by done.
      apply orb_false_r.
  - unfold addSite. rewrite bool_decide_eq_false_2 by done. by repeat split.
Qed.

Lemma add_site_witness :
  addSite "a.org" (Some ["b.org"]) = Yields (Some ["b.org"; "a.org"])
  /\ addSite "a.org" None = Throws.
Proof.
  assert (Hne : "a.org" ≠ EmptyString) by discriminate.
  split; [reflexivity |].
  exact (proj1 (proj2 (add_site "a.org" ["b.org"] Hne))).
Defined.

(** X21.  A remove button of the options page takes the site of its row,
    and no other site, off a whitelist without duplicates. *)
Theorem removeSite_removes (index : nat) (l : list string) (site : string) :
  NoDup l ->
  l !! index = Some site ->
  exists l',
    removeSite index (Some l) = Yields (Some l')
    /\ length l = S (length l')
    /\ isWhitelisted site (Some (Some l')) = false
    /\ forall d, d ≠ site ->
         isWhitelisted d (Some (Some l')) = isWhitelisted d (Some (Some l)).
Proof.
  intros Hnd Hi. exists (delete index l). split; [done |].
  split.
  - rewrite length_delete by (by eexists). apply lookup_lt_Some in Hi. lia.
  - destruct (delete_NoDup l index site Hnd Hi) as (_ & Hgone & Hother). by split.
Qed.

Lemma removeSite_removes_witness :
  exists l',
    removeSite 1 (Some ["a.org"; "b.org"; "c.org"]) = Yields (Some l')
    /\ isWhitelisted "b.org" (Some (Some l')) = false.
Proof.
  destruct (removeSite_removes 1 ["a.org"; "b.org"; "c.org"] "b.org")
    as (l' & Hrun & _ & Hgone & _); [| reflexivity |].
  - apply NoDup_cons. split.
    + intros H. apply elem_of_cons in H as [H | H]; [discriminate H |].
      apply list_elem_of_singleton in H. discriminate H.
    + apply NoDup_cons. split; [| apply NoDup_singleton].
      intros H. apply list_elem_of_singleton in H. discriminate H.
  - by exists l'.
Defined.

(** ** The context menu *)

(** X22.  Of the four items that [createContextMenus] creates, the two
    for images, [blurThisImage] and [unblurThisImage], match no case of the
    [switch] of the [onClicked] listener: a click on one of them calls
    nothing and sends no message.  The cases [blurSpecificImage] and
    [unblurSpecificImage] of the [switch] belong to no item, so that no
    click on an item sends one of these two messages.  The other two
    items do reach the tabs: [toggleHalalVision] sends [settingsUpdated] to
    every tab, [addToWhitelist] sends [siteWhitelisted] to the tab of the
    click when it adds the domain. *)
Theorem image_menu_items_dead (id : string) (contexts : list string) (tab : nat)
    (domain : string) (tabs : list nat) (stored : option whitelist) :
  (id, contexts) ∈ createContextMenus ->
  ("image" ∈ contexts ->
   onClicked id = NoAction /\ clickMessages id tab domain tabs stored = [])
  /\ (forall t action,
        (t, action) ∈ clickMessages id tab domain tabs stored ->
        action ≠ "blurSpecificImage" /\ action ≠ "unblurSpecificImage")
  /\ (forall wl,
        clickMessages "toggleHalalVision" tab domain tabs (Some wl)
        = map (fun t => (t, "settingsUpdated")) tabs)
  /\ (forall l,
        clickMessages "addToWhitelist" tab domain tabs (Some (Some l))
        = if includes l domain then [] else [(tab, "siteWhitelisted")]).
Proof.
  intros Hin.
  split; [| split; [| split]].
  - unfold createContextMenus in Hin.
    repeat (apply elem_of_cons in Hin as [[= -> ->] | Hin]);
      [| | | | by apply elem_of_nil in Hin].
    + intros H. apply list_elem_of_singleton in H. discriminate H.
    + intros H. apply list_elem_of_singleton in H. discriminate H.
    + done.
    + done.
  - intros t action Hm. unfold createContextMenus in Hin.
    repeat (apply elem_of_cons in Hin as [[= -> ->] | Hin]);
      [| | | | by apply elem_of_nil in Hin].
    + unfold clickMessages, toggleExtension in Hm. cbn in Hm.
      destruct stored as [wl |]; [| by apply elem_of_nil in Hm].
      apply list_elem_of_fmap in Hm as (t' & [= -> ->] & _). done.
    + unfold clickMessages in Hm. cbn in Hm.
      destruct (addCurrentSiteToWhitelist domain stored) as [[s [|]] |];
        try (by apply elem_of_nil in Hm).
      apply list_elem_of_singleton in Hm as [= -> ->]. done.
    + by apply elem_of_nil in Hm.
    + by apply elem_of_nil in Hm.
  - done.
  - intros l. unfold clickMessages, addCurrentSiteToWhitelist. cbn.
    by destruct (includes l domain).
Qed.

Lemma image_menu_items_dead_witness :
  ("blurThisImage", ["image"]) ∈ createContextMenus
  /\ onClicked "blurThisImage" = NoAction
  /\ clickMessages "blurThisImage" 7%nat "a.org" [7%nat; 8%nat] (Some (Some [])) = [].
Proof.
  assert (Hin : ("blurThisImage", ["image"]) ∈ createContextMenus).
  { unfold createContextMenus. do 2 right. by left. }
  split; [exact Hin |].
  apply (proj1 (image_menu_items_dead "blurThisImage" ["image"] 7%nat "a.org"
                  [7%nat; 8%nat] (Some (Some [])) Hin)).
  by left.
Defined.

(** ** The canvas code of [blurImage] *)

Lemma negative_length_Z (n : Z) : negative_length (inject_Z n) = (n <? 0).
Proof. unfold negative_length. by rewrite Qceiling_Z. Qed.

(** On integer sizes [stackBlur_region] is [stackBlur]. *)
Lemma stackBlur_region_Z (pixels : list Z) (width height : Z) (radius : Q) :
  stackBlur_region pixels (inject_Z width) (inject_Z height) radius
  = stackBlur pixels width height radius.
Proof.
  unfold stackBlur_region, stackBlur.
  destruct (Qfloor radius <? 1); [done |].
  assert (Hwh : negative_length (inject_Z width * inject_Z height)
                = (width * height <? 0)).
  { unfold negative_length, Qceiling, Qfloor; cbn. rewrite Z.div_1_r.
    destruct (Z.ltb_spec (- - (width * height)) 0),
             (Z.ltb_spec (width * height) 0); (done || lia). }
  assert (Hmax : Qmax (inject_Z width) (inject_Z height)
                 = inject_Z (Z.max width height)).
  { unfold Qmax, GenericMinMax.gmax, Qcompare, Z.max; cbn.
    rewrite !Z.mul_1_r. by destruct (width ?= height). }
  by rewrite Hwh, Hmax, negative_length_Z.
Qed.

Lemma stackBlur_region_ending (pixels : list Z) (width height radius : Q) :
  fst (stackBlur_region pixels width height radius) = pixels
  /\ (snd (stackBlur_region pixels width height radius) = Returned
      <-> Qfloor radius < 1).
Proof.
  unfold stackBlur_region.
  destruct (Z.ltb_spec (Qfloor radius) 1); [done |].
  destruct (negative_length _ || negative_length _); cbn;
    (split; [done |]); split; (done || lia).
Qed.

Lemma blurRegion_canvas_cases (st : settings) (env : canvas_env) (f : face)
    (canvas canvas' : list Z) :
  blurRegion_canvas st env f canvas = Yields canvas' ->
  Qfloor (blurIntensity st) < 1
  /\ exists imageData,
       getImageData env canvas (blurRegion (topLeft f) (bottomRight f))
       = Yields imageData
       /\ canvas' = putImageData env imageData
                      (blurRegion (topLeft f) (bottomRight f)) canvas.
Proof.
  unfold blurRegion_canvas.
  destruct (getImageData env canvas _) as [imageData |]; [| done].
  pose proof (stackBlur_region_ending imageData
                (expandedWidth (blurRegion (topLeft f) (bottomRight f)))
                (expandedHeight (blurRegion (topLeft f) (bottomRight f)))
                (blurIntensity st)) as [Hfst Hsnd].
  destruct (stackBlur_region imageData _ _ _) as [d e]. cbn in Hfst, Hsnd. subst d.
  destruct e; [| done]. intros [= <-]. split; [by apply Hsnd |]. by exists imageData.
Qed.

Lemma blurBodyRegions_returned (st : settings) (seg : segmentation)
    (width height : Z) (imageData imageData' : list Z) :
  blurBodyRegions st seg width height imageData = (imageData', Returned) ->
  Qfloor (blurIntensity st) < 1
  /\ (bytes imageData -> imageData' = imageData).
Proof.
  unfold blurBodyRegions.
  destruct (createMaskFromSegmentation seg width height) as [mask |]; [| done].
  pose proof (stackBlur_buffer imageData width height (blurIntensity st)) as Hbuf.
  pose proof (stackBlur_ending imageData width height (blurIntensity st)) as Hend.
  destruct (stackBlur imageData width height (blurIntensity st)) as [blurred e].
  cbn in Hbuf, Hend. subst blurred. destruct e; [| done].
  intros [= <-]. split; [by apply Hend |]. intros Hb. by apply compositeMask_self.
Qed.

Lemma blurFaces_loop_cases (st : settings) (env : canvas_env) (fs : list face)
    (canvas canvas' : list Z) :
  blurFaces_loop st env fs canvas = Yields canvas' ->
  (fs ≠ [] -> Qfloor (blurIntensity st) < 1)
  /\ (canvas_faithful env -> canvas' = canvas).
Proof.
  revert canvas. induction fs as [| f fs IH]; intros canvas; cbn [blurFaces_loop].
  - intros [= <-]. done.
  - destruct (blurRegion_canvas st env f canvas) as [c1 |] eqn:E; [| done].
    apply blurRegion_canvas_cases in E as (Hr & imageData & Hget & ->).
    intros H. apply IH in H as [_ Hsame]. split; [done |].
    intros Henv. rewrite Hsame by done. by apply (Henv canvas _ imageData).
Qed.

Lemma blurBodyRegions_canvas_cases (st : settings) (env : canvas_env)
    (seg : segmentation) (width height : Z) (canvas canvas' : list Z) :
  blurBodyRegions_canvas st env seg width height canvas = Yields canvas' ->
  Qfloor (blurIntensity st) < 1
  /\ (canvas_faithful env -> canvas' = canvas).
Proof.
  unfold blurBodyRegions_canvas.
  destruct (createMaskFromSegmentation seg width height) as [mask |]; [| done].
  destruct (getImageData env canvas _) as [imageData |] eqn:Hget; [| done].
  destruct (blurBodyRegions st seg width height imageData) as [d e] eqn:E.
  destruct e; [| done]. intros [= <-].
  apply blurBodyRegions_returned in E as [Hr Hd]. split; [done |].
  intros Henv. destruct (Henv canvas _ imageData Hget) as [Hb Hput].
  by rewrite Hd.
Qed.

(** X23.  With a blur radius of 1 or more, [blurImage] never shows a
    canvas overlay for an image with something to blur: as soon as the
    faces are to be blurred and the result lists one, or the bodies are to
    be blurred and the result carries a segmentation, the canvas code
    throws, at the latest in [stackBlur], and [blurImage] does what
    [applyCSSBlur] does, whatever [toDataURL] would do. *)
Theorem blurImage_falls_back (st : settings) (clean : bool) (r : results)
    (env : canvas_env) (width height : Z) (img : node) (pg : page) :
  1 <= Qfloor (blurIntensity st) ->
  (blurFaces st = true /\ faces r ≠ [])
  \/ (blurBodies st = true /\ is_Some (bodySegmentation r)) ->
  blurImage_try st r env width height = Throws
  /\ blurImage st clean (blurImage_try st r env width height) img pg
     = applyCSSBlur st img pg.
Proof.
  intros Hr Hwork.
  assert (Hthrows : blurImage_try st r env width height = Throws).
  { unfold blurImage_try.
    destruct (drawImage_overlay env) as [canvas |]; [| done].
    destruct (blurFaces st && (0 <? length (faces r))%nat) eqn:Hf.
    - destruct (blurFaces_loop st env (faces r) canvas) as [c1 |] eqn:E; [| done].
      apply blurFaces_loop_cases in E as [Hlt _].
      apply andb_true_iff in Hf as [_ Hlen].
      assert (Hne : faces r ≠ []) by (by destruct (faces r)).
      specialize (Hlt Hne). lia.
    - destruct Hwork as [[Hbf Hne] | [Hbb [seg Hseg]]].
      + rewrite Hbf in Hf. destruct (faces r); [done | discriminate Hf].
      + rewrite Hbb, Hseg.
        destruct (blurBodyRegions_canvas st env seg width height canvas)
          as [c1 |] eqn:E; [| done].
        apply blurBodyRegions_canvas_cases in E as [Hlt _]. lia. }
  split; [exact Hthrows |]. by rewrite Hthrows.
Qed.

Lemma blurImage_falls_back_witness :
  blurImage_try default_settings flagged_results whole_canvas_env 2 3 = Throws
  /\ blurImage default_settings true
       (blurImage_try default_settings flagged_results whole_canvas_env 2 3)
       1%nat sample_page
     = applyCSSBlur default_settings 1%nat sample_page.
Proof.
  apply (blurImage_falls_back default_settings true flagged_results whole_canvas_env
           2 3 1%nat sample_page).
  - vm_compute. discriminate.
  - left. split; [reflexivity | discriminate].
Defined.

(** X24.  The canvas that [blurImage] hands to [applyBlurredOverlay] is
    never blurred: whenever the canvas code ends well, the canvas holds the
    image as [drawImage] drew it.  A radius below 1 makes [stackBlur]
    return at once, a radius of 1 or more makes it throw.  With
    [blurFaces] off and no segmentation to blur, the faces that were
    flagged through [blurMen] or [blurWomen] are not touched at all. *)
Theorem overlay_is_drawn_image (st : settings) (r : results) (env : canvas_env)
    (width height : Z) :
  canvas_faithful env ->
  (forall canvas,
     blurImage_try st r env width height = Yields canvas ->
     drawImage_overlay env = Yields canvas)
  /\ (blurFaces st = false ->
      blurBodies st = false \/ bodySegmentation r = None ->
      blurImage_try st r env width height = drawImage_overlay env).
Proof.
  intros Henv. unfold blurImage_try. split.
  - intros canvas. destruct (drawImage_overlay env) as [c0 |]; [| done].
    destruct (if blurFaces st && (0 <? length (faces r))%nat then _ else _)
      as [c1 |] eqn:E1; [| done].
    assert (H1 : c1 = c0).
    { destruct (blurFaces st && (0 <? length (faces r))%nat).
      - apply blurFaces_loop_cases in E1 as [_ H]. by apply H.
      - by injection E1 as <-. }
    subst c1.
    destruct (blurBodies st); [| by intros [= <-]].
    destruct (bodySegmentation r) as [seg |]; [| by intros [= <-]].
    intros E2. apply blurBodyRegions_canvas_cases in E2 as [_ H].
    by rewrite H.
  - intros Hbf Hbody. rewrite Hbf. cbn [andb].
    destruct (drawImage_overlay env) as [c0 |]; [| done].
    destruct Hbody as [-> | ->]; [done |]. by destruct (blurBodies st).
Qed.

Lemma whole_canvas_env_faithful : canvas_faithful whole_canvas_env.
Proof.
  intros canvas r imageData. cbn.
  destruct (decide (bytes canvas)) as [Hb | Hb]; [| done].
  by intros [= <-].
Qed.

Lemma overlay_is_drawn_image_witness :
  blurImage_try faint_settings flagged_results whole_canvas_env 2 3
  = Yields sample_pixels
  /\ blurImage_try men_only_settings flagged_results whole_canvas_env 2 3
     = Yields sample_pixels.
Proof.
  destruct (overlay_is_drawn_image men_only_settings flagged_results
              whole_canvas_env 2 3 whole_canvas_env_faithful) as [_ H].
  split.
  - unfold blurImage_try, faint_settings, flagged_results; cbn.
    unfold blurRegion_canvas; cbn.
    destruct (decide (bytes sample_pixels)) as [Hb | Hb]; [done |].
    exfalso. apply Hb. repeat constructor; lia.
  - apply H; [reflexivity | by right].
Defined.
